(** * The inception audit gateway: session markers, batch schema, execution

    A shallow embedding of the session layer of the gateway
    (sql/inception/): the marker parser, the pre-parse dispatcher, the split
    grouper, the batch-schema bookkeeping of the audit engine, the ALTER
    algorithm prediction and the remote execution loop, followed by the
    properties established about them.

    Conventions.
    - A [const char *] into a query buffer is a [nat] offset into the
      [string] holding the buffer; the byte one past the end reads as NUL,
      as the server's query buffers are NUL terminated.
    - [int], [uint], [ulong] and [uint64_t] are [Z]; a narrowing cast is
      written out as a [mod].  [unsigned long] is 64 bits wide (LP64).
    - [std::map] / [std::set] are stdpp's [gmap] / [gset].
    - The remote server, the clock and other sessions are an explicit
      environment of scripted answers. *)

From Stdlib Require Import ZArith Lia Bool List Ascii String Sorted.
From stdpp Require Import base gmap strings list pretty.

Local Open Scope Z_scope.

(** ** C strings *)

Module CStr.

Definition NUL : ascii := Ascii.zero.

(** [s[i]], reading the terminator at and past the end. *)
Definition char_at (s : string) (i : nat) : ascii :=
  match String.get i s with
  | Some c => c
  | None => NUL
  end.

(** The C string that starts at offset [i] of [s]. *)
Fixpoint cstr (s : string) (i : nat) : string :=
  match i, s with
  | O, _ => s
  | S i', String _ r => cstr r i'
  | S _, EmptyString => EmptyString
  end.

Definition code (c : ascii) : N := N_of_ascii c.

(** The four blanks the marker code skips by hand. *)
Definition is_blank (c : ascii) : bool :=
  Ascii.eqb c " " || Ascii.eqb c "009" || Ascii.eqb c "013"
  || Ascii.eqb c "010".

(** [isspace] in the C locale. *)
Definition isspace (c : ascii) : bool :=
  Ascii.eqb c " " || ((9 <=? code c)%N && (code c <=? 13)%N).

Definition isdigit (c : ascii) : bool :=
  ((48 <=? code c)%N && (code c <=? 57)%N).

Definition tolower (c : ascii) : ascii :=
  if ((65 <=? code c)%N && (code c <=? 90)%N)
  then ascii_of_N (code c + 32) else c.

Fixpoint string_tolower (s : string) : string :=
  match s with
  | EmptyString => EmptyString
  | String c r => String (tolower c) (string_tolower r)
  end.

(** [strncasecmp(s1, s2, n) == 0]. *)
Fixpoint strncasecmp (n : nat) (s1 s2 : string) : bool :=
  match n with
  | O => true
  | S n' =>
      match s1, s2 with
      | EmptyString, EmptyString => true
      | String c1 r1, String c2 r2 =>
          if Ascii.eqb (tolower c1) (tolower c2)
          then strncasecmp n' r1 r2 else false
      | _, _ => false
      end
  end.

(** [strcasecmp(s1, s2) == 0]. *)
Definition strcasecmp (s1 s2 : string) : bool :=
  strncasecmp (S (String.length s1)) s1 s2.

(** [memchr(s + p, c, n)]: offset of the first [c] in [s[p .. p+n)]. *)
Fixpoint memchr (s : string) (p : nat) (c : ascii) (n : nat) : option nat :=
  match n with
  | O => None
  | S n' => if Ascii.eqb (char_at s p) c then Some p
            else memchr s (S p) c n'
  end.

(** [s1] is a prefix of [s2] (bytewise). *)
Fixpoint starts_with (s1 s2 : string) : bool :=
  match s1, s2 with
  | EmptyString, _ => true
  | String c1 r1, String c2 r2 => Ascii.eqb c1 c2 && starts_with r1 r2
  | String _ _, EmptyString => false
  end.

(** [std::string::find(needle)]; [None] is [npos]. *)
Fixpoint find (s needle : string) : option nat :=
  if starts_with needle s then Some O
  else match s with
       | EmptyString => None
       | String _ r => option_map S (find r needle)
       end.

(** [std::string::find(c, pos)]. *)
Definition find_char (s : string) (c : ascii) (pos : nat) : option nat :=
  memchr s pos c (String.length s - pos).

(** [std::string::rfind(c)]. *)
Fixpoint rfind_char (s : string) (c : ascii) : option nat :=
  match s with
  | EmptyString => None
  | String c' r =>
      match rfind_char r c with
      | Some i => Some (S i)
      | None => if Ascii.eqb c' c then Some O else None
      end
  end.

Definition ULONG_MAX : Z := 2 ^ 64 - 1.

Definition digit_val (c : ascii) : Z := Z.of_N (code c) - 48.

Fixpoint skip_isspace (s : string) : string :=
  match s with
  | String c r => if isspace c then skip_isspace r else s
  | EmptyString => s
  end.

(** The decimal value of the leading digits of [s], unbounded. *)
Fixpoint digits_value (s : string) (acc : Z) : Z :=
  match s with
  | String c r =>
      if isdigit c then digits_value r (acc * 10 + digit_val c) else acc
  | EmptyString => acc
  end.

(** [strtoul(s, nullptr, 10)] and [strtoull]: blanks, an optional sign,
    digits; saturating at [ULONG_MAX]; a minus sign negates modulo
    [2^64]; no digits gives 0. *)
Definition strtoul (s : string) : Z :=
  let s1 := skip_isspace s in
  let '(neg, s2) :=
    match s1 with
    | String c r =>
        if Ascii.eqb c "-" then (true, r)
        else if Ascii.eqb c "+" then (false, r) else (false, s1)
    | EmptyString => (false, s1)
    end in
  let v := digits_value s2 0 in
  if ULONG_MAX <? v then ULONG_MAX
  else if neg then (2 ^ 64 - v) mod 2 ^ 64 else v.

(** [static_cast<uint>(x)]. *)
Definition to_uint (x : Z) : Z := x mod 2 ^ 32.

(** [vsnprintf(buf, 1024, ...)]: the formatted text cut to the buffer. *)
Definition snprintf_1024 (text : string) : string :=
  String.substring 0 1023 text.

End CStr.

(** ** Session context and statement records (inception_context.h) *)

(** Builds the setter of one field from the eta expansion of a record. *)
Ltac record_setter eta proj :=
  lazymatch type of proj with
  | ?R -> ?T =>
      let f := constr:(fun (v : T) (r : R) =>
        ltac:(let e := eval cbv beta delta [eta] in (eta r) in
              lazymatch eval pattern (proj r) in e with
              | ?g _ => let g' := eval cbv beta in (g v) in exact g'
              end)) in
      exact f
  end.

Module Context.

Inductive OpMode : Type := CHECK | EXECUTE | SPLIT | QUERY_TREE.

Inductive DbType : Type := MYSQL_DB | TIDB.

#[global] Instance OpMode_eq_dec : EqDecision OpMode.
Proof. solve_decision. Defined.

#[global] Instance DbType_eq_dec : EqDecision DbType.
Proof. solve_decision. Defined.

Definition ERRLEVEL_OK : Z := 0.
Definition ERRLEVEL_WARNING : Z := 1.
Definition ERRLEVEL_ERROR : Z := 2.

Definition STAGE_NONE : Z := 0.
Definition STAGE_CHECKED : Z := 1.
Definition STAGE_EXECUTED : Z := 2.
Definition STAGE_SKIPPED : Z := 3.

(** The statement kinds the gateway tells apart; every other member of
    the server's [enum_sql_command] is [SQLCOM_OTHER]. *)
Inductive enum_sql_command : Type :=
| SQLCOM_SELECT | SQLCOM_CREATE_TABLE | SQLCOM_CREATE_INDEX
| SQLCOM_ALTER_TABLE | SQLCOM_UPDATE | SQLCOM_INSERT
| SQLCOM_INSERT_SELECT | SQLCOM_DELETE | SQLCOM_TRUNCATE
| SQLCOM_DROP_TABLE | SQLCOM_DROP_INDEX | SQLCOM_CHANGE_DB
| SQLCOM_CREATE_DB | SQLCOM_DROP_DB | SQLCOM_ALTER_DB
| SQLCOM_REPLACE | SQLCOM_REPLACE_SELECT | SQLCOM_RENAME_TABLE
| SQLCOM_SET_OPTION | SQLCOM_CREATE_VIEW | SQLCOM_DROP_VIEW
| SQLCOM_CREATE_TRIGGER | SQLCOM_DROP_TRIGGER | SQLCOM_UPDATE_MULTI
| SQLCOM_DELETE_MULTI | SQLCOM_EMPTY_QUERY | SQLCOM_END | SQLCOM_OTHER.

#[global] Instance enum_sql_command_eq_dec : EqDecision enum_sql_command.
Proof. solve_decision. Defined.

Record SqlCacheNode : Type := Build_SqlCacheNode {
  id : Z;
  sql_text : string;
  db_name : string;
  table_name : string;
  stage : Z;
  errlevel : Z;
  errmsg : string;
  stage_status : string;
  affected_rows : Z;
  sequence : string;
  backup_dbname : string;
  execute_time : string;
  sqlsha1 : string;
  sql_command : enum_sql_command;
  sub_type : string;
  ddl_algorithm : string
}.

Definition node_eta (r : SqlCacheNode) : SqlCacheNode :=
  Build_SqlCacheNode (id r) (sql_text r) (db_name r) (table_name r)
    (stage r) (errlevel r) (errmsg r) (stage_status r) (affected_rows r)
    (sequence r) (backup_dbname r) (execute_time r) (sqlsha1 r)
    (sql_command r) (sub_type r) (ddl_algorithm r).

Definition set_stage := ltac:(record_setter node_eta stage).
Definition set_errlevel := ltac:(record_setter node_eta errlevel).
Definition set_errmsg := ltac:(record_setter node_eta errmsg).
Definition set_stage_status := ltac:(record_setter node_eta stage_status).
Definition set_affected_rows := ltac:(record_setter node_eta affected_rows).
Definition set_sequence := ltac:(record_setter node_eta sequence).
Definition set_execute_time := ltac:(record_setter node_eta execute_time).
Definition set_sub_type := ltac:(record_setter node_eta sub_type).
Definition set_ddl_algorithm := ltac:(record_setter node_eta ddl_algorithm).
Definition set_node_db_name := ltac:(record_setter node_eta db_name).
Definition set_node_table_name := ltac:(record_setter node_eta table_name).

(** A default-constructed node with [id], [sql_text] and [sql_command]
    filled in, as [add_sql] builds it. *)
Definition new_node (i : Z) (sql : string) (cmd : enum_sql_command)
  : SqlCacheNode :=
  Build_SqlCacheNode i sql "" "" STAGE_NONE ERRLEVEL_OK "" "" 0 "" "" "" ""
    cmd "" "".

(** The shared tail of the three reporters: [errmsg += "\n"] when there
    is text already, then [errmsg += buf]. *)
Definition append_line (text : string) (n : SqlCacheNode) : SqlCacheNode :=
  let buf := CStr.snprintf_1024 text in
  let sep := if String.eqb (errmsg n) "" then "" else String "010" "" in
  set_errmsg (errmsg n +:+ sep +:+ buf) n.

Definition raise_errlevel (lvl : Z) (n : SqlCacheNode) : SqlCacheNode :=
  if errlevel n <? lvl then set_errlevel lvl n else n.

(** [text] is the message after formatting. *)
Definition append_error (text : string) (n : SqlCacheNode) : SqlCacheNode :=
  raise_errlevel ERRLEVEL_ERROR (append_line text n).

Definition append_warning (text : string) (n : SqlCacheNode)
  : SqlCacheNode :=
  raise_errlevel ERRLEVEL_WARNING (append_line text n).

(** [level] is the rule's knob: 0 disabled, 1 warning, 2 error. *)
Definition report (level : Z) (text : string) (n : SqlCacheNode)
  : SqlCacheNode :=
  if level =? 0 then n
  else
    let int_level :=
      if 2 <=? level then ERRLEVEL_ERROR else ERRLEVEL_WARNING in
    raise_errlevel int_level (append_line text n).

Record SplitNode : Type := Build_SplitNode {
  sn_sql_text : string;
  sn_db_name : string;
  sn_table_name : string;
  ddlflag : Z;
  is_ddl_type : bool
}.

Record QueryTreeNode : Type := Build_QueryTreeNode {
  qt_id : Z;
  qt_sql_text : string;
  query_tree_json : string
}.

(** What the gateway reads of a connected [MYSQL] handle. *)
Record MYSQL : Type := Build_MYSQL {
  server_version : option string;
  thread_id : Z
}.

(** The members [explicit_host], [explicit_user] and [explicit_port] are
    written and read by the marker parser, and declared in none of the
    sources at hand: they are taken as booleans, clear in a new context,
    and [reset], which does not name them, leaves them as they are. *)
Record InceptionContext : Type := Build_InceptionContext {
  active : bool;
  host : string;
  user : string;
  password : string;
  port : Z;
  explicit_host : bool;
  explicit_user : bool;
  explicit_port : bool;
  mode : OpMode;
  force : bool;
  backup : bool;
  ignore_warnings : bool;
  sleep_ms : Z;
  slave_hosts : list (string * Z);
  db_type : DbType;
  db_version_major : Z;
  db_version_minor : Z;
  killed : bool;
  remote_exec_thread_id : Z;
  last_threads_running : Z;
  last_repl_delay : Z;
  remote_conn : option MYSQL;
  remote_conn_failed : bool;
  remote_conn_error : string;
  cache_nodes : list SqlCacheNode;
  next_id : Z;
  split_nodes : list SplitNode;
  current_usedb : string;
  tree_nodes : list QueryTreeNode;
  altered_tables : gset string;
  batch_tables : gmap string (gset string);
  batch_databases : gset string
}.

Definition ctx_eta (r : InceptionContext) : InceptionContext :=
  Build_InceptionContext (active r) (host r) (user r) (password r) (port r)
    (explicit_host r) (explicit_user r) (explicit_port r) (mode r)
    (force r) (backup r) (ignore_warnings r) (sleep_ms r) (slave_hosts r)
    (db_type r) (db_version_major r) (db_version_minor r) (killed r)
    (remote_exec_thread_id r) (last_threads_running r) (last_repl_delay r)
    (remote_conn r) (remote_conn_failed r) (remote_conn_error r)
    (cache_nodes r) (next_id r) (split_nodes r) (current_usedb r)
    (tree_nodes r) (altered_tables r) (batch_tables r) (batch_databases r).

Definition set_active := ltac:(record_setter ctx_eta active).
Definition set_host := ltac:(record_setter ctx_eta host).
Definition set_user := ltac:(record_setter ctx_eta user).
Definition set_password := ltac:(record_setter ctx_eta password).
Definition set_port := ltac:(record_setter ctx_eta port).
Definition set_explicit_host := ltac:(record_setter ctx_eta explicit_host).
Definition set_explicit_user := ltac:(record_setter ctx_eta explicit_user).
Definition set_explicit_port := ltac:(record_setter ctx_eta explicit_port).
Definition set_mode := ltac:(record_setter ctx_eta mode).
Definition set_force := ltac:(record_setter ctx_eta force).
Definition set_backup := ltac:(record_setter ctx_eta backup).
Definition set_ignore_warnings :=
  ltac:(record_setter ctx_eta ignore_warnings).
Definition set_sleep_ms := ltac:(record_setter ctx_eta sleep_ms).
Definition set_slave_hosts := ltac:(record_setter ctx_eta slave_hosts).
Definition set_db_type := ltac:(record_setter ctx_eta db_type).
Definition set_db_version_major :=
  ltac:(record_setter ctx_eta db_version_major).
Definition set_db_version_minor :=
  ltac:(record_setter ctx_eta db_version_minor).
Definition set_killed := ltac:(record_setter ctx_eta killed).
Definition set_remote_exec_thread_id :=
  ltac:(record_setter ctx_eta remote_exec_thread_id).
Definition set_last_threads_running :=
  ltac:(record_setter ctx_eta last_threads_running).
Definition set_last_repl_delay :=
  ltac:(record_setter ctx_eta last_repl_delay).
Definition set_remote_conn := ltac:(record_setter ctx_eta remote_conn).
Definition set_remote_conn_failed :=
  ltac:(record_setter ctx_eta remote_conn_failed).
Definition set_remote_conn_error :=
  ltac:(record_setter ctx_eta remote_conn_error).
Definition set_cache_nodes := ltac:(record_setter ctx_eta cache_nodes).
Definition set_next_id := ltac:(record_setter ctx_eta next_id).
Definition set_split_nodes := ltac:(record_setter ctx_eta split_nodes).
Definition set_current_usedb := ltac:(record_setter ctx_eta current_usedb).
Definition set_tree_nodes := ltac:(record_setter ctx_eta tree_nodes).
Definition set_altered_tables :=
  ltac:(record_setter ctx_eta altered_tables).
Definition set_batch_tables := ltac:(record_setter ctx_eta batch_tables).
Definition set_batch_databases :=
  ltac:(record_setter ctx_eta batch_databases).

(** [add_sql]: pushes a fresh node; the caller goes on with the last
    element of [cache_nodes]. *)
Definition add_sql (sql : string) (cmd : enum_sql_command)
    (ctx : InceptionContext) : InceptionContext :=
  set_next_id (next_id ctx + 1)
    (set_cache_nodes (cache_nodes ctx ++ [new_node (next_id ctx) sql cmd])
       ctx).

(** [reset]: every member it names goes back to its initial value (the
    remote handle is closed on the way). *)
Definition reset (ctx : InceptionContext) : InceptionContext :=
  Build_InceptionContext false "" "" "" 3306
    (explicit_host ctx) (explicit_user ctx) (explicit_port ctx)
    CHECK false true false 0 [] MYSQL_DB 8 0 false 0 0 (-1)
    None false "" [] 1 [] "" [] ∅ ∅ ∅.

(** A default-constructed context, as [g_ctx_map[thd]] creates it. *)
Definition fresh_context : InceptionContext :=
  Build_InceptionContext false "" "" "" 3306 false false false
    CHECK false true false 0 [] MYSQL_DB 8 0 false 0 0 (-1)
    None false "" [] 1 [] "" [] ∅ ∅ ∅.

End Context.


(** ** Global knobs (inception_sysvars.h) and library calls *)

Module Sysvars.

(** The system variables the modelled code reads; a [char *] knob is
    [None] when it is the null pointer. *)
Record t : Type := Build_Sysvars {
  opt_inception_user : option string;
  opt_inception_password : option string;
  opt_inception_password_encrypt_key : option string;
  opt_check_drop_table : Z;
  opt_check_drop_database : Z;
  opt_check_merge_alter_table : Z;
  opt_exec_check_read_only : bool;
  opt_exec_max_threads_running : Z;
  opt_exec_max_replication_delay : Z
}.

(** The two calls [decrypt_password] makes into the server's libraries:
    [base64_decode] ([None] is a negative length) and [my_aes_decrypt]
    with AES-128-ECB under the given key ([None] is a negative length). *)
Record Crypto : Type := Build_Crypto {
  base64_decode : string -> option string;
  my_aes_decrypt : string -> string -> option string
}.

End Sysvars.

(** ** The marker parser (inception_parse.cc) *)

Module Parse.
Import CStr Context.

Fixpoint skip_whitespace_upto (n : nat) (q : string) (p : nat) : nat :=
  match n with
  | O => p
  | S n' => if is_blank (char_at q p) then skip_whitespace_upto n' q (S p)
            else p
  end.

(** [skip_whitespace(p, end)]: the loop runs while [p < end]. *)
Definition skip_whitespace (q : string) (p end_ : nat) : nat :=
  skip_whitespace_upto (end_ - p) q p.

Fixpoint find_ci_upto (k : nat) (q : string) (i : nat) (needle : string)
  : option nat :=
  match k with
  | O => None
  | S k' =>
      if strncasecmp (String.length needle) (cstr q i) needle then Some i
      else find_ci_upto k' q (S i) needle
  end.

(** [find_ci(q + h, haystack_len, needle)]: offset of the first match. *)
Definition find_ci (q : string) (h haystack_len : nat) (needle : string)
  : option nat :=
  let needle_len := String.length needle in
  if (haystack_len <? needle_len)%nat then None
  else find_ci_upto (haystack_len - needle_len + 1) q h needle.

(** Length of the comment that starts at [p], closing included; 0 if
    there is none. *)
Definition first_comment_len (q : string) (p end_ : nat) : nat :=
  if (end_ <? p + 2)%nat || negb (Ascii.eqb (char_at q p) "/")
     || negb (Ascii.eqb (char_at q (p + 1)) "*")
  then O
  else match find_ci q (p + 2) (end_ - p - 2) "*/" with
       | None => O
       | Some close => (close + 2 - p)%nat
       end.

Definition has_marker (q : string) (marker : string) : bool :=
  let length := String.length q in
  if (length <? 24)%nat then false
  else
    let p := skip_whitespace q 0 length in
    let clen := first_comment_len q p length in
    if (clen =? 0)%nat then false
    else match find_ci q p clen marker with
         | Some _ => true
         | None => false
         end.

Definition is_inception_start (q : string) : bool :=
  has_marker q "inception_magic_start".

Definition is_inception_commit (q : string) : bool :=
  has_marker q "inception_magic_commit".

(** The loop of the [slave-hosts] option over ["h1:p1,h2:p2"]; every
    round moves [pos] past one comma. *)
Fixpoint parse_slave_hosts (fuel : nat) (v : string) (pos : nat)
    (acc : list (string * Z)) : list (string * Z) :=
  match fuel with
  | O => acc
  | S fuel' =>
      if (pos <? String.length v)%nat then
        let comma := match find_char v "," pos with
                     | Some c => c
                     | None => String.length v
                     end in
        let entry := String.substring pos (comma - pos) v in
        let acc' :=
          match rfind_char entry ":" with
          | Some colon =>
              let h := String.substring 0 colon entry in
              let p := to_uint (strtoul (cstr entry (colon + 1))) in
              if negb (String.eqb h "") && (0 <? p) then acc ++ [(h, p)]
              else acc
          | None => acc
          end in
        parse_slave_hosts fuel' v (comma + 1) acc'
      else acc
  end.

(** [parse_option]: [key] and [val] are offsets into the query buffer. *)
Definition parse_option (q : string) (key key_len val val_len : nat)
    (ctx : InceptionContext) : InceptionContext :=
  let is_key (name : string) : bool :=
    (key_len =? String.length name)%nat
    && strncasecmp key_len (cstr q key) name in
  let is_one : bool :=
    (0 <? val_len)%nat && Ascii.eqb (char_at q val) "1" in
  let text := String.substring val val_len q in
  if is_key "host" then set_explicit_host true (set_host text ctx)
  else if is_key "user" then set_explicit_user true (set_user text ctx)
  else if is_key "password" then set_password text ctx
  else if is_key "port" then
    set_explicit_port true (set_port (to_uint (strtoul (cstr q val))) ctx)
  else if is_key "enable-execute" then
    (if is_one then set_mode EXECUTE ctx else ctx)
  else if is_key "enable-check" then
    (if is_one then set_mode CHECK ctx else ctx)
  else if is_key "enable-split" then
    (if is_one then set_mode SPLIT ctx else ctx)
  else if is_key "enable-query-tree" then
    (if is_one then set_mode QUERY_TREE ctx else ctx)
  else if is_key "enable-force" then set_force is_one ctx
  else if is_key "enable-remote-backup" then set_backup is_one ctx
  else if is_key "enable-ignore-warnings" then set_ignore_warnings is_one ctx
  else if is_key "sleep" then set_sleep_ms (strtoul (cstr q val)) ctx
  else if is_key "slave-hosts" || is_key "slave_hosts" then
    set_slave_hosts (parse_slave_hosts (String.length text) text 0 []) ctx
  else ctx.

(** [decrypt_password]: the input comes back unchanged unless it has the
    ["AES:"] prefix, a key is configured, and both decoding steps give a
    positive length. *)
Definition decrypt_password (sv : Sysvars.t) (cr : Sysvars.Crypto)
    (encrypted : string) : string :=
  if (String.length encrypted <=? 4)%nat
     || negb (starts_with "AES:" encrypted)
  then encrypted
  else match Sysvars.opt_inception_password_encrypt_key sv with
       | None => encrypted
       | Some key =>
           if String.eqb key "" then encrypted
           else match Sysvars.base64_decode cr (cstr encrypted 4) with
                | None => encrypted
                | Some decoded =>
                    if String.eqb decoded "" then encrypted
                    else match Sysvars.my_aes_decrypt cr decoded key with
                         | None => encrypted
                         | Some plain =>
                             if String.eqb plain "" then encrypted
                             else plain
                         end
                end
       end.

(** The tokenizer loop of [parse_inception_start]: one [;]-separated
    token per round, [p] moving past its semicolon. *)
Fixpoint parse_tokens (fuel : nat) (q : string) (p comment_end : nat)
    (ctx : InceptionContext) : InceptionContext :=
  match fuel with
  | O => ctx
  | S fuel' =>
      if (p <? comment_end)%nat then
        let p1 := skip_whitespace q p comment_end in
        if (comment_end <=? p1)%nat then ctx
        else
          let semi := match memchr q p1 ";" (comment_end - p1) with
                      | Some s => s
                      | None => comment_end
                      end in
          let token := p1 in
          let token_len := (semi - token)%nat in
          let p2 := (semi + 1)%nat in
          let dashed :=
            (2 <=? token_len)%nat && Ascii.eqb (char_at q token) "-"
            && Ascii.eqb (char_at q (token + 1)) "-" in
          let token := if dashed then (token + 2)%nat else token in
          let token_len := if dashed then (token_len - 2)%nat
                           else token_len in
          if (20 <=? token_len)%nat
             && strncasecmp 21 (cstr q token) "inception_magic_start"
          then parse_tokens fuel' q p2 comment_end ctx
          else
            match memchr q token "=" token_len with
            | Some eq =>
                let key_len := (eq - token)%nat in
                parse_tokens fuel' q p2 comment_end
                  (parse_option q token key_len (eq + 1)
                     (token_len - key_len - 1) ctx)
            | None => parse_tokens fuel' q p2 comment_end ctx
            end
      else ctx
  end.

(** The tail of [parse_inception_start] on credentials: the configured
    defaults stand in for an empty user or password, and a password is
    decrypted when it is wrapped. *)
Definition global_credentials (sv : Sysvars.t) (cr : Sysvars.Crypto)
    (ctx : InceptionContext) : InceptionContext :=
  let ctx :=
    match Sysvars.opt_inception_user sv with
    | Some u => if String.eqb (user ctx) "" && negb (String.eqb u "")
                then set_user u ctx else ctx
    | None => ctx
    end in
  let ctx :=
    match Sysvars.opt_inception_password sv with
    | Some pw => if String.eqb (password ctx) "" && negb (String.eqb pw "")
                 then set_password pw ctx else ctx
    | None => ctx
    end in
  if negb (String.eqb (password ctx) "")
  then set_password (decrypt_password sv cr (password ctx)) ctx
  else ctx.

(** [parse_inception_start]: the flag is [true] on error.  The tokenizer
    gets one round per byte of the comment body, which is all it can use
    (lemma [parse_tokens_fuel] below). *)
Definition parse_inception_start (sv : Sysvars.t) (cr : Sysvars.Crypto)
    (q : string) (ctx : InceptionContext) : bool * InceptionContext :=
  let ctx := reset ctx in
  let end_ := String.length q in
  let p := skip_whitespace q 0 end_ in
  if (end_ <=? p + 2)%nat || negb (Ascii.eqb (char_at q p) "/")
     || negb (Ascii.eqb (char_at q (p + 1)) "*")
  then (true, ctx)
  else
    let p := (p + 2)%nat in
    let comment_end := match find_ci q p (end_ - p) "*/" with
                       | Some c => c
                       | None => end_
                       end in
    let ctx := parse_tokens (comment_end - p) q p comment_end ctx in
    let ctx := global_credentials sv cr ctx in
    if explicit_port ctx && ((port ctx =? 0) || (65535 <? port ctx))
    then (true, ctx)
    else (false, set_active true ctx).

End Parse.


(** ** What the gateway reads of the server's THD and LEX *)

Module Server.
Import Context.

Record TABLE_LIST : Type := Build_TABLE_LIST {
  tl_db : option string;
  tl_table_name : option string
}.

(** The operation flags of [Alter_info] that the gateway names. *)
Inductive AlterFlag : Type :=
| ALTER_ADD_COLUMN | ALTER_DROP_COLUMN | ALTER_CHANGE_COLUMN
| ALTER_CHANGE_COLUMN_DEFAULT | ALTER_COLUMN_ORDER | ALTER_ADD_INDEX
| ALTER_DROP_INDEX | ALTER_RENAME_INDEX | ALTER_INDEX_VISIBILITY
| ALTER_RENAME | ALTER_ORDER | ALTER_OPTIONS | ALTER_KEYS_ONOFF
| ALTER_RECREATE | ALTER_ADD_PARTITION | ALTER_DROP_PARTITION
| ALTER_COALESCE_PARTITION | ALTER_REORGANIZE_PARTITION
| ALTER_EXCHANGE_PARTITION | ALTER_TRUNCATE_PARTITION
| ALTER_REMOVE_PARTITIONING | ALTER_DISCARD_TABLESPACE
| ALTER_IMPORT_TABLESPACE | ALTER_COLUMN_VISIBILITY.

#[global] Instance AlterFlag_eq_dec : EqDecision AlterFlag.
Proof. solve_decision. Defined.

(** The numeric values of the server's flag constants (sql_alter.h and
    handler.h), which the gateway only uses by name. *)
Record FlagValues : Type := Build_FlagValues {
  alter_bit : AlterFlag -> Z;
  HA_CREATE_USED_ENGINE : Z
}.

Inductive drop_type : Type := DROP_COLUMN_T | DROP_KEY_T | DROP_OTHER_T.

Record Alter_drop : Type := Build_Alter_drop {
  drop_kind : drop_type;
  drop_name : string
}.

(** [query_tables] is the first table of the statement, which the
    gateway reads both as [lex->query_tables] and as the head of the query
    block's table list. *)
Record LEX : Type := Build_LEX {
  lex_sql_command : enum_sql_command;
  query_tables : option TABLE_LIST;          (* head of the table list *)
  query_block_db : option string;            (* target of USE *)
  lex_name : option string;                  (* lex->name.str *)
  alter_flags : Z;                           (* alter_info->flags *)
  create_list : list string;                 (* column names, in order *)
  drop_list : list Alter_drop;
  create_info_used_fields : option Z         (* None: no create_info *)
}.

Record THD : Type := Build_THD {
  thd_query : string;
  thd_db : option string;
  thd_thread_id : Z;
  lex : LEX
}.

Definition thd_eta (r : THD) : THD :=
  Build_THD (thd_query r) (thd_db r) (thd_thread_id r) (lex r).

Definition set_db := ltac:(record_setter thd_eta thd_db).

(** A statement with no tables, no names and no ALTER information. *)
Definition plain_lex (cmd : enum_sql_command) : LEX :=
  Build_LEX cmd None None None 0 [] [] None.

End Server.

(** ** The remote target as seen during audit and execution *)

Module Remote.
Import Context.

Inductive connect_result : Type :=
| InitFailed
| ConnectFailed (err : string)
| Connected (m : MYSQL).

(** One row of SHOW WARNINGS: level, code, message. *)
Definition warning_row : Type := (string * string * string)%type.

Inductive query_result : Type :=
| QueryFailed (err : string)
| QueryOk (raw_affected_rows : Z) (elapsed : string)
          (warnings : list warning_row).

Inductive read_only_result : Type :=
| ReadOnlyFailed (err : string)
| ReadOnlyValue (v : bool).

(** Scripted answers of the world outside the session.  The execution
    answers are indexed by the 1-based position of the statement.
    [kill_arrives k] tells whether another session's [inception kill]
    sets the flag before the [k]-th look at it (0: the look on entry).
    [wait_stats k] is what the wait-for-ready polling of statement [k]
    leaves in the two cached statistics once the target is ready.
    [tree_json q] is the document the query-tree extractor builds for the
    statement [q], and [tree_needs_remote q] whether it asks for the
    remote handle to expand a star. *)
Record Env : Type := Build_Env {
  audit_connect : connect_result;
  remote_db_exists : string -> bool;
  remote_table_exists : string -> string -> bool;
  remote_column_exists : string -> string -> string -> bool;
  remote_table_rows : string -> string -> Z;
  exec_connect : connect_result;
  connect_slave : string -> Z -> bool;
  kill_arrives : nat -> bool;
  read_only_query : nat -> read_only_result;
  wait_stats : nat -> option Z * option Z;
  exec_query : nat -> query_result;
  now_unix : nat -> Z;
  tree_json : string -> string;
  tree_needs_remote : string -> bool
}.

End Remote.


(** ** The audit engine: batch schema and ALTER prediction
       (inception_audit.cc)

    Modelled: the remote handle, the batch schema ([batch_tables]), the
    altered set, the diagnostics that depend on them, the DROP TABLE rule
    and the ALTER prediction.  The rules that only inspect the AST and
    append to the statement's message are left out; by [report] they can
    only add lines and raise [errlevel]. *)

Module Audit.
Import CStr Context Server Remote.

(** [get_remote_conn]: connects lazily, once per session. *)
Definition get_remote_conn (env : Env) (ctx : InceptionContext)
  : option MYSQL * InceptionContext :=
  match remote_conn ctx with
  | Some m => (Some m, ctx)
  | None =>
      if remote_conn_failed ctx then (None, ctx)
      else match audit_connect env with
           | InitFailed =>
               (None, set_remote_conn_error "mysql_init() failed"
                        (set_remote_conn_failed true ctx))
           | ConnectFailed err =>
               (None, set_remote_conn_failed true
                        (set_remote_conn_error err ctx))
           | Connected m => (Some m, set_remote_conn (Some m) ctx)
           end
  end.

(** ["db.table"]. *)
Definition batch_table_key (db table_name : string) : string :=
  db +:+ "." +:+ table_name.

Definition in_batch_tables (ctx : InceptionContext) (key : string) : bool :=
  bool_decide (is_Some (batch_tables ctx !! key)).

Definition batch_column_exists (ctx : InceptionContext)
    (db table_name col_name : string) : bool :=
  match batch_tables ctx !! batch_table_key db table_name with
  | None => false
  | Some cols => bool_decide (string_tolower col_name ∈ cols)
  end.

Definition or_else {A : Type} (a b : option A) : option A :=
  match a with
  | Some _ => a
  | None => b
  end.

(** The table a CREATE TABLE names: it needs a table name and a database,
    the statement's own or the session's. *)
Definition create_target (thd : THD) : option (string * string) :=
  match query_tables (lex thd) with
  | Some tbl =>
      match tl_table_name tbl, or_else (tl_db tbl) (thd_db thd) with
      | Some tn, Some db => Some (db, tn)
      | _, _ => None
      end
  | None => None
  end.

(** [audit_create_table]: the existence check at its head and the
    tracking block at its end. *)
Definition audit_create_table (env : Env) (thd : THD)
    (node : SqlCacheNode) (ctx : InceptionContext)
  : SqlCacheNode * InceptionContext :=
  let '(node, ctx) :=
    match create_target thd with
    | Some (db, tn) =>
        if in_batch_tables ctx (batch_table_key db tn) then
          (append_error ("Table '" +:+ db +:+ "." +:+ tn +:+
               "' already exists (created earlier in this batch).") node,
           ctx)
        else
          let '(remote, ctx) := get_remote_conn env ctx in
          match remote with
          | Some _ =>
              if remote_table_exists env db tn then
                (append_error ("Table '" +:+ db +:+ "." +:+ tn +:+
                     "' already exists on remote server.") node, ctx)
              else (node, ctx)
          | None => (node, ctx)
          end
    | None => (node, ctx)
    end in
  match create_target thd with
  | Some (db, tn) =>
      let cols : gset string :=
        list_to_set (map string_tolower (create_list (lex thd))) in
      (node,
       set_batch_tables (<[batch_table_key db tn := cols]> (batch_tables ctx))
         ctx)
  | None => (node, ctx)
  end.

Definition all_flags : list AlterFlag :=
  [ALTER_ADD_COLUMN; ALTER_DROP_COLUMN; ALTER_CHANGE_COLUMN;
   ALTER_CHANGE_COLUMN_DEFAULT; ALTER_COLUMN_ORDER; ALTER_ADD_INDEX;
   ALTER_DROP_INDEX; ALTER_RENAME_INDEX; ALTER_INDEX_VISIBILITY;
   ALTER_RENAME; ALTER_ORDER; ALTER_OPTIONS; ALTER_KEYS_ONOFF;
   ALTER_RECREATE; ALTER_ADD_PARTITION; ALTER_DROP_PARTITION;
   ALTER_COALESCE_PARTITION; ALTER_REORGANIZE_PARTITION;
   ALTER_EXCHANGE_PARTITION; ALTER_TRUNCATE_PARTITION;
   ALTER_REMOVE_PARTITIONING; ALTER_DISCARD_TABLESPACE;
   ALTER_IMPORT_TABLESPACE; ALTER_COLUMN_VISIBILITY].

Definition flag_name (f : AlterFlag) : string :=
  match f with
  | ALTER_ADD_COLUMN => "ADD_COLUMN"
  | ALTER_DROP_COLUMN => "DROP_COLUMN"
  | ALTER_CHANGE_COLUMN => "MODIFY_COLUMN"
  | ALTER_CHANGE_COLUMN_DEFAULT => "CHANGE_DEFAULT"
  | ALTER_COLUMN_ORDER => "COLUMN_ORDER"
  | ALTER_ADD_INDEX => "ADD_INDEX"
  | ALTER_DROP_INDEX => "DROP_INDEX"
  | ALTER_RENAME_INDEX => "RENAME_INDEX"
  | ALTER_INDEX_VISIBILITY => "INDEX_VISIBILITY"
  | ALTER_RENAME => "RENAME"
  | ALTER_ORDER => "ORDER"
  | ALTER_OPTIONS => "OPTIONS"
  | ALTER_KEYS_ONOFF => "KEYS_ONOFF"
  | ALTER_RECREATE => "FORCE"
  | ALTER_ADD_PARTITION => "ADD_PARTITION"
  | ALTER_DROP_PARTITION => "DROP_PARTITION"
  | ALTER_COALESCE_PARTITION => "COALESCE_PARTITION"
  | ALTER_REORGANIZE_PARTITION => "REORGANIZE_PARTITION"
  | ALTER_EXCHANGE_PARTITION => "EXCHANGE_PARTITION"
  | ALTER_TRUNCATE_PARTITION => "TRUNCATE_PARTITION"
  | ALTER_REMOVE_PARTITIONING => "REMOVE_PARTITIONING"
  | ALTER_DISCARD_TABLESPACE => "DISCARD_TABLESPACE"
  | ALTER_IMPORT_TABLESPACE => "IMPORT_TABLESPACE"
  | ALTER_COLUMN_VISIBILITY => "COLUMN_VISIBILITY"
  end.

(** [flags & mask] is not zero. *)
Definition test (flags mask : Z) : bool := negb (Z.land flags mask =? 0).

Definition has_flag (fv : FlagValues) (flags : Z) (f : AlterFlag) : bool :=
  test flags (alter_bit fv f).

(** [resolve_alter_sub_type]: the names of the flags that are set, in the
    order of the table, joined by commas. *)
Definition resolve_alter_sub_type (fv : FlagValues) (flags : Z) : string :=
  let result :=
    fold_left
      (fun (result : string) (f : AlterFlag) =>
         if has_flag fv flags f then
           (if String.eqb result "" then "" else result +:+ ",")
           +:+ flag_name f
         else result)
      all_flags "" in
  if String.eqb result "" then "OTHER" else result.

(** The lambda [raise] of [predict_alter_algorithm]. *)
Definition raise (level worst : Z) : Z :=
  if worst <? level then level else worst.

(** [if (flags & mask) raise(level);] as a step on the running worst. *)
Definition raise_if (flags mask level worst : Z) : Z :=
  if test flags mask then raise level worst else worst.

(** The level an OPTIONS clause asks for: COPY when the engine is among
    the fields the clause sets, INSTANT otherwise. *)
Definition options_level (fv : FlagValues) (l : LEX) : Z :=
  match create_info_used_fields l with
  | Some used => if test used (HA_CREATE_USED_ENGINE fv) then 2 else 0
  | None => 0
  end.

Notation "w |> step" := (step w)
  (at level 45, left associativity, only parsing).

(** [predict_alter_algorithm] up to its final [switch]: the worst level
    after all the flag tests, in the order of the source. *)
Definition predict_alter_level (fv : FlagValues) (l : LEX)
    (ctx : InceptionContext) : Z :=
  let flags := alter_flags l in
  let bit := alter_bit fv in
  let is_80 := 8 <=? db_version_major ctx in
  0
  |> raise_if flags (bit ALTER_ADD_COLUMN) (if is_80 then 0 else 1)
  |> raise_if flags (bit ALTER_DROP_COLUMN) 1
  |> raise_if flags (bit ALTER_CHANGE_COLUMN) 2
  |> raise_if flags (bit ALTER_CHANGE_COLUMN_DEFAULT) 0
  |> raise_if flags (bit ALTER_COLUMN_ORDER) 1
  |> raise_if flags (bit ALTER_ADD_INDEX) 1
  |> raise_if flags (bit ALTER_DROP_INDEX) 1
  |> raise_if flags (bit ALTER_RENAME_INDEX) 1
  |> raise_if flags (bit ALTER_INDEX_VISIBILITY) 1
  |> raise_if flags (bit ALTER_RENAME) 0
  |> raise_if flags (bit ALTER_ORDER) 2
  |> raise_if flags (bit ALTER_OPTIONS) (options_level fv l)
  |> raise_if flags (bit ALTER_KEYS_ONOFF) 1
  |> raise_if flags (bit ALTER_RECREATE) 2
  |> raise_if flags
       (Z.lor (bit ALTER_ADD_PARTITION)
       (Z.lor (bit ALTER_DROP_PARTITION)
       (Z.lor (bit ALTER_COALESCE_PARTITION)
       (Z.lor (bit ALTER_REORGANIZE_PARTITION)
       (Z.lor (bit ALTER_EXCHANGE_PARTITION)
       (Z.lor (bit ALTER_TRUNCATE_PARTITION)
              (bit ALTER_REMOVE_PARTITIONING))))))) 2
  |> raise_if flags
       (Z.lor (bit ALTER_DISCARD_TABLESPACE) (bit ALTER_IMPORT_TABLESPACE)) 1
  |> raise_if flags (bit ALTER_COLUMN_VISIBILITY) 0.

Definition algorithm_label (worst : Z) : string :=
  if worst =? 0 then "INSTANT"
  else if worst =? 1 then "INPLACE"
  else "COPY".

Definition predict_alter_algorithm (fv : FlagValues) (l : LEX)
    (ctx : InceptionContext) : string :=
  algorithm_label (predict_alter_level fv l ctx).

(** The database and the table name an ALTER works on. *)
Definition alter_db (thd : THD) : option string :=
  or_else (match query_tables (lex thd) with
           | Some tbl => tl_db tbl
           | None => None
           end) (thd_db thd).

Definition alter_table_name (thd : THD) : option string :=
  match query_tables (lex thd) with
  | Some tbl => tl_table_name tbl
  | None => None
  end.

(** [batch_tables[bkey].insert(col)] and [.erase(col)]. *)
Definition batch_add_column (bkey col : string) (ctx : InceptionContext)
  : InceptionContext :=
  let cols := default ∅ (batch_tables ctx !! bkey) in
  set_batch_tables (<[bkey := cols ∪ {[col]}]> (batch_tables ctx)) ctx.

Definition batch_erase_column (bkey col : string) (ctx : InceptionContext)
  : InceptionContext :=
  let cols := default ∅ (batch_tables ctx !! bkey) in
  set_batch_tables (<[bkey := cols ∖ {[col]}]> (batch_tables ctx)) ctx.

(** One round of the ADD COLUMN loop. *)
Definition alter_add_column (env : Env) (in_batch : bool)
    (remote : option MYSQL) (db tn : string)
    (st : SqlCacheNode * InceptionContext) (field_name : string)
  : SqlCacheNode * InceptionContext :=
  let '(node, ctx) := st in
  if in_batch then
    let node :=
      if batch_column_exists ctx db tn field_name then
        append_error ("Column '" +:+ field_name +:+ "' already exists in '"
                      +:+ db +:+ "." +:+ tn +:+ "'.") node
      else node in
    (node,
     batch_add_column (batch_table_key db tn) (string_tolower field_name)
       ctx)
  else if bool_decide (is_Some remote)
          && remote_column_exists env db tn field_name then
    (append_error ("Column '" +:+ field_name +:+ "' already exists in '"
                   +:+ db +:+ "." +:+ tn +:+ "' on remote server.") node,
     ctx)
  else (node, ctx).

(** One round of the DROP COLUMN loop. *)
Definition alter_drop_column (env : Env) (in_batch : bool)
    (remote : option MYSQL) (db tn : string)
    (st : SqlCacheNode * InceptionContext) (drop : Alter_drop)
  : SqlCacheNode * InceptionContext :=
  let '(node, ctx) := st in
  match drop_kind drop with
  | DROP_COLUMN_T =>
      let name := drop_name drop in
      let node :=
        append_warning ("Dropping column '" +:+ name +:+
                        "' is a high-risk operation.") node in
      if in_batch then
        if negb (batch_column_exists ctx db tn name) then
          (append_error ("Column '" +:+ name +:+ "' does not exist in '"
                         +:+ db +:+ "." +:+ tn +:+ "'.") node, ctx)
        else
          (node,
           batch_erase_column (batch_table_key db tn) (string_tolower name)
             ctx)
      else if bool_decide (is_Some remote)
              && negb (remote_column_exists env db tn name) then
        (append_error ("Column '" +:+ name +:+ "' does not exist in '"
                       +:+ db +:+ "." +:+ tn +:+ "' on remote server.") node,
         ctx)
      else (node, ctx)
  | _ => (node, ctx)
  end.

(** One round of the MODIFY / CHANGE COLUMN loop (existence only). *)
Definition alter_change_column (env : Env) (in_batch : bool)
    (remote : option MYSQL) (db tn : string)
    (st : SqlCacheNode * InceptionContext) (field_name : string)
  : SqlCacheNode * InceptionContext :=
  let '(node, ctx) := st in
  if in_batch then
    if negb (batch_column_exists ctx db tn field_name) then
      (append_error ("Column '" +:+ field_name +:+ "' does not exist in '"
                     +:+ db +:+ "." +:+ tn +:+ "'.") node, ctx)
    else (node, ctx)
  else if bool_decide (is_Some remote)
          && negb (remote_column_exists env db tn field_name) then
    (append_error ("Column '" +:+ field_name +:+ "' does not exist in '"
                   +:+ db +:+ "." +:+ tn +:+ "' on remote server.") node,
     ctx)
  else (node, ctx).

Definition audit_alter_table (sv : Sysvars.t) (fv : FlagValues) (env : Env)
    (thd : THD) (node : SqlCacheNode) (ctx : InceptionContext)
  : SqlCacheNode * InceptionContext :=
  let l := lex thd in
  let flags := alter_flags l in
  let named :=
    bool_decide (is_Some (alter_db thd) ∧ is_Some (alter_table_name thd)) in
  let db := default "" (alter_db thd) in
  let tn := default "" (alter_table_name thd) in
  let node := set_sub_type (resolve_alter_sub_type fv flags) node in
  let '(remote, ctx) :=
    if named then get_remote_conn env ctx else (None, ctx) in
  let key := batch_table_key db tn in
  let in_batch := named && in_batch_tables ctx key in
  let probe := negb in_batch && bool_decide (is_Some remote) in
  let node :=
    if probe && negb (remote_table_exists env db tn) then
      append_error ("Table '" +:+ db +:+ "." +:+ tn +:+
                    "' does not exist on remote server.") node
    else node in
  let node :=
    if probe && (0 <=? remote_table_rows env db tn) then
      set_affected_rows (remote_table_rows env db tn) node
    else node in
  let st := (node, ctx) in
  let st :=
    if has_flag fv flags ALTER_ADD_COLUMN then
      fold_left (alter_add_column env in_batch remote db tn)
        (create_list l) st
    else st in
  let st :=
    if has_flag fv flags ALTER_DROP_COLUMN then
      fold_left (alter_drop_column env in_batch remote db tn)
        (drop_list l) st
    else st in
  let st :=
    if has_flag fv flags ALTER_CHANGE_COLUMN then
      fold_left (alter_change_column env in_batch remote db tn)
        (create_list l) st
    else st in
  let '(node, ctx) := st in
  let node :=
    if has_flag fv flags ALTER_RENAME then
      append_warning ("Renaming table '" +:+ db +:+ "." +:+ tn +:+
                      "' is a high-risk operation.") node
    else node in
  let '(node, ctx) :=
    if (0 <? Sysvars.opt_check_merge_alter_table sv) && named then
      let node :=
        if bool_decide (key ∈ altered_tables ctx) then
          report (Sysvars.opt_check_merge_alter_table sv)
            ("Table '" +:+ db +:+ "." +:+ tn +:+
             "' has been altered before in this session; " +:+
             "consider merging into a single ALTER TABLE statement.")
            node
        else node in
      (node, set_altered_tables (altered_tables ctx ∪ {[key]}) ctx)
    else (node, ctx) in
  (set_ddl_algorithm (predict_alter_algorithm fv l ctx) node, ctx).

Definition audit_create_db (env : Env) (thd : THD) (node : SqlCacheNode)
    (ctx : InceptionContext) : SqlCacheNode * InceptionContext :=
  let node := set_node_db_name (default "" (lex_name (lex thd))) node in
  match lex_name (lex thd) with
  | Some db =>
      let '(remote, ctx) := get_remote_conn env ctx in
      if bool_decide (is_Some remote) && remote_db_exists env db then
        (append_error ("Database '" +:+ db +:+
                       "' already exists on remote server.") node, ctx)
      else (node, ctx)
  | None => (node, ctx)
  end.

Definition audit_drop_db (sv : Sysvars.t) (env : Env) (thd : THD)
    (node : SqlCacheNode) (ctx : InceptionContext)
  : SqlCacheNode * InceptionContext :=
  let name := lex_name (lex thd) in
  let node := set_node_db_name (default "" name) node in
  let node :=
    if 0 <? Sysvars.opt_check_drop_database sv then
      report (Sysvars.opt_check_drop_database sv)
        ("DROP DATABASE will permanently remove database '" +:+
         default "(unknown)" name +:+ "'.") node
    else node in
  match name with
  | Some db =>
      let '(remote, ctx) := get_remote_conn env ctx in
      let node :=
        if bool_decide (is_Some remote) && negb (remote_db_exists env db)
        then append_warning ("Database '" +:+ db +:+
                             "' does not exist on remote server.") node
        else node in
      (node, set_batch_databases (batch_databases ctx ∪ {[db]}) ctx)
  | None => (node, ctx)
  end.

(** [audit_drop_table(THD *, SqlCacheNode *node)]: it is not handed the
    context. *)
Definition audit_drop_table (sv : Sysvars.t) (node : SqlCacheNode)
  : SqlCacheNode :=
  if 0 <? Sysvars.opt_check_drop_table sv then
    report (Sysvars.opt_check_drop_table sv)
      "DROP TABLE will permanently remove the table." node
  else node.

(** [audit_statement]: the common head, then the handler of the command.
    The handlers of INSERT, UPDATE, DELETE, SELECT and TRUNCATE read the
    batch schema and the remote but write only to the node; USE and every
    other command have no handler. *)
Definition audit_statement (sv : Sysvars.t) (fv : FlagValues) (env : Env)
    (thd : THD) (node : SqlCacheNode) (ctx : InceptionContext)
  : SqlCacheNode * InceptionContext :=
  let node := set_stage_status "Audit completed"
                (set_stage STAGE_CHECKED node) in
  let ctx :=
    if negb (bool_decide (is_Some (remote_conn ctx)))
       && negb (remote_conn_failed ctx)
    then snd (get_remote_conn env ctx) else ctx in
  let node :=
    if remote_conn_failed ctx then
      append_error ("Cannot connect to remote server " +:+ host ctx +:+ ":"
                    +:+ pretty (port ctx) +:+ " (" +:+ remote_conn_error ctx
                    +:+ ").") node
    else node in
  let node :=
    match query_tables (lex thd) with
    | Some first_table =>
        let node := match tl_db first_table with
                    | Some d => set_node_db_name d node
                    | None => node
                    end in
        match tl_table_name first_table with
        | Some t => set_node_table_name t node
        | None => node
        end
    | None => node
    end in
  match lex_sql_command (lex thd) with
  | SQLCOM_CREATE_DB => audit_create_db env thd node ctx
  | SQLCOM_DROP_DB => audit_drop_db sv env thd node ctx
  | SQLCOM_CREATE_TABLE => audit_create_table env thd node ctx
  | SQLCOM_ALTER_TABLE => audit_alter_table sv fv env thd node ctx
  | SQLCOM_DROP_TABLE => (audit_drop_table sv node, ctx)
  | _ => (node, ctx)
  end.

End Audit.


(** ** The remote execution engine (inception_exec.cc) *)

Module Exec.
Import CStr Context Server Remote.

(** [strip_inception_comment] of this file: only a leading comment that
    holds the start marker (in this exact spelling) is removed. *)
Definition strip_inception_comment (sql : string) : string :=
  let end_ := String.length sql in
  let p := Parse.skip_whitespace sql 0 end_ in
  if (p + 1 <? end_)%nat && Ascii.eqb (char_at sql p) "/"
     && Ascii.eqb (char_at sql (p + 1)) "*"
  then
    match find (cstr sql (p + 2)) "*/" with
    | Some off =>
        let close := (p + 2 + off)%nat in
        let comment := String.substring p (close + 2 - p) sql in
        match find comment "inception_magic_start" with
        | Some _ =>
            let p := Parse.skip_whitespace sql (close + 2) end_ in
            if (p <? end_)%nat then String.substring p (end_ - p) sql
            else ""
        | None => sql
        end
    | None => sql
    end
  else sql.

(** [connect_remote]: the handle, or the text of the error. *)
Definition connect_remote (env : Env) (ctx : InceptionContext)
  : MYSQL + string :=
  match exec_connect env with
  | InitFailed => inr "mysql_init() failed: out of memory"
  | ConnectFailed err =>
      let h := if String.eqb (host ctx) "" then "127.0.0.1" else host ctx in
      inr (String.substring 0 511
             ("Cannot connect to remote " +:+ h +:+ ":" +:+ pretty (port ctx)
              +:+ ": " +:+ err))
  | Connected m => inl m
  end.

(** [collect_remote_warnings] over the rows SHOW WARNINGS gave. *)
Definition collect_remote_warnings (rows : list warning_row)
    (node : SqlCacheNode) : SqlCacheNode :=
  fold_left
    (fun (node : SqlCacheNode) (row : warning_row) =>
       let '(level, wcode, msg) := row in
       let text := "Remote " +:+ level +:+ " (code " +:+ wcode +:+ "): "
                   +:+ msg in
       if strcasecmp level "Error" then append_error text node
       else append_warning text node)
    rows node.

(** [static_cast<int64_t>] of a 64-bit unsigned value. *)
Definition to_int64 (x : Z) : Z :=
  if 2 ^ 63 <=? x then x - 2 ^ 64 else x.

(** [execute_one] for the statement at position [idx]: the error flag,
    the node, and the text sent to the remote if any was. *)
Definition execute_one (env : Env) (idx : nat) (node : SqlCacheNode)
  : bool * SqlCacheNode * option string :=
  let exec_sql := strip_inception_comment (sql_text node) in
  if String.eqb exec_sql "" then
    (false,
     set_stage_status "Execute completed" (set_stage STAGE_EXECUTED node),
     None)
  else
    match exec_query env idx with
    | QueryFailed err =>
        (true,
         set_stage_status "Execute failed"
           (set_stage STAGE_EXECUTED
              (append_error ("Execute failed: " +:+ err) node)),
         Some exec_sql)
    | QueryOk raw_rows elapsed warnings =>
        let rows := if raw_rows =? 2 ^ 64 - 1 then 0
                    else to_int64 raw_rows in
        let node := set_affected_rows rows node in
        let node := set_execute_time elapsed node in
        let node := set_stage STAGE_EXECUTED node in
        let node := set_stage_status "Execute completed" node in
        (false, collect_remote_warnings warnings node, Some exec_sql)
    end.

(** The effect of [wait_for_remote_ready] once it returns: the two cached
    statistics.  A target that never gets ready keeps the engine in that
    loop, and nothing after it happens. *)
Definition wait_for_remote_ready (env : Env) (idx : nat)
    (ctx : InceptionContext) : InceptionContext :=
  let '(running, delay) := wait_stats env idx in
  let ctx := match running with
             | Some r => set_last_threads_running r ctx
             | None => ctx
             end in
  match delay with
  | Some d => set_last_repl_delay d ctx
  | None => ctx
  end.

Definition pre_check_failed (text : string) (node : SqlCacheNode)
  : SqlCacheNode :=
  set_stage_status "Pre-check failed"
    (set_stage STAGE_CHECKED (append_error text node)).

(** The throttle part of [pre_execute_checks]. *)
Definition wait_if_throttled (sv : Sysvars.t) (env : Env)
    (slave_conns : list (string * Z)) (idx : nat) (ctx : InceptionContext)
  : InceptionContext :=
  if (0 <? Sysvars.opt_exec_max_threads_running sv)
     || (negb (bool_decide (slave_conns = []))
         && (0 <? Sysvars.opt_exec_max_replication_delay sv))
  then wait_for_remote_ready env idx ctx
  else ctx.

(** [pre_execute_checks]: [true] blocks the statement. *)
Definition pre_execute_checks (sv : Sysvars.t) (env : Env)
    (slave_conns : list (string * Z)) (idx : nat) (node : SqlCacheNode)
    (ctx : InceptionContext) : bool * SqlCacheNode * InceptionContext :=
  if Sysvars.opt_exec_check_read_only sv then
    match read_only_query env idx with
    | ReadOnlyFailed err =>
        (true,
         pre_check_failed
           (String.substring 0 511
              ("Failed to query remote read_only status: " +:+ err)) node,
         ctx)
    | ReadOnlyValue true =>
        (true,
         pre_check_failed
           "Remote is read-only (read_only=ON), execution blocked by pre-check."
           node,
         ctx)
    | ReadOnlyValue false =>
        (false, node, wait_if_throttled sv env slave_conns idx ctx)
    end
  else (false, node, wait_if_throttled sv env slave_conns idx ctx).

(** The pre-scan loop: does some statement carry a finding that the
    session's options do not waive? *)
Fixpoint pre_scan (force_ ignore_warnings_ : bool)
    (nodes : list SqlCacheNode) : bool :=
  match nodes with
  | [] => false
  | node :: rest =>
      if (ERRLEVEL_ERROR <=? errlevel node) && negb force_ then true
      else if (ERRLEVEL_WARNING <=? errlevel node)
              && negb ignore_warnings_ then true
      else pre_scan force_ ignore_warnings_ rest
  end.

(** The state of the main loop. *)
Record LoopState : Type := Build_LoopState {
  ls_ctx : InceptionContext;      (* killed flag and cached statistics *)
  ls_has_error : bool;
  ls_stop_exec : bool;
  ls_done : list SqlCacheNode;    (* the nodes gone through, in order *)
  ls_sent : list (nat * string)   (* statements sent to the remote *)
}.

(** [ctx->killed.load()] at look [k]: a kill that arrived in between has
    set the flag. *)
Definition load_killed (env : Env) (k : nat) (ctx : InceptionContext)
  : InceptionContext :=
  if kill_arrives env k then set_killed true ctx else ctx.

Definition sequence_token (env : Env) (thd : THD) (idx : nat)
    (node : SqlCacheNode) : string :=
  "'" +:+ pretty (now_unix env idx) +:+ "_" +:+ pretty (thd_thread_id thd)
  +:+ "_" +:+ pretty (id node) +:+ "'".

(** One round of the main loop, for the node at position [idx].  The
    lines written to the log and the sleep between statements leave no
    trace in the state. *)
Definition exec_round (sv : Sysvars.t) (env : Env) (thd : THD)
    (slave_conns : list (string * Z)) (st : LoopState) (idx : nat)
    (node : SqlCacheNode) : LoopState :=
  let ctx := load_killed env idx (ls_ctx st) in
  if killed ctx then
    Build_LoopState ctx (ls_has_error st) (ls_stop_exec st)
      (ls_done st ++
       [set_stage_status "Killed by user" (set_stage STAGE_EXECUTED node)])
      (ls_sent st)
  else if ls_stop_exec st then
    Build_LoopState ctx (ls_has_error st) true
      (ls_done st ++
       [append_error "Skipped: previous statement had errors."
          (set_stage_status "Skipped due to prior error"
             (set_stage STAGE_SKIPPED node))])
      (ls_sent st)
  else
    let '(blocked, node, ctx) :=
      pre_execute_checks sv env slave_conns idx node ctx in
    if blocked then
      Build_LoopState ctx true true (ls_done st ++ [node]) (ls_sent st)
    else
      let '(failed, node, sent) := execute_one env idx node in
      let node :=
        if stage node =? STAGE_EXECUTED
        then set_sequence (sequence_token env thd idx node) node
        else node in
      Build_LoopState ctx
        (failed || ls_has_error st)
        (failed && negb (force ctx))
        (ls_done st ++ [node])
        (match sent with
         | Some text => ls_sent st ++ [(idx, text)]
         | None => ls_sent st
         end).

Fixpoint exec_loop (sv : Sysvars.t) (env : Env) (thd : THD)
    (slave_conns : list (string * Z)) (st : LoopState) (idx : nat)
    (nodes : list SqlCacheNode) : LoopState :=
  match nodes with
  | [] => st
  | node :: rest =>
      exec_loop sv env thd slave_conns
        (exec_round sv env thd slave_conns st (S idx) node) (S idx) rest
  end.

(** [execute_statements]: the error flag, the context, and the statements
    that were sent to the remote target. *)
Definition execute_statements (sv : Sysvars.t) (env : Env) (thd : THD)
    (ctx : InceptionContext) : bool * InceptionContext * list (nat * string) :=
  if bool_decide (cache_nodes ctx = []) then (false, ctx, [])
  else
    let ctx := load_killed env 0 ctx in
    if killed ctx then
      (true,
       set_cache_nodes
         (map (fun node => set_stage_status "Killed by user"
                             (set_stage STAGE_EXECUTED node))
            (cache_nodes ctx)) ctx,
       [])
    else
      match connect_remote env ctx with
      | inr conn_err =>
          (true,
           set_cache_nodes
             (map (fun node => set_stage_status "Execute failed"
                                 (set_stage STAGE_EXECUTED
                                    (append_error conn_err node)))
                (cache_nodes ctx)) ctx,
           [])
      | inl mysql =>
          let ctx := set_remote_exec_thread_id (thread_id mysql) ctx in
          if pre_scan (force ctx) (ignore_warnings ctx) (cache_nodes ctx)
          then (true, ctx, [])
          else
            let slave_conns :=
              if (0 <? Sysvars.opt_exec_max_replication_delay sv)
              then filter (fun sh => connect_slave env sh.1 sh.2 = true)
                     (slave_hosts ctx)
              else [] in
            let st :=
              exec_loop sv env thd slave_conns
                (Build_LoopState ctx false false [] []) O (cache_nodes ctx) in
            (ls_has_error st,
             set_remote_exec_thread_id 0
               (set_cache_nodes (ls_done st) (ls_ctx st)),
             ls_sent st)
      end.

End Exec.


(** ** The dispatcher (inception.cc) *)

Module Inception.
Import CStr Context Server Remote.

(** What the hooks send to the client or to the audit log. *)
Inductive Output : Type :=
| OutError (msg : string)
| OutOk
| OutResults (rows : list SqlCacheNode)
| OutSplitResults (rows : list SplitNode)
| OutTreeResults (rows : list QueryTreeNode)
| OutSessionLog (total errors : nat)
| OutAdminCommand.

Fixpoint find_close (n : nat) (q : string) (s : nat) : option nat :=
  match n with
  | O => None
  | S n' =>
      if Ascii.eqb (char_at q s) "*" && Ascii.eqb (char_at q (s + 1)) "/"
      then Some (s + 2)%nat
      else find_close n' q (S s)
  end.

(** [strip_inception_comment] of this file: any leading comment goes,
    with the blanks around it. *)
Definition strip_inception_comment (q : string) : string :=
  let end_ := String.length q in
  let p := Parse.skip_whitespace q 0 end_ in
  if (p + 2 <? end_)%nat && Ascii.eqb (char_at q p) "/"
     && Ascii.eqb (char_at q (p + 1)) "*"
  then
    match find_close (end_ - 1 - (p + 2)) q (p + 2) with
    | Some close =>
        let close := Parse.skip_whitespace q close end_ in
        if (close <? end_)%nat then String.substring close (end_ - close) q
        else ""
    | None => q
    end
  else q.

(** [while (j < text.size() && isdigit(text[j])) j++]. *)
Fixpoint skip_digits (n : nat) (text : string) (j : nat) : nat :=
  match n with
  | O => j
  | S n' => if isdigit (char_at text j) then skip_digits n' text (S j)
            else j
  end.

(** The loop of [parse_first_version] from index [i]; every round moves
    [i] forward. *)
Fixpoint parse_first_version_from (fuel : nat) (text : string) (i : nat)
  : option (Z * Z) :=
  match fuel with
  | O => None
  | S fuel' =>
      let size := String.length text in
      if (i <? size)%nat then
        if negb (isdigit (char_at text i)) then
          parse_first_version_from fuel' text (S i)
        else
          let j := skip_digits (size - i) text i in
          if (size <=? j)%nat || negb (Ascii.eqb (char_at text j) ".") then
            parse_first_version_from fuel' text j
          else
            let k := skip_digits (size - (j + 1)) text (j + 1) in
            if (k =? j + 1)%nat then parse_first_version_from fuel' text k
            else Some (to_uint (strtoul (cstr text i)),
                       to_uint (strtoul (cstr text (j + 1))))
      else None
  end.

(** [parse_first_version]: [Some (major, minor)] when it returns true. *)
Definition parse_first_version (text : string) : option (Z * Z) :=
  parse_first_version_from (String.length text) text 0.

Definition tidb_markers : list string :=
  ["TiDB-v"; "tidb-v"; "TiDB-"; "tidb-"].

Fixpoint parse_tidb_version_with (markers : list string)
    (server_info : string) : option (Z * Z) :=
  match markers with
  | [] => None
  | marker :: rest =>
      match find server_info marker with
      | None => parse_tidb_version_with rest server_info
      | Some pos =>
          match parse_first_version
                  (cstr server_info (pos + String.length marker)) with
          | Some v => Some v
          | None => parse_tidb_version_with rest server_info
          end
      end
  end.

Definition parse_tidb_version (server_info : string) : option (Z * Z) :=
  parse_tidb_version_with tidb_markers server_info.

Definition maybe_detect_remote_db_profile (env : Env)
    (ctx : InceptionContext) : InceptionContext :=
  let '(remote, ctx) := Audit.get_remote_conn env ctx in
  match remote with
  | None => ctx
  | Some m =>
      let server_info := default "" (server_version m) in
      let is_tidb :=
        bool_decide (is_Some (find server_info "TiDB"))
        || bool_decide (is_Some (find server_info "tidb")) in
      let ctx := set_db_type (if is_tidb then TIDB else MYSQL_DB) ctx in
      let parsed :=
        if is_tidb then
          match parse_tidb_version server_info with
          | Some v => Some v
          | None => parse_first_version server_info
          end
        else parse_first_version server_info in
      match parsed with
      | Some (major, minor) =>
          set_db_version_minor minor (set_db_version_major major ctx)
      | None => ctx
      end
  end.

(** [setup_inception_session]: [true] is a parse error, reported to the
    client. *)
Definition setup_inception_session (sv : Sysvars.t) (cr : Sysvars.Crypto)
    (env : Env) (thd : THD) (ctx : InceptionContext)
  : bool * InceptionContext * list Output :=
  let '(failed, ctx) :=
    Parse.parse_inception_start sv cr (thd_query thd) ctx in
  if failed then
    (true, ctx, [OutError "Failed to parse inception_magic_start comment"])
  else (false, maybe_detect_remote_db_profile env ctx, []).

Definition count_errors (nodes : list SqlCacheNode) : nat :=
  List.length (filter (fun n => ERRLEVEL_ERROR <= errlevel n) nodes).

(** [do_inception_commit]: what is sent, and the context after the final
    reset.  The rollback generator called after an execution is an empty
    skeleton. *)
Definition do_inception_commit (sv : Sysvars.t) (env : Env) (thd : THD)
    (ctx : InceptionContext) : InceptionContext * list Output :=
  if negb (active ctx) then
    (ctx,
     [OutError "inception_magic_commit without inception_magic_start"])
  else
    match mode ctx with
    | SPLIT => (reset ctx, [OutSplitResults (split_nodes ctx)])
    | QUERY_TREE => (reset ctx, [OutTreeResults (tree_nodes ctx)])
    | m =>
        let ctx :=
          match m with
          | EXECUTE => (Exec.execute_statements sv env thd ctx).1.2
          | _ => ctx
          end in
        (reset ctx,
         [OutResults (cache_nodes ctx);
          OutSessionLog (List.length (cache_nodes ctx))
            (count_errors (cache_nodes ctx))])
    end.

(** Blanks and semicolons at the end of an admin command do not count. *)
Fixpoint strip_trailing (n : nat) (q : string) (start : nat) : nat :=
  match n with
  | O => O
  | S n' =>
      let c := char_at q (start + n') in
      if is_blank c || Ascii.eqb c ";" then strip_trailing n' q start
      else n
  end.

(** [handle_inception_command]: whether the query is one of the
    [inception show|set|get|kill] commands; all four branches answer the
    client themselves.  What the command does to other sessions is
    outside this single-session model. *)
Definition handle_inception_command (thd : THD) : bool :=
  let q := thd_query thd in
  let start := Parse.skip_whitespace q 0 (String.length q) in
  let len := strip_trailing (String.length q - start) q start in
  let text := cstr q start in
  ((15 <=? len)%nat && strncasecmp 15 text "inception show ")
  || ((14 <=? len)%nat && strncasecmp 14 text "inception set ")
  || ((14 <=? len)%nat && strncasecmp 14 text "inception get ")
  || ((15 <=? len)%nat && strncasecmp 15 text "inception kill ").

(** [before_parse]: [true] when the query was fully handled. *)
Definition before_parse (sv : Sysvars.t) (cr : Sysvars.Crypto) (env : Env)
    (thd : THD) (ctx : InceptionContext)
  : bool * InceptionContext * list Output :=
  let q := thd_query thd in
  if Parse.is_inception_commit q then
    let '(ctx, out) := do_inception_commit sv env thd ctx in
    (true, ctx, out)
  else
    let '(failed, ctx, out) :=
      if Parse.is_inception_start q
      then setup_inception_session sv cr env thd ctx
      else (false, ctx, []) in
    if failed then (true, ctx, out)
    else if handle_inception_command thd
    then (true, ctx, out ++ [OutAdminCommand])
    else (false, ctx, out).

Definition is_ddl_command (cmd : enum_sql_command) : bool :=
  match cmd with
  | SQLCOM_CREATE_TABLE | SQLCOM_ALTER_TABLE | SQLCOM_DROP_TABLE
  | SQLCOM_RENAME_TABLE | SQLCOM_TRUNCATE | SQLCOM_CREATE_INDEX
  | SQLCOM_DROP_INDEX | SQLCOM_CREATE_DB | SQLCOM_DROP_DB | SQLCOM_ALTER_DB
  | SQLCOM_CREATE_VIEW | SQLCOM_DROP_VIEW | SQLCOM_CREATE_TRIGGER
  | SQLCOM_DROP_TRIGGER => true
  | _ => false
  end.

(** The [(db, table)] pair the split grouper derives for a statement. *)
Definition split_target (thd : THD) : string * string :=
  let l := lex thd in
  match query_tables l with
  | Some tbl =>
      (default "" (Audit.or_else (tl_db tbl) (thd_db thd)),
       default "" (tl_table_name tbl))
  | None =>
      match lex_sql_command l with
      | SQLCOM_CREATE_DB | SQLCOM_DROP_DB | SQLCOM_ALTER_DB =>
          (default "" (lex_name l), "")
      | _ => ("", "")
      end
  end.

Definition split_ddlflag (cmd : enum_sql_command) : Z :=
  match cmd with
  | SQLCOM_ALTER_TABLE | SQLCOM_DROP_TABLE => 1
  | _ => 0
  end.

Definition snode_eta (r : SplitNode) : SplitNode :=
  Build_SplitNode (sn_sql_text r) (sn_db_name r) (sn_table_name r)
    (ddlflag r) (is_ddl_type r).

Definition set_sn_sql_text := ltac:(record_setter snode_eta sn_sql_text).
Definition set_ddlflag := ltac:(record_setter snode_eta ddlflag).

Definition LF : string := String "010" "".

(** Can the statement join the group [last]? *)
Definition same_group (last : SplitNode) (db_name tbl_name : string)
    (is_ddl : bool) : bool :=
  String.eqb (sn_table_name last) tbl_name
  && String.eqb (sn_db_name last) db_name
  && Bool.eqb (is_ddl_type last) is_ddl.

(** The grouping step of split mode, for a statement that is neither USE
    nor SET: append to the last group when it matches, else start a new
    group. *)
Definition split_group (thd : THD) (ctx : InceptionContext)
  : InceptionContext :=
  let sql_text := strip_inception_comment (thd_query thd) in
  let cmd := lex_sql_command (lex thd) in
  let '(db_name, tbl_name) := split_target thd in
  let is_ddl := is_ddl_command cmd in
  let flag := split_ddlflag cmd in
  let merged : option (list SplitNode) :=
    match last (split_nodes ctx) with
    | Some l =>
        if same_group l db_name tbl_name is_ddl then
          let l := set_sn_sql_text
                     (sn_sql_text l +:+ sql_text +:+ ";" +:+ LF) l in
          let l := if flag =? 0 then l else set_ddlflag 1 l in
          Some (removelast (split_nodes ctx) ++ [l])
        else None
    | None => None
    end in
  match merged with
  | Some nodes => set_split_nodes nodes ctx
  | None =>
      let use_prefix :=
        if negb (String.eqb (current_usedb ctx) "") then
          "USE " +:+ current_usedb ctx +:+ ";" +:+ LF
        else if negb (String.eqb db_name "") then
          "USE " +:+ db_name +:+ ";" +:+ LF
        else "" in
      set_split_nodes
        (split_nodes ctx ++
         [Build_SplitNode (use_prefix +:+ sql_text +:+ ";" +:+ LF)
            db_name tbl_name flag is_ddl]) ctx
  end.

(** [USE db] inside a session: the session's database follows. *)
Definition use_db (thd : THD) : THD :=
  match query_block_db (lex thd) with
  | Some db => set_db (Some db) thd
  | None => thd
  end.

(** The statements that are left to the server even inside a session:
    the empty query and the client's own [SELECT DATABASE()]. *)
Definition passes_through (thd : THD) : bool :=
  match lex_sql_command (lex thd) with
  | SQLCOM_EMPTY_QUERY => true
  | SQLCOM_SELECT =>
      (17 <=? String.length (thd_query thd))%nat
      && strncasecmp 17 (thd_query thd) "SELECT DATABASE()"
  | _ => false
  end.

(** [intercept_statement]: [true] when the statement was taken over. *)
Definition intercept_statement (sv : Sysvars.t) (fv : FlagValues)
    (env : Env) (thd : THD) (ctx : InceptionContext)
  : bool * THD * InceptionContext * list Output :=
  if negb (active ctx) then (false, thd, ctx, [])
  else if passes_through thd then (false, thd, ctx, [])
  else
    let cmd := lex_sql_command (lex thd) in
    let sql_text := strip_inception_comment (thd_query thd) in
    match mode ctx with
    | SPLIT =>
        match cmd with
        | SQLCOM_CHANGE_DB =>
            (true, use_db thd,
             match query_block_db (lex thd) with
             | Some db => set_current_usedb db ctx
             | None => ctx
             end, [OutOk])
        | SQLCOM_SET_OPTION => (true, thd, ctx, [OutOk])
        | _ => (true, thd, split_group thd ctx, [OutOk])
        end
    | QUERY_TREE =>
        match cmd with
        | SQLCOM_CHANGE_DB =>
            (true, use_db thd,
             match query_block_db (lex thd) with
             | Some db => set_current_usedb db ctx
             | None => ctx
             end, [OutOk])
        | SQLCOM_SET_OPTION => (true, thd, ctx, [OutOk])
        | _ =>
            let node :=
              Build_QueryTreeNode (next_id ctx) sql_text
                (tree_json env (thd_query thd)) in
            let ctx := set_next_id (next_id ctx + 1) ctx in
            let ctx := if tree_needs_remote env (thd_query thd)
                       then snd (Audit.get_remote_conn env ctx) else ctx in
            (true, thd, set_tree_nodes (tree_nodes ctx ++ [node]) ctx,
             [OutOk])
        end
    | _ =>
        let ctx := add_sql sql_text cmd ctx in
        let node := new_node (next_id ctx - 1) sql_text cmd in
        let '(node, ctx) := Audit.audit_statement sv fv env thd node ctx in
        let ctx :=
          set_cache_nodes (removelast (cache_nodes ctx) ++ [node]) ctx in
        (true,
         match cmd with
         | SQLCOM_CHANGE_DB => use_db thd
         | _ => thd
         end, ctx, [OutOk])
    end.

(** A statement as the server hands it over: its text and its LEX. *)
Definition statement : Type := (string * LEX)%type.

Definition load_statement (s : statement) (thd : THD) : THD :=
  Build_THD s.1 (thd_db thd) (thd_thread_id thd) s.2.

(** The statements of a batch going through [intercept_statement] one
    after the other. *)
Fixpoint run_batch (sv : Sysvars.t) (fv : FlagValues) (env : Env)
    (stmts : list statement) (thd : THD) (ctx : InceptionContext)
  : THD * InceptionContext :=
  match stmts with
  | [] => (thd, ctx)
  | s :: rest =>
      let r := intercept_statement sv fv env (load_statement s thd) ctx in
      run_batch sv fv env rest r.1.1.2 r.1.2
  end.

End Inception.

(** ** The remaining hooks of the dispatcher (inception.cc) *)

Module Hooks.
Import CStr Context Server Remote Inception.

(** What [handle_parse_error] reads and writes of the lexer's input
    stream: the text being lexed (it ends at [get_end_of_query()]), the
    read position, and [found_semicolon], the offset just past the
    semicolon that ends the statement ([None] is the null pointer). *)
Record Lex_input_stream : Type := Build_Lex_input_stream {
  lip_buffer : string;
  lip_ptr : nat;
  found_semicolon : option nat
}.

(** [while (ptr < end && *ptr != ';') ptr++]. *)
Fixpoint seek_semicolon (n : nat) (buf : string) (ptr : nat) : nat :=
  match n with
  | O => ptr
  | S n' => if Ascii.eqb (char_at buf ptr) ";" then ptr
            else seek_semicolon n' buf (S ptr)
  end.

(** The repair of [found_semicolon] at the end of [handle_parse_error]. *)
Definition fix_found_semicolon (lip : Lex_input_stream)
  : Lex_input_stream :=
  match found_semicolon lip with
  | Some _ => lip
  | None =>
      let end_ := String.length (lip_buffer lip) in
      let ptr := seek_semicolon (end_ - lip_ptr lip) (lip_buffer lip)
                   (lip_ptr lip) in
      if (ptr <? end_)%nat
      then Build_Lex_input_stream (lip_buffer lip) (lip_ptr lip)
             (Some (S ptr))
      else lip
  end.

(** The text recorded for a statement that did not parse: the query
    without its marker comment, cut at the first semicolon. *)
Definition failed_statement_text (q : string) : string :=
  let sql := strip_inception_comment q in
  match find_char sql ";" 0 with
  | Some semi => String.substring 0 semi sql
  | None => sql
  end.

(** [handle_parse_error]: [errmsg] is the message of the diagnostics
    area.  The results are: whether the error was taken over, the
    context, the input stream, whether [SERVER_MORE_RESULTS_EXISTS] is
    raised, and what is sent. *)
Definition handle_parse_error (thd : THD) (errmsg : option string)
    (lip : Lex_input_stream) (ctx : InceptionContext)
  : bool * InceptionContext * Lex_input_stream * bool * list Output :=
  if negb (active ctx) then (false, ctx, lip, false, [])
  else
    let sql := failed_statement_text (thd_query thd) in
    let ctx := add_sql sql SQLCOM_END ctx in
    let node := new_node (next_id ctx - 1) sql SQLCOM_END in
    let node := set_stage STAGE_CHECKED node in
    let node := set_stage_status "Audit completed" node in
    let node :=
      append_error ("SQL parse error: " +:+ default "unknown" errmsg) node in
    let ctx :=
      set_cache_nodes (removelast (cache_nodes ctx) ++ [node]) ctx in
    let lip := fix_found_semicolon lip in
    (true, ctx, lip, bool_decide (is_Some (found_semicolon lip)), [OutOk]).

(** [handle_use_db]: inside a session the database change is done by the
    gateway itself. *)
Definition handle_use_db (thd : THD) (db : string) (ctx : InceptionContext)
  : bool * THD * list Output :=
  if negb (active ctx) then (false, thd, [])
  else (true, set_db (Some db) thd, [OutOk]).

End Hooks.

(** ** JSON text (inception_log.cc, inception_tree.cc) *)

Module Json.
Import CStr.

(** The double quote and the backslash. *)
Definition DQ : ascii := "034"%char.
Definition BS : ascii := "092"%char.

Definition hex_digit (n : N) : ascii :=
  match n with
  | 0 => "0" | 1 => "1" | 2 => "2" | 3 => "3" | 4 => "4" | 5 => "5"
  | 6 => "6" | 7 => "7" | 8 => "8" | 9 => "9" | 10 => "a" | 11 => "b"
  | 12 => "c" | 13 => "d" | 14 => "e" | _ => "f"
  end%char%N.

(** [snprintf(buf, sizeof(buf), "\u%04x", v)] for a byte [v]. *)
Definition snprintf_u04x (v : N) : string :=
  String BS (String "u"%char
    (String (hex_digit ((v / 4096) mod 16))
    (String (hex_digit ((v / 256) mod 16))
    (String (hex_digit ((v / 16) mod 16))
    (String (hex_digit (v mod 16)) ""))))).

(** The [switch] both escapers share: what one byte becomes. *)
Definition escape_char (c : ascii) : string :=
  if Ascii.eqb c DQ then String BS (String DQ "")
  else if Ascii.eqb c BS then String BS (String BS "")
  else if Ascii.eqb c "010"%char then String BS "n"
  else if Ascii.eqb c "013"%char then String BS "r"
  else if Ascii.eqb c "009"%char then String BS "t"
  else if (code c <? 32)%N then snprintf_u04x (code c)
  else String c "".

(** What [%s] prints of a [const char *]: the bytes before the
    terminator. *)
Fixpoint c_str (s : string) : string :=
  match s with
  | EmptyString => ""
  | String c r => if Ascii.eqb c NUL then "" else String c (c_str r)
  end.

End Json.

(** ** The audit log (inception_log.cc) *)

Module Log.
Import CStr Context Json.

(** The loop of [json_escape(const char *s, size_t max_len)]: it ends at
    the terminator of [s], or with ["..."] once [max_len] bytes were
    taken when [max_len] is not 0. *)
Fixpoint json_escape_from (max_len count : nat) (s : string) : string :=
  match s with
  | EmptyString => ""
  | String c r =>
      if Ascii.eqb c NUL then ""
      else if (0 <? max_len)%nat && (max_len <? S count)%nat then "..."
      else escape_char c
           +:+ json_escape_from max_len
                 (if (0 <? max_len)%nat then S count else count) r
  end.

Definition json_escape (s : string) (max_len : nat) : string :=
  json_escape_from max_len 0 s.

Definition mode_name (m : OpMode) : string :=
  match m with
  | CHECK => "CHECK"
  | EXECUTE => "EXECUTE"
  | SPLIT => "SPLIT"
  | QUERY_TREE => "QUERY_TREE"
  end.

(** The pieces ["name":"%s"] and ["name":%d] of the two formats; [%s]
    prints a C string. *)
Definition text_field (name value : string) : string :=
  String DQ name +:+ String DQ ":" +:+ String DQ (c_str value)
  +:+ String DQ "".

Definition number_field (name : string) (value : Z) : string :=
  String DQ name +:+ String DQ ":" +:+ pretty value.

(** [snprintf(target, sizeof(target), "%s:%u", host, port)]. *)
Definition target_of (ctx : InceptionContext) : string :=
  String.substring 0 255
    ((if String.eqb (host ctx) "" then "127.0.0.1" else c_str (host ctx))
     +:+ ":" +:+ pretty (port ctx)).

(** The line [audit_log_session] writes when the log is open.  [time]
    is the clock reading [now_iso8601] formats; [user] and [client_host]
    come from the security context of the THD ([None]: a null
    pointer). *)
Definition audit_log_session_line (time : string)
    (user_ client_host : option string) (ctx : InceptionContext)
    (statements errors duration_ms : Z) : string :=
  "{" +:+ text_field "time" time
  +:+ "," +:+ text_field "type" "session"
  +:+ "," +:+ text_field "user" (json_escape (default "" user_) 0)
  +:+ "," +:+ text_field "client_host"
                (json_escape (default "" client_host) 0)
  +:+ "," +:+ text_field "target" (json_escape (target_of ctx) 0)
  +:+ "," +:+ text_field "target_user" (json_escape (user ctx) 0)
  +:+ "," +:+ text_field "mode" (mode_name (mode ctx))
  +:+ "," +:+ number_field "statements" statements
  +:+ "," +:+ number_field "errors" errors
  +:+ "," +:+ number_field "duration_ms" duration_ms
  +:+ "}" +:+ String "010"%char "".

(** The line [audit_log_statement] writes when the log is open. *)
Definition audit_log_statement_line (time : string)
    (user_ client_host : option string) (ctx : InceptionContext)
    (node : SqlCacheNode) : string :=
  "{" +:+ text_field "time" time
  +:+ "," +:+ text_field "type" "statement"
  +:+ "," +:+ text_field "user" (json_escape (default "" user_) 0)
  +:+ "," +:+ text_field "client_host"
                (json_escape (default "" client_host) 0)
  +:+ "," +:+ text_field "target" (json_escape (target_of ctx) 0)
  +:+ "," +:+ number_field "id" (id node)
  +:+ "," +:+ text_field "sql" (json_escape (sql_text node) 4096)
  +:+ "," +:+ text_field "result"
                (if ERRLEVEL_ERROR <=? errlevel node then "ERROR" else "OK")
  +:+ "," +:+ number_field "affected_rows" (affected_rows node)
  +:+ "," +:+ text_field "execute_time" (execute_time node)
  +:+ "}" +:+ String "010"%char "".

End Log.

(** ** The JSON helpers of the query tree (inception_tree.cc) *)

Module Tree.
Import CStr Json.

(** [json_escape(const std::string &)]: every byte of the string. *)
Fixpoint json_escape (s : string) : string :=
  match s with
  | EmptyString => ""
  | String c r => escape_char c +:+ json_escape r
  end.

Definition json_str (s : string) : string :=
  String DQ (json_escape s) +:+ String DQ "".

End Tree.

(** ** The registry of session contexts (inception_context.cc)

    [g_ctx_map] is a [std::map] from the address of a THD to its context:
    an association list kept in the order of the keys, which is the order
    the loops over the map visit it in.  The thread id of a THD is read
    through the key, so the functions that use it take the reading
    [thread_id_of].  The mutex around every function is not modelled. *)

Module Registry.
Import CStr Context.

Definition ctx_map : Type := list (N * InceptionContext).

(** [&g_ctx_map[thd]]: the context of [thd], default-constructed and
    inserted at its place when the key is new. *)
Fixpoint get_context (thd : N) (m : ctx_map) : InceptionContext * ctx_map :=
  match m with
  | [] => (fresh_context, [(thd, fresh_context)])
  | (k, c) :: rest =>
      if (thd <? k)%N then (fresh_context, (thd, fresh_context) :: m)
      else if (thd =? k)%N then (c, m)
      else let '(r, rest') := get_context thd rest in (r, (k, c) :: rest')
  end.

(** [g_ctx_map.erase(thd)]. *)
Fixpoint destroy_context (thd : N) (m : ctx_map) : ctx_map :=
  match m with
  | [] => []
  | (k, c) :: rest =>
      if (thd =? k)%N then rest else (k, c) :: destroy_context thd rest
  end.

(** [set_sleep_by_thread_id]: the first active session of that thread. *)
Fixpoint set_sleep_by_thread_id (thread_id_of : N -> Z) (tid ms : Z)
    (m : ctx_map) : bool * ctx_map :=
  match m with
  | [] => (false, [])
  | (k, c) :: rest =>
      if (thread_id_of k =? tid) && active c
      then (true, (k, set_sleep_ms ms c) :: rest)
      else let '(found, rest') :=
             set_sleep_by_thread_id thread_id_of tid ms rest in
           (found, (k, c) :: rest')
  end.

(** The first loop of [kill_session]: the flag is set on the first
    active session of that thread, whose context is handed on. *)
Fixpoint mark_session_killed (thread_id_of : N -> Z) (tid : Z) (m : ctx_map)
  : option InceptionContext * ctx_map :=
  match m with
  | [] => (None, [])
  | (k, c) :: rest =>
      if (thread_id_of k =? tid) && active c
      then (Some c, (k, set_killed true c) :: rest)
      else let '(found, rest') := mark_session_killed thread_id_of tid rest in
           (found, (k, c) :: rest')
  end.

(** What a forced kill asks of the remote target: a connection to
    [kr_host]:[kr_port] as [kr_user], and on it the statement [kr_sql]. *)
Record KillRequest : Type := Build_KillRequest {
  kr_host : string;
  kr_user : string;
  kr_password : option string;
  kr_port : Z;
  kr_sql : string
}.

(** [kill_session]: whether the session was found, the registry, and the
    request a forced kill makes. *)
Definition kill_session (thread_id_of : N -> Z) (tid : Z) (force_ : bool)
    (m : ctx_map) : bool * ctx_map * option KillRequest :=
  match mark_session_killed thread_id_of tid m with
  | (None, m') => (false, m', None)
  | (Some c, m') =>
      let remote_tid := if force_ then remote_exec_thread_id c else 0 in
      let host_ := if force_ then host c else "" in
      (true, m',
       if force_ && (0 <? remote_tid) && negb (String.eqb host_ "")
       then Some (Build_KillRequest host_
                    (if String.eqb (user c) "" then "root" else user c)
                    (if String.eqb (password c) "" then None
                     else Some (password c))
                    (port c)
                    (String.substring 0 63 ("KILL " +:+ pretty remote_tid)))
       else None)
  end.

Definition mode_name (m : OpMode) : string :=
  match m with
  | CHECK => "CHECK"
  | EXECUTE => "EXECUTE"
  | SPLIT => "SPLIT"
  | QUERY_TREE => "QUERY_TREE"
  end.

Definition dbtype_name (t : DbType) : string :=
  match t with
  | MYSQL_DB => "MySQL"
  | TIDB => "TiDB"
  end.

(** A row of [inception show sessions].  [elapsed_sec], a reading of the
    clock against the start of the session, is left out. *)
Record SessionInfo : Type := Build_SessionInfo {
  si_thread_id : Z;
  si_host : string;
  si_port : Z;
  si_user : string;
  si_mode : string;
  si_db_type : string;
  si_sleep_ms : Z;
  si_total_sql : Z;
  si_executed_sql : Z;
  si_threads_running : Z;
  si_repl_delay : Z
}.

Definition session_info (thread_id_of : N -> Z) (k : N)
    (ctx : InceptionContext) : SessionInfo :=
  Build_SessionInfo (thread_id_of k) (host ctx) (port ctx) (user ctx)
    (mode_name (mode ctx)) (dbtype_name (db_type ctx)) (sleep_ms ctx)
    (Z.of_nat (List.length (cache_nodes ctx)))
    (Z.of_nat
       (List.length
          (filter (fun node => STAGE_EXECUTED <= stage node)
             (cache_nodes ctx))))
    (last_threads_running ctx) (last_repl_delay ctx).

Fixpoint get_active_sessions (thread_id_of : N -> Z) (m : ctx_map)
  : list SessionInfo :=
  match m with
  | [] => []
  | (k, ctx) :: rest =>
      if active ctx
      then session_info thread_id_of k ctx
           :: get_active_sessions thread_id_of rest
      else get_active_sessions thread_id_of rest
  end.

End Registry.


(** ** The specification's side of the statements *)

Module Spec.
Import Context Server Remote Inception.

(** *** Execution *)

(** A finding on [n] that the session's options do not waive. *)
Definition blocks (force_ ignore_warnings_ : bool) (n : SqlCacheNode)
  : Prop :=
  (ERRLEVEL_ERROR <= errlevel n /\ force_ = false)
  \/ (ERRLEVEL_WARNING <= errlevel n /\ ignore_warnings_ = false).

(** The flag [killed] as look [k] finds it: set before, or by a kill
    that arrived at a look up to [k]. *)
Definition killed_by (env : Remote.Env) (ctx : InceptionContext) (k : nat)
  : Prop :=
  killed ctx = true
  \/ exists j, (j <= k)%nat /\ Remote.kill_arrives env j = true.

(** What a look that finds [killed] set does to a statement. *)
Definition mark_killed (node : SqlCacheNode) : SqlCacheNode :=
  set_stage_status "Killed by user" (set_stage STAGE_EXECUTED node).

(** What a failed connection to the target does to a statement: the text
    of the connection error is recorded on it. *)
Definition mark_unreachable (conn_err : string) (node : SqlCacheNode)
  : SqlCacheNode :=
  set_stage_status "Execute failed"
    (set_stage STAGE_EXECUTED (append_error conn_err node)).

(** *** ALTER prediction *)

(** The level the specification gives each ALTER operation: 0 INSTANT,
    1 INPLACE, 2 COPY. *)
Definition op_level (is_80 engine_change : bool) (f : AlterFlag) : Z :=
  match f with
  | ALTER_RENAME | ALTER_CHANGE_COLUMN_DEFAULT | ALTER_COLUMN_VISIBILITY => 0
  | ALTER_ADD_COLUMN => if is_80 then 0 else 1
  | ALTER_OPTIONS => if engine_change then 2 else 0
  | ALTER_DROP_COLUMN | ALTER_COLUMN_ORDER | ALTER_ADD_INDEX
  | ALTER_DROP_INDEX | ALTER_RENAME_INDEX | ALTER_INDEX_VISIBILITY
  | ALTER_KEYS_ONOFF | ALTER_DISCARD_TABLESPACE
  | ALTER_IMPORT_TABLESPACE => 1
  | ALTER_CHANGE_COLUMN | ALTER_ORDER | ALTER_RECREATE
  | ALTER_ADD_PARTITION | ALTER_DROP_PARTITION | ALTER_COALESCE_PARTITION
  | ALTER_REORGANIZE_PARTITION | ALTER_EXCHANGE_PARTITION
  | ALTER_TRUNCATE_PARTITION | ALTER_REMOVE_PARTITIONING => 2
  end.

(** The worst level over the operations that are present. *)
Fixpoint worst_level (present : AlterFlag -> bool) (level : AlterFlag -> Z)
    (fs : list AlterFlag) : Z :=
  match fs with
  | [] => 0
  | f :: rest =>
      if present f then Z.max (level f) (worst_level present level rest)
      else worst_level present level rest
  end.

Definition label (level : Z) : string :=
  match level with
  | 0 => "INSTANT"
  | 1 => "INPLACE"
  | _ => "COPY"
  end.

(** The flags of the server are separate bits: testing one against
    another succeeds only for the flag itself. *)
Definition separate_bits (fv : FlagValues) : Prop :=
  forall f g : AlterFlag,
    Audit.test (alter_bit fv f) (alter_bit fv g)
    = if decide (f = g) then true else false.

(** One flag test of the prediction chain, as a step on the running
    worst level. *)
Definition flag_step (present : AlterFlag -> bool) (level : AlterFlag -> Z)
    (worst : Z) (f : AlterFlag) : Z :=
  if present f then Audit.raise (level f) worst else worst.

(** Does the statement's OPTIONS clause set the engine? *)
Definition engine_change (fv : FlagValues) (l : LEX) : bool :=
  match create_info_used_fields l with
  | Some used => Audit.test used (HA_CREATE_USED_ENGINE fv)
  | None => false
  end.

(** The flags of a statement that sets exactly the operations [ops]. *)
Definition flags_of (fv : FlagValues) (ops : list AlterFlag) : Z :=
  fold_right (fun f acc => Z.lor (alter_bit fv f) acc) 0 ops.

(** An ALTER TABLE statement that sets the operations [ops]; [used] is
    the field mask of its OPTIONS clause. *)
Definition alter_stmt (fv : FlagValues) (ops : list AlterFlag)
    (used : option Z) : LEX :=
  Build_LEX SQLCOM_ALTER_TABLE None None None (flags_of fv ops) [] [] used.

(** *** Session markers *)

(** The per-batch state of a session: the caches a batch fills. *)
Definition batch_state (ctx : InceptionContext)
  : list SqlCacheNode * Z * list SplitNode * list QueryTreeNode * string
    * gset string * gmap string (gset string) * gset string :=
  (cache_nodes ctx, next_id ctx, split_nodes ctx, tree_nodes ctx,
   current_usedb ctx, altered_tables ctx, batch_tables ctx,
   batch_databases ctx).

(** *** Profile detection *)

(** [needle] occurs in [s], byte for byte. *)
Definition occurs_in (needle s : string) : Prop :=
  exists pre post : string, s = pre +:+ needle +:+ post.

(** The profile of a context: type, major, minor. *)
Definition profile (ctx : InceptionContext) : DbType * Z * Z :=
  (db_type ctx, db_version_major ctx, db_version_minor ctx).

(** The version the detector settles on for the version string [v]:
    for TiDB the first marker whose tail holds a version, else the first
    [M.N] of the whole string; for MySQL the first [M.N]. *)
Definition detected_version (is_tidb : bool) (v : string) : option (Z * Z) :=
  if is_tidb then
    match parse_tidb_version v with
    | Some x => Some x
    | None => parse_first_version v
    end
  else parse_first_version v.

(** *** Split groups *)

(** The text a new group opens with: the session's current database if
    there is one, else the statement's own database if it has one, else
    nothing. *)
Definition use_prefix (current db : string) : string :=
  if decide (current <> "") then "USE " +:+ current +:+ ";" +:+ LF
  else if decide (db <> "") then "USE " +:+ db +:+ ";" +:+ LF
  else "".

(** The group [l] and the statement agree on database, table and class. *)
Definition matches (l : SplitNode) (thd : THD) : Prop :=
  sn_db_name l = (split_target thd).1
  /\ sn_table_name l = (split_target thd).2
  /\ is_ddl_type l = is_ddl_command (lex_sql_command (lex thd)).

(** The group [l] after the statement of [thd] has joined it. *)
Definition joined (l : SplitNode) (thd : THD) : SplitNode :=
  Build_SplitNode
    (sn_sql_text l +:+ strip_inception_comment (thd_query thd) +:+ ";" +:+ LF)
    (sn_db_name l) (sn_table_name l)
    (if decide (split_ddlflag (lex_sql_command (lex thd)) = 0)
     then ddlflag l else 1)
    (is_ddl_type l).

(** The group the statement of [thd] starts on its own. *)
Definition opened (current : string) (thd : THD) : SplitNode :=
  Build_SplitNode
    (use_prefix current (split_target thd).1
     +:+ strip_inception_comment (thd_query thd) +:+ ";" +:+ LF)
    (split_target thd).1 (split_target thd).2
    (split_ddlflag (lex_sql_command (lex thd)))
    (is_ddl_command (lex_sql_command (lex thd))).

(** *** Batch schema *)

(** The key a statement creates in the batch schema: that of the table a
    CREATE TABLE names. *)
Definition creates (thd : THD) : option string :=
  match lex_sql_command (lex thd) with
  | SQLCOM_CREATE_TABLE =>
      match Audit.create_target thd with
      | Some (db, tn) => Some (Audit.batch_table_key db tn)
      | None => None
      end
  | _ => None
  end.

(** The keys a statement adds to the batch schema. *)
Definition created_keys (thd : THD) : gset string :=
  match creates thd with
  | Some key => {[key]}
  | None => ∅
  end.

(** What the audit keeps of a context: the session being open, its mode,
    the major version of the target, and which tables the batch schema
    knows. *)
Definition keeps (ctx ctx' : InceptionContext) : Prop :=
  active ctx' = active ctx /\ mode ctx' = mode ctx
  /\ db_version_major ctx' = db_version_major ctx
  /\ dom (batch_tables ctx') = dom (batch_tables ctx).

End Spec.

(** ** Notions the further properties are stated with *)

Module Notions.
Import CStr Context Server Remote.

(** [after] is the record of the statement [before]: what identifies the
    statement is the same, and the severity did not go down. *)
Definition same_statement (before after : SqlCacheNode) : Prop :=
  id after = id before /\ sql_text after = sql_text before
  /\ sql_command after = sql_command before
  /\ db_name after = db_name before /\ table_name after = table_name before
  /\ sub_type after = sub_type before
  /\ ddl_algorithm after = ddl_algorithm before
  /\ errlevel before <= errlevel after.

(** The statement records are numbered 1, 2, 3, ... in order, and
    [next_id] is the number the next one gets. *)
Definition numbered (ctx : InceptionContext) : Prop :=
  map id (cache_nodes ctx)
  = map Z.of_nat (seq 1 (List.length (cache_nodes ctx)))
  /\ next_id ctx = 1 + Z.of_nat (List.length (cache_nodes ctx)).

(** The names joined by commas. *)
Fixpoint comma_join (names : list string) : string :=
  match names with
  | [] => ""
  | [name] => name
  | name :: rest => name +:+ "," +:+ comma_join rest
  end.

(** A record whose statement stops the batch: its pre-check failed, or its
    execution failed while [force] is off. *)
Definition stops_batch (force_ : bool) (n : SqlCacheNode) : Prop :=
  stage_status n = "Pre-check failed"
  \/ (stage_status n = "Execute failed" /\ force_ = false).



(** [needle] occurs at offset [i] of [q], letter case aside. *)
Definition occurs_ci_at (q : string) (i : nat) (needle : string) : Prop :=
  exists pre post : string,
    cstr q i = pre +:+ post
    /\ string_tolower pre = string_tolower needle.

(** A usable slave address: a host name and a port that is not 0. *)
Definition slave_address (hp : string * Z) : Prop :=
  hp.1 <> "" /\ 0 < hp.2 < 2 ^ 32.

(** What the option parser keeps true of the port: it fits 32 bits, and
    it is the default unless the marker named one. *)
Definition port_invariant (ctx : InceptionContext) : Prop :=
  0 <= port ctx < 2 ^ 32 /\ (explicit_port ctx = true \/ port ctx = 3306).

(** The keys of a registry strictly increase, as those of a [std::map]
    do. *)
Definition ordered (m : Registry.ctx_map) : Prop :=
  StronglySorted N.lt (map fst m).

(** The context registered for [thd], if any. *)
Fixpoint registered (thd : N) (m : Registry.ctx_map)
  : option InceptionContext :=
  match m with
  | [] => None
  | (k, c) :: rest => if (thd =? k)%N then Some c else registered thd rest
  end.

(** The session an administrative command for thread [tid] is about. *)
Definition targeted (thread_id_of : N -> Z) (tid : Z)
    (e : N * InceptionContext) : Prop :=
  thread_id_of e.1 = tid /\ active e.2 = true.

(** Every byte of [s] satisfies [P]. *)
Fixpoint every_char (P : ascii -> Prop) (s : string) : Prop :=
  match s with
  | EmptyString => True
  | String c r => P c /\ every_char P r
  end.

(** [c] does not occur in [s]. *)
Definition free_of (c : ascii) (s : string) : Prop :=
  every_char (fun x => x <> c) s.

(** [s] is one line: a text without line feed, and a line feed. *)
Definition single_line (s : string) : Prop :=
  exists body, s = body +:+ String "010" "" /\ free_of "010" body.

(** No byte of [s] is a control character. *)
Definition printable (s : string) : Prop :=
  every_char (fun x => (32 <= code x)%N) s.

(** The value of a hexadecimal digit as [snprintf] writes it. *)
Definition hex_value (c : ascii) : N :=
  let n := code c in
  if (48 <=? n)%N && (n <=? 57)%N then (n - 48)%N
  else if (97 <=? n)%N && (n <=? 102)%N then (n - 87)%N
  else 0%N.

(** Reading an escaped text back. *)
Fixpoint json_unescape (s : string) : string :=
  match s with
  | EmptyString => ""
  | String c r =>
      if Ascii.eqb c Json.BS then
        match r with
        | String x r1 =>
            if Ascii.eqb x "u" then
              match r1 with
              | String a (String b (String d (String e r2))) =>
                  String
                    (ascii_of_N (hex_value a * 4096 + hex_value b * 256
                                 + hex_value d * 16 + hex_value e))
                    (json_unescape r2)
              | _ => ""
              end
            else
              String (if Ascii.eqb x "n" then "010"%char
                      else if Ascii.eqb x "r" then "013"%char
                      else if Ascii.eqb x "t" then "009"%char
                      else x)
                (json_unescape r1)
        | EmptyString => ""
        end
      else String c (json_unescape r)
  end.

End Notions.

(** ** Sample sessions, statements and targets *)

Module Examples.
Import Context Server Remote Inception.

Definition quiet_sysvars : Sysvars.t :=
  Sysvars.Build_Sysvars None None None 0 0 0 false 0 0.

Definition no_crypto : Sysvars.Crypto :=
  Sysvars.Build_Crypto (fun _ => None) (fun _ _ => None).

(** One assignment of separate bits to the flags, laid out like the
    server's [Alter_info] flags, with a bit for [HA_CREATE_USED_ENGINE]. *)
Definition sample_flags : FlagValues :=
  Build_FlagValues
    (fun f =>
       2 ^ match f with
           | ALTER_ADD_COLUMN => 0 | ALTER_DROP_COLUMN => 1
           | ALTER_CHANGE_COLUMN => 2 | ALTER_ADD_INDEX => 3
           | ALTER_DROP_INDEX => 4 | ALTER_RENAME => 5 | ALTER_ORDER => 6
           | ALTER_OPTIONS => 7 | ALTER_CHANGE_COLUMN_DEFAULT => 8
           | ALTER_KEYS_ONOFF => 9 | ALTER_RECREATE => 10
           | ALTER_ADD_PARTITION => 11 | ALTER_DROP_PARTITION => 12
           | ALTER_COALESCE_PARTITION => 13
           | ALTER_REORGANIZE_PARTITION => 14
           | ALTER_REMOVE_PARTITIONING => 20
           | ALTER_EXCHANGE_PARTITION => 23
           | ALTER_TRUNCATE_PARTITION => 24 | ALTER_COLUMN_ORDER => 25
           | ALTER_RENAME_INDEX => 26 | ALTER_DISCARD_TABLESPACE => 27
           | ALTER_IMPORT_TABLESPACE => 28 | ALTER_INDEX_VISIBILITY => 29
           | ALTER_COLUMN_VISIBILITY => 38
           end)
    (2 ^ 12).

Definition server (version : string) : MYSQL :=
  Build_MYSQL (Some version) 77.

(** A target that answers every probe with "no" and runs every statement
    without warnings; the two connections are given. *)
Definition calm_env (audit exec : connect_result) : Env :=
  Build_Env audit (fun _ => false) (fun _ _ => false) (fun _ _ _ => false)
    (fun _ _ => 0) exec (fun _ _ => true) (fun _ => false)
    (fun _ => ReadOnlyValue false) (fun _ => (None, None))
    (fun _ => QueryOk 1 "0.001" []) (fun _ => 1700000000)
    (fun _ => "{}") (fun _ => false).

Definition reachable : connect_result := Connected (server "8.0.32").

(** A reachable target that reports the given version string. *)
Definition target (version : string) : Env :=
  calm_env (Connected (server version)) (Connected (server version)).

(** The calm target, with a kill from another session landing just
    before look [k]. *)
Definition killed_at (k : nat) : Env :=
  Build_Env reachable (fun _ => false) (fun _ _ => false)
    (fun _ _ _ => false) (fun _ _ => 0) reachable (fun _ _ => true)
    (fun j => bool_decide (j = k)) (fun _ => ReadOnlyValue false)
    (fun _ => (None, None)) (fun _ => QueryOk 1 "0.001" [])
    (fun _ => 1700000000) (fun _ => "{}") (fun _ => false).

Definition client (q : string) (l : LEX) : THD := Build_THD q None 5 l.

(** The client between two statements. *)
Definition idle_client : THD := client "" (plain_lex SQLCOM_END).

(** An audited statement with the given [errlevel]. *)
Definition audited (i : Z) (sql : string) (cmd : enum_sql_command)
    (level : Z) : SqlCacheNode :=
  set_errlevel level
    (set_stage_status "Audit completed"
       (set_stage STAGE_CHECKED (new_node i sql cmd))).

(** Three audited statements, the second with an error. *)
Definition batch_with_error : list SqlCacheNode :=
  [audited 1 "CREATE TABLE t1 (id INT PRIMARY KEY)" SQLCOM_CREATE_TABLE 0;
   audited 2 "CREATE TABLE t (id INT)" SQLCOM_CREATE_TABLE 2;
   audited 3 "INSERT INTO t1 VALUES (1)" SQLCOM_INSERT 0].

(** Three audited statements, the last with a warning. *)
Definition batch_with_warning : list SqlCacheNode :=
  [audited 1 "CREATE TABLE t1 (id INT PRIMARY KEY)" SQLCOM_CREATE_TABLE 0;
   audited 2 "INSERT INTO t1 VALUES (1)" SQLCOM_INSERT 0;
   audited 3 "DELETE FROM t1" SQLCOM_DELETE 1].

(** A target whose primary connection is refused. *)
Definition unreachable : Env :=
  calm_env reachable (ConnectFailed "Connection refused").

(** An open session in check mode with nothing cached yet. *)
Definition check_session : InceptionContext :=
  set_active true fresh_context.

(** An open session in execute mode holding the given statements. *)
Definition execute_session (nodes : list SqlCacheNode) : InceptionContext :=
  set_cache_nodes nodes
    (set_next_id (1 + Z.of_nat (List.length nodes))
       (set_mode EXECUTE (set_active true fresh_context))).

(** An open session in split mode with nothing grouped yet. *)
Definition split_session : InceptionContext :=
  set_mode SPLIT (set_active true fresh_context).

(** The marker of the round-trip example as the specification writes it,
    and with the sentinel the parser looks for. *)
Definition spec_marker : string :=
  "/*--host=h;--port=42;magic_start;*/ SELECT 1".

Definition start_marker : string :=
  "/*--host=h;--port=42;inception_magic_start;*/ SELECT 1".

(** What the marker of the example sets. *)
Definition with_host_h_port_42 (ctx : InceptionContext) : InceptionContext :=
  set_explicit_port true
    (set_port 42 (set_explicit_host true (set_host "h" ctx))).

(** A statement on the table [table_name], unqualified. *)
Definition on_table (cmd : enum_sql_command) (table_name : string) : LEX :=
  Build_LEX cmd (Some (Build_TABLE_LIST None (Some table_name))) None None
    0 [] [] None.

(** A statement on the table [db.table_name]. *)
Definition on_qualified (cmd : enum_sql_command) (db table_name : string)
  : LEX :=
  Build_LEX cmd (Some (Build_TABLE_LIST (Some db) (Some table_name))) None
    None 0 [] [] None.

Definition use_stmt (db : string) : LEX :=
  Build_LEX SQLCOM_CHANGE_DB None (Some db) None 0 [] [] None.

Definition create_table_stmt (db table_name : string) (cols : list string)
  : LEX :=
  Build_LEX SQLCOM_CREATE_TABLE
    (Some (Build_TABLE_LIST (Some db) (Some table_name))) None None 0 cols []
    None.

(** Scenario S6 of the specification. *)
Definition scenario_s6 : list statement :=
  [("USE shop", use_stmt "shop");
   ("INSERT INTO o VALUES (1)", on_table SQLCOM_INSERT "o");
   ("INSERT INTO o VALUES (2)", on_table SQLCOM_INSERT "o");
   ("ALTER TABLE o ADD COLUMN y INT", on_table SQLCOM_ALTER_TABLE "o")].

(** CREATE TABLE d.t, then DROP TABLE d.t. *)
Definition create_then_drop : list statement :=
  [("CREATE TABLE d.t (id INT)", create_table_stmt "d" "t" ["id"]);
   ("DROP TABLE d.t", on_qualified SQLCOM_DROP_TABLE "d" "t")].

End Examples.

(** ** Further sample inputs *)

Module Scenarios.
Import Context Server Remote Inception Hooks Registry Examples.

(** The defaults, with the read-only gate on. *)
Definition guarded_sysvars : Sysvars.t :=
  Sysvars.Build_Sysvars None None None 0 0 0 true 0 0.

(** The calm target, on which the statement at position [k] fails. *)
Definition failing_at (k : nat) : Env :=
  Build_Env reachable (fun _ => false) (fun _ _ => false)
    (fun _ _ _ => false) (fun _ _ => 0) reachable (fun _ _ => true)
    (fun _ => false) (fun _ => ReadOnlyValue false)
    (fun _ => (None, None))
    (fun j => if bool_decide (j = k)
              then QueryFailed "Table 't' doesn't exist"
              else QueryOk 1 "0.001" [])
    (fun _ => 1700000000) (fun _ => "{}") (fun _ => false).

(** Two audited statements without findings. *)
Definition clean_batch : list SqlCacheNode :=
  [audited 1 "INSERT INTO t VALUES (1)" SQLCOM_INSERT 0;
   audited 2 "INSERT INTO t VALUES (2)" SQLCOM_INSERT 0].


(** A statement that does not parse, followed by one that does, and the
    lexer stopped inside the first. *)
Definition broken_query : string := "SELEC 1; SELECT 2".

Definition broken_lexer : Lex_input_stream :=
  Build_Lex_input_stream broken_query 5 None.

(** A registry of two THDs, the second with an open session; the thread
    id of a THD is read off its key. *)
Definition two_sessions : ctx_map :=
  [(1%N, fresh_context); (3%N, execute_session clean_batch)].

Definition log_time : string := "2026-02-13T12:00:00".

End Scenarios.

(** * Properties *)

(** ** Diagnostics are monotone *)

Section Diagnostics.
Import Context.

Lemma raise_errlevel_max lvl n :
  errlevel (raise_errlevel lvl n) = Z.max (errlevel n) lvl.
Proof.
  unfold raise_errlevel. destruct (Z.ltb_spec (errlevel n) lvl); simpl; lia.
Qed.

Lemma raise_errlevel_errmsg lvl n :
  errmsg (raise_errlevel lvl n) = errmsg n.
Proof. unfold raise_errlevel. destruct (errlevel n <? lvl); reflexivity. Qed.

Lemma report_errlevel_le level text n :
  errlevel n <= errlevel (report level text n).
Proof.
  unfold report. destruct (level =? 0); [lia|].
  rewrite raise_errlevel_max. simpl. lia.
Qed.

Lemma reports_errlevel_le (reports : list (Z * string)) n :
  errlevel n
  <= errlevel (fold_left (fun n r => report r.1 r.2 n) reports n).
Proof.
  revert n. induction reports as [|r rest IH]; intros n; simpl; [lia|].
  etransitivity; [apply (report_errlevel_le r.1 r.2)|apply IH].
Qed.

(** C5.  A report at level off changes nothing; a report at level warning
    or error appends one line to the message (after a newline when there
    is text already) and lifts [errlevel] to the maximum of its old value
    and the report's severity; so no sequence of reports, at whatever
    levels, lowers [errlevel]. *)
Theorem report_is_monotone :
  (forall text n, report 0 text n = n)
  /\ (forall text n,
        errmsg (report 1 text n)
        = errmsg n +:+ (if String.eqb (errmsg n) "" then "" else Inception.LF)
          +:+ CStr.snprintf_1024 text
        /\ errlevel (report 1 text n) = Z.max (errlevel n) ERRLEVEL_WARNING)
  /\ (forall text n,
        errmsg (report 2 text n)
        = errmsg n +:+ (if String.eqb (errmsg n) "" then "" else Inception.LF)
          +:+ CStr.snprintf_1024 text
        /\ errlevel (report 2 text n) = Z.max (errlevel n) ERRLEVEL_ERROR)
  /\ (forall (reports : list (Z * string)) n,
        errlevel n
        <= errlevel (fold_left (fun n r => report r.1 r.2 n) reports n)).
Proof.
  split; [reflexivity|].
  split; [|split].
  - intros text n. unfold report. simpl.
    rewrite raise_errlevel_errmsg, raise_errlevel_max. split; reflexivity.
  - intros text n. unfold report. simpl.
    rewrite raise_errlevel_errmsg, raise_errlevel_max. split; reflexivity.
  - apply reports_errlevel_le.
Qed.

End Diagnostics.

(** ** What the audit of a statement leaves alone *)

Section AuditFrame.
Import CStr Context Server Remote Audit Inception Spec.

Lemma keeps_refl ctx : keeps ctx ctx.
Proof. repeat split. Qed.

Lemma keeps_trans c1 c2 c3 : keeps c1 c2 -> keeps c2 c3 -> keeps c1 c3.
Proof.
  unfold keeps. intros (?&?&?&?) (?&?&?&?). repeat split; congruence.
Qed.

Lemma get_remote_conn_keeps env ctx : keeps ctx (get_remote_conn env ctx).2.
Proof.
  unfold get_remote_conn. destruct (remote_conn ctx); [apply keeps_refl|].
  destruct (remote_conn_failed ctx); [apply keeps_refl|].
  destruct (audit_connect env); repeat split.
Qed.

Lemma get_remote_conn_batch_tables env ctx :
  batch_tables (get_remote_conn env ctx).2 = batch_tables ctx.
Proof.
  unfold get_remote_conn. destruct (remote_conn ctx); [reflexivity|].
  destruct (remote_conn_failed ctx); [reflexivity|].
  destruct (audit_connect env); reflexivity.
Qed.

Lemma in_batch_tables_dom ctx key :
  in_batch_tables ctx key = true <-> key ∈ dom (batch_tables ctx).
Proof.
  unfold in_batch_tables. rewrite bool_decide_eq_true, elem_of_dom.
  reflexivity.
Qed.

Lemma insert_known_dom (bt : gmap string (gset string)) key cols :
  key ∈ dom bt -> dom (<[key := cols]> bt) = dom bt.
Proof. intros H. rewrite dom_insert_L. set_solver. Qed.

Lemma alter_add_column_keeps env in_batch remote db tn node ctx f :
  (in_batch = true -> batch_table_key db tn ∈ dom (batch_tables ctx)) ->
  keeps ctx (alter_add_column env in_batch remote db tn (node, ctx) f).2.
Proof.
  intros Hin. unfold alter_add_column. destruct in_batch.
  - repeat split. simpl. apply insert_known_dom. auto.
  - destruct (_ && _); apply keeps_refl.
Qed.

Lemma alter_drop_column_keeps env in_batch remote db tn node ctx d :
  (in_batch = true -> batch_table_key db tn ∈ dom (batch_tables ctx)) ->
  keeps ctx (alter_drop_column env in_batch remote db tn (node, ctx) d).2.
Proof.
  intros Hin. unfold alter_drop_column.
  destruct (drop_kind d); try apply keeps_refl.
  destruct in_batch.
  - destruct (negb _); [apply keeps_refl|].
    repeat split. simpl. apply insert_known_dom. auto.
  - destruct (_ && _); apply keeps_refl.
Qed.

Lemma alter_change_column_keeps env in_batch remote db tn node ctx f :
  keeps ctx (alter_change_column env in_batch remote db tn (node, ctx) f).2.
Proof.
  unfold alter_change_column. destruct in_batch.
  - destruct (negb _); apply keeps_refl.
  - destruct (_ && _); apply keeps_refl.
Qed.

(** A loop whose rounds keep the context keeps it. *)
Lemma fold_left_keeps {A} (step : SqlCacheNode * InceptionContext -> A
                                  -> SqlCacheNode * InceptionContext)
    (key : string) (guard : bool) (items : list A) :
  (forall node ctx x,
     (guard = true -> key ∈ dom (batch_tables ctx)) ->
     keeps ctx (step (node, ctx) x).2) ->
  forall st,
    (guard = true -> key ∈ dom (batch_tables st.2)) ->
    keeps st.2 (fold_left step items st).2.
Proof.
  intros Hstep. induction items as [|x items IH]; intros [node ctx] Hin;
    simpl; [apply keeps_refl|].
  pose proof (Hstep node ctx x Hin) as Hk.
  eapply keeps_trans; [exact Hk|].
  destruct (step (node, ctx) x) as [node' ctx'] eqn:Hs. apply IH.
  simpl in *. destruct Hk as (_ & _ & _ & ->). exact Hin.
Qed.

Lemma audit_alter_table_keeps sv fv env thd node ctx :
  keeps ctx (audit_alter_table sv fv env thd node ctx).2.
Proof.
  unfold audit_alter_table.
  set (named := bool_decide _).
  set (db := default "" (alter_db thd)).
  set (tn := default "" (alter_table_name thd)).
  set (node0 := set_sub_type _ node).
  assert (Hconn : keeps ctx (if named then get_remote_conn env ctx
                             else (None, ctx)).2)
    by (destruct named; [apply get_remote_conn_keeps|apply keeps_refl]).
  destruct (if named then get_remote_conn env ctx else (None, ctx))
    as [remote ctx1]. simpl in Hconn.
  set (key := batch_table_key db tn).
  set (in_batch := named && in_batch_tables ctx1 key).
  assert (Hin : in_batch = true -> key ∈ dom (batch_tables ctx1)).
  { unfold in_batch. intros H. apply andb_true_iff in H as [_ H].
    apply in_batch_tables_dom, H. }
  match goal with
  | |- context [fold_left (alter_add_column _ _ _ _ _) _ ?st] =>
      set (st0 := st)
  end.
  set (st1 := if has_flag fv (alter_flags (lex thd)) ALTER_ADD_COLUMN
              then fold_left (alter_add_column env in_batch remote db tn)
                     (create_list (lex thd)) st0
              else st0).
  assert (H1 : keeps ctx1 st1.2).
  { unfold st1. destruct (has_flag _ _ ALTER_ADD_COLUMN); [|apply keeps_refl].
    apply (fold_left_keeps _ key in_batch); [|exact Hin].
    intros n c x Hc. apply alter_add_column_keeps, Hc. }
  set (st2 := if has_flag fv (alter_flags (lex thd)) ALTER_DROP_COLUMN
              then fold_left (alter_drop_column env in_batch remote db tn)
                     (drop_list (lex thd)) st1
              else st1).
  assert (H2 : keeps ctx1 st2.2).
  { eapply keeps_trans; [exact H1|]. unfold st2.
    destruct (has_flag _ _ ALTER_DROP_COLUMN); [|apply keeps_refl].
    apply (fold_left_keeps _ key in_batch).
    - intros n c x Hc. apply alter_drop_column_keeps, Hc.
    - destruct H1 as (_ & _ & _ & ->). exact Hin. }
  set (st3 := if has_flag fv (alter_flags (lex thd)) ALTER_CHANGE_COLUMN
              then fold_left (alter_change_column env in_batch remote db tn)
                     (create_list (lex thd)) st2
              else st2).
  assert (H3 : keeps ctx1 st3.2).
  { eapply keeps_trans; [exact H2|]. unfold st3.
    destruct (has_flag _ _ ALTER_CHANGE_COLUMN); [|apply keeps_refl].
    apply (fold_left_keeps _ key false); [|discriminate].
    intros n c x _. apply alter_change_column_keeps. }
  destruct st3 as [node3 ctx3]. simpl in H3.
  eapply keeps_trans; [exact Hconn|]. eapply keeps_trans; [exact H3|].
  destruct (_ && named); simpl; repeat split.
Qed.

End AuditFrame.

(** ** ALTER algorithm prediction *)

Section Prediction.
Import Context Server Audit Examples Spec.

Lemma test_lor_r x a b : test x (Z.lor a b) = test x a || test x b.
Proof.
  unfold test. rewrite Z.land_lor_distr_r.
  destruct (Z.eqb_spec (Z.land x a) 0) as [Ha|Ha];
    destruct (Z.eqb_spec (Z.land x b) 0) as [Hb|Hb]; simpl;
    destruct (Z.eqb_spec (Z.lor (Z.land x a) (Z.land x b)) 0) as [H|H];
    try reflexivity; exfalso.
  - apply H. apply Z.lor_eq_0_iff. auto.
  - apply Z.lor_eq_0_iff in H. tauto.
  - apply Z.lor_eq_0_iff in H. tauto.
  - apply Z.lor_eq_0_iff in H. tauto.
Qed.

Lemma test_lor_l a b m : test (Z.lor a b) m = test a m || test b m.
Proof.
  unfold test. rewrite !(Z.land_comm _ m). apply test_lor_r.
Qed.

Lemma raise_max level worst : raise level worst = Z.max worst level.
Proof. unfold raise. destruct (Z.ltb_spec worst level); lia. Qed.

Lemma raise_if_lor flags a b level worst :
  raise_if flags (Z.lor a b) level worst
  = raise_if flags b level (raise_if flags a level worst).
Proof.
  unfold raise_if. rewrite test_lor_r.
  destruct (test flags a), (test flags b); simpl; rewrite ?raise_max; lia.
Qed.

Lemma fold_flag_step present level fs worst :
  0 <= worst ->
  fold_left (flag_step present level) fs worst
  = Z.max worst (Spec.worst_level present level fs).
Proof.
  revert worst. induction fs as [|f rest IH]; intros worst Hw; simpl.
  - lia.
  - unfold flag_step at 2. destruct (present f).
    + rewrite raise_max, IH by lia. lia.
    + apply IH, Hw.
Qed.

Lemma options_level_engine fv l :
  options_level fv l = if engine_change fv l then 2 else 0.
Proof.
  unfold options_level, engine_change.
  destruct (create_info_used_fields l); reflexivity.
Qed.

Lemma raise_if_flag_step fv flags level f l X Y :
  l = level f -> X = Y ->
  raise_if flags (alter_bit fv f) l X
  = flag_step (has_flag fv flags) level Y f.
Proof. intros -> ->. reflexivity. Qed.

Lemma predict_alter_level_fold fv l ctx :
  predict_alter_level fv l ctx
  = fold_left
      (flag_step (has_flag fv (alter_flags l))
         (Spec.op_level (8 <=? db_version_major ctx) (engine_change fv l)))
      all_flags 0.
Proof.
  unfold predict_alter_level.
  rewrite !raise_if_lor, options_level_engine.
  cbv [all_flags fold_left].
  repeat (apply raise_if_flag_step; [reflexivity|]).
  reflexivity.
Qed.

Lemma worst_level_ext p1 p2 level fs :
  (forall f, p1 f = p2 f) ->
  Spec.worst_level p1 level fs = Spec.worst_level p2 level fs.
Proof.
  intros Hp. induction fs as [|f fs IH]; simpl; [reflexivity|].
  rewrite Hp, IH. reflexivity.
Qed.

Lemma predict_alter_level_worst fv l ctx :
  predict_alter_level fv l ctx
  = Spec.worst_level (has_flag fv (alter_flags l))
      (Spec.op_level (8 <=? db_version_major ctx) (engine_change fv l))
      all_flags.
Proof.
  rewrite predict_alter_level_fold, fold_flag_step by lia.
  assert (H : forall fs,
             0 <= Spec.worst_level (has_flag fv (alter_flags l))
                    (Spec.op_level (8 <=? db_version_major ctx)
                       (engine_change fv l)) fs).
  { induction fs as [|f fs IH]; simpl; [lia|].
    destruct (has_flag fv (alter_flags l) f); lia. }
  specialize (H all_flags). lia.
Qed.

Lemma algorithm_label_spec w : algorithm_label w = Spec.label w.
Proof.
  unfold algorithm_label, Spec.label.
  destruct w as [|p|p]; try reflexivity.
  destruct p as [p|p|]; try reflexivity; destruct p; reflexivity.
Qed.

Lemma has_flag_lor fv a b f :
  has_flag fv (Z.lor a b) f = has_flag fv a f || has_flag fv b f.
Proof. apply test_lor_l. Qed.

Lemma has_flag_flags_of fv ops f :
  Spec.separate_bits fv ->
  has_flag fv (flags_of fv ops) f = bool_decide (f ∈ ops).
Proof.
  intros Hsep. induction ops as [|g ops IH]; simpl.
  - reflexivity.
  - rewrite has_flag_lor, IH. unfold has_flag at 1. rewrite Hsep.
    destruct (decide (g = f)) as [->|Hne]; simpl.
    + symmetry. apply bool_decide_eq_true. left.
    + destruct (bool_decide_reflect (f ∈ ops)) as [Hin|Hin];
        symmetry; [apply bool_decide_eq_true; right; exact Hin|].
      apply bool_decide_eq_false. intros Hc.
      apply elem_of_cons in Hc as [->|Hc]; [apply Hne; reflexivity|auto].
Qed.

Lemma predict_alter_stmt fv ops used ctx :
  Spec.separate_bits fv ->
  predict_alter_level fv (alter_stmt fv ops used) ctx
  = Spec.worst_level (fun f => bool_decide (f ∈ ops))
      (Spec.op_level (8 <=? db_version_major ctx)
         (engine_change fv (alter_stmt fv ops used)))
      all_flags.
Proof.
  intros Hsep. rewrite predict_alter_level_worst.
  apply worst_level_ext. intros f. apply has_flag_flags_of, Hsep.
Qed.

Lemma audit_alter_table_ddl_algorithm sv fv env thd node ctx :
  ddl_algorithm (audit_alter_table sv fv env thd node ctx).1
  = predict_alter_algorithm fv (lex thd) ctx.
Proof.
  assert (Hlast : ddl_algorithm (audit_alter_table sv fv env thd node ctx).1
                  = predict_alter_algorithm fv (lex thd)
                      (audit_alter_table sv fv env thd node ctx).2).
  { unfold audit_alter_table.
    repeat match goal with
           | |- context [let '(_, _) := ?p in _] => destruct p
           end.
    reflexivity. }
  rewrite Hlast.
  destruct (audit_alter_table_keeps sv fv env thd node ctx)
    as (_ & _ & Hmajor & _).
  unfold predict_alter_algorithm, predict_alter_level.
  rewrite Hmajor. reflexivity.
Qed.

(** C4.  The predicted level is the worst, over the operation flags set
    in the statement, of the level the specification gives the operation,
    and the label is its name; it is what the audit of an ALTER TABLE
    records as the statement's [ddl_algorithm].  When the server's flags
    are separate bits, on an 8.0 target: ADD_COLUMN with ADD_INDEX is
    INPLACE; with FORCE added it is COPY; with an OPTIONS clause that sets
    the engine added it is COPY; RENAME alone is INSTANT. *)
Theorem predict_alter_algorithm_is_worst (fv : FlagValues) :
  (forall l ctx,
     predict_alter_level fv l ctx
     = Spec.worst_level (has_flag fv (alter_flags l))
         (Spec.op_level (8 <=? db_version_major ctx) (engine_change fv l))
         all_flags
     /\ predict_alter_algorithm fv l ctx
        = Spec.label (predict_alter_level fv l ctx))
  /\ (forall sv env thd node ctx,
        ddl_algorithm (audit_alter_table sv fv env thd node ctx).1
        = Spec.label
            (Spec.worst_level (has_flag fv (alter_flags (lex thd)))
               (Spec.op_level (8 <=? db_version_major ctx)
                  (engine_change fv (lex thd)))
               all_flags))
  /\ (Spec.separate_bits fv ->
      forall (ctx : InceptionContext) (used : Z),
        8 <= db_version_major ctx ->
        test used (HA_CREATE_USED_ENGINE fv) = true ->
        predict_alter_algorithm fv
          (alter_stmt fv [ALTER_ADD_COLUMN; ALTER_ADD_INDEX] None) ctx
        = "INPLACE"
        /\ predict_alter_algorithm fv
             (alter_stmt fv [ALTER_ADD_COLUMN; ALTER_ADD_INDEX;
                             ALTER_RECREATE] None) ctx
           = "COPY"
        /\ predict_alter_algorithm fv
             (alter_stmt fv [ALTER_ADD_COLUMN; ALTER_ADD_INDEX;
                             ALTER_OPTIONS] (Some used)) ctx
           = "COPY"
        /\ predict_alter_algorithm fv (alter_stmt fv [ALTER_RENAME] None) ctx
           = "INSTANT").
Proof.
  split; [|split].
  - intros l ctx. split.
    + apply predict_alter_level_worst.
    + apply algorithm_label_spec.
  - intros sv env thd node ctx.
    rewrite audit_alter_table_ddl_algorithm. unfold predict_alter_algorithm.
    rewrite algorithm_label_spec, predict_alter_level_worst. reflexivity.
  - intros Hsep ctx used Hv Hengine.
    assert (H80 : (8 <=? db_version_major ctx) = true) by (apply Z.leb_le, Hv).
    unfold predict_alter_algorithm.
    rewrite !predict_alter_stmt by exact Hsep.
    unfold engine_change. simpl create_info_used_fields.
    rewrite H80, Hengine.
    repeat split; vm_compute; reflexivity.
Qed.

Lemma sample_flags_separate_bits : Spec.separate_bits sample_flags.
Proof. intros f g. destruct f, g; vm_compute; reflexivity. Qed.

Lemma predict_alter_algorithm_is_worst_witness :
  let ctx := fresh_context in
  let fv := sample_flags in
  predict_alter_algorithm fv
    (alter_stmt fv [ALTER_ADD_COLUMN; ALTER_ADD_INDEX] None) ctx
  = "INPLACE"
  /\ predict_alter_algorithm fv
       (alter_stmt fv [ALTER_ADD_COLUMN; ALTER_ADD_INDEX; ALTER_RECREATE]
          None) ctx
     = "COPY"
  /\ predict_alter_algorithm fv
       (alter_stmt fv [ALTER_ADD_COLUMN; ALTER_ADD_INDEX; ALTER_OPTIONS]
          (Some (2 ^ 12))) ctx
     = "COPY"
  /\ predict_alter_algorithm fv (alter_stmt fv [ALTER_RENAME] None) ctx
     = "INSTANT".
Proof.
  intros ctx fv.
  apply (proj2 (proj2 (predict_alter_algorithm_is_worst fv))
           sample_flags_separate_bits ctx (2 ^ 12)).
  - vm_compute. discriminate.
  - vm_compute. reflexivity.
Defined.

End Prediction.

(** ** The execution engine: batch gating and cancellation *)

Section Execution.
Import Context Server Remote Exec Examples Spec.

Lemma pre_scan_true_iff force_ iw nodes :
  pre_scan force_ iw nodes = true
  <-> exists n, n ∈ nodes /\ blocks force_ iw n.
Proof.
  unfold blocks. induction nodes as [|node rest IH]; simpl.
  - split; [discriminate|]. intros (n & Hin & _). inversion Hin.
  - destruct (Z.leb_spec ERRLEVEL_ERROR (errlevel node)) as [He|He];
      destruct (Z.leb_spec ERRLEVEL_WARNING (errlevel node)) as [Hw|Hw];
      destruct force_, iw; simpl;
      try (split; [intros _; exists node; split; [left|tauto]|reflexivity]);
      rewrite IH; (split; intros (n & Hin & Hn);
        [exists n; split; [right; exact Hin|exact Hn]|]);
      (apply elem_of_cons in Hin as [->|Hin]; [|exists n; tauto]);
      exfalso; unfold ERRLEVEL_ERROR, ERRLEVEL_WARNING in *;
      destruct Hn as [[? ?]|[? ?]]; try discriminate; lia.
Qed.

Lemma killed_load_killed env k ctx :
  killed (load_killed env k ctx) = kill_arrives env k || killed ctx.
Proof. unfold load_killed. destruct (kill_arrives env k); reflexivity. Qed.

Lemma cache_nodes_load_killed env k ctx :
  cache_nodes (load_killed env k ctx) = cache_nodes ctx.
Proof. unfold load_killed. destruct (kill_arrives env k); reflexivity. Qed.

(** C1, as stated, fails: with an audit error on the second of three
    statements and [force] off, a target that cannot be reached leaves
    all three statements in stage executed, not checked, with the status
    "Execute failed"; none of them was sent. *)
Lemma blocked_batch_executed_on_connect_failure :
  let ctx := execute_session batch_with_error in
  let r := execute_statements quiet_sysvars unreachable idle_client ctx in
  force ctx = false
  /\ map errlevel batch_with_error = [0; ERRLEVEL_ERROR; 0]
  /\ map stage batch_with_error
     = [STAGE_CHECKED; STAGE_CHECKED; STAGE_CHECKED]
  /\ map stage (cache_nodes r.1.2)
     = [STAGE_EXECUTED; STAGE_EXECUTED; STAGE_EXECUTED]
  /\ map stage_status (cache_nodes r.1.2)
     = ["Execute failed"; "Execute failed"; "Execute failed"]
  /\ r.2 = []
  /\ STAGE_EXECUTED <> STAGE_CHECKED.
Proof. vm_compute. repeat split; discriminate. Qed.

(** C1, amended.  A batch that holds a statement with an error while
    [force] is off, or with a warning or error while [ignore_warnings] is
    off, is never run: nothing is sent to the target and the engine
    reports an error.  What becomes of the statement records depends on
    how far the engine gets.  When the session is not killed and the
    target is reached, the pre-scan blocks the batch and the records stay
    as they are, so every stage that was checked is still checked.  When
    the session is not killed and the target cannot be reached, every
    statement has the connection error recorded and is given the stage
    executed with the status "Execute failed".  When the session is found
    killed on entry, every statement is given the stage executed with the
    status "Killed by user". *)
Theorem pre_scan_blocks_batch sv env thd ctx :
  (exists n, n ∈ cache_nodes ctx
     /\ ((ERRLEVEL_ERROR <= errlevel n /\ force ctx = false)
         \/ (ERRLEVEL_WARNING <= errlevel n /\ ignore_warnings ctx = false))) ->
  let r := execute_statements sv env thd ctx in
  r.2 = []
  /\ r.1.1 = true
  /\ (forall m,
        killed ctx = false ->
        kill_arrives env 0 = false ->
        exec_connect env = Connected m ->
        cache_nodes r.1.2 = cache_nodes ctx
        /\ Forall2 (fun before after => stage after = stage before)
             (cache_nodes ctx) (cache_nodes r.1.2))
  /\ (forall conn_err,
        killed ctx = false ->
        kill_arrives env 0 = false ->
        connect_remote env ctx = inr conn_err ->
        cache_nodes r.1.2 = map (mark_unreachable conn_err) (cache_nodes ctx)
        /\ Forall (fun after => stage after = STAGE_EXECUTED
                                /\ stage_status after = "Execute failed")
             (cache_nodes r.1.2))
  /\ (killed ctx = true \/ kill_arrives env 0 = true ->
        cache_nodes r.1.2 = map mark_killed (cache_nodes ctx)
        /\ Forall (fun after => stage after = STAGE_EXECUTED
                                /\ stage_status after = "Killed by user")
             (cache_nodes r.1.2)).
Proof.
  intros Hblock.
  assert (Hne : cache_nodes ctx <> []).
  { destruct Hblock as (n & Hin & _). intros Heq. rewrite Heq in Hin.
    inversion Hin. }
  apply pre_scan_true_iff in Hblock.
  unfold execute_statements.
  rewrite bool_decide_eq_false_2 by exact Hne.
  pose proof (killed_load_killed env 0 ctx) as Hk0.
  destruct (killed (load_killed env 0 ctx)) eqn:Hk; simpl.
  - symmetry in Hk0. apply orb_true_iff in Hk0.
    split; [reflexivity|]. split; [reflexivity|].
    split; [|split].
    + intros m Hc Ha. rewrite Hc, Ha in Hk0. destruct Hk0; discriminate.
    + intros e Hc Ha. rewrite Hc, Ha in Hk0. destruct Hk0; discriminate.
    + intros _. rewrite cache_nodes_load_killed.
      split; [reflexivity|]. apply Forall_fmap, Forall_forall.
      intros node _. split; reflexivity.
  - symmetry in Hk0. apply orb_false_elim in Hk0 as [Ha Hc].
    assert (Hload : load_killed env 0 ctx = ctx)
      by (unfold load_killed; rewrite Ha; reflexivity).
    rewrite Hload.
    destruct (connect_remote env ctx) as [mysql|e] eqn:Hconn; simpl.
    + rewrite Hblock. simpl.
      split; [reflexivity|]. split; [reflexivity|].
      split; [|split].
      * intros m _ _ _. split; [reflexivity|].
        apply Forall2_same_length_lookup. split; [reflexivity|].
        intros i x y Hx Hy. congruence.
      * intros e _ _ He. discriminate.
      * intros [H|H]; congruence.
    + split; [reflexivity|]. split; [reflexivity|].
      split; [|split].
      * intros m _ _ Hm. unfold connect_remote in Hconn.
        rewrite Hm in Hconn. discriminate.
      * intros e' _ _ He. injection He as <-.
        split; [reflexivity|]. apply Forall_fmap, Forall_forall.
        intros node _. split; reflexivity.
      * intros [H|H]; congruence.
Qed.

Lemma pre_scan_blocks_batch_witness :
  let blocked := execute_session batch_with_error in
  let warned := execute_session batch_with_warning in
  let run env ctx := execute_statements quiet_sysvars env idle_client ctx in
  let text := "Cannot connect to remote 127.0.0.1:3306: Connection refused" in
  ((run (calm_env reachable reachable) blocked).2 = []
   /\ cache_nodes (run (calm_env reachable reachable) blocked).1.2
      = batch_with_error
   /\ Forall2 (fun before after => stage after = stage before)
        batch_with_error
        (cache_nodes (run (calm_env reachable reachable) blocked).1.2))
  /\ ((run (calm_env reachable reachable) warned).2 = []
      /\ cache_nodes (run (calm_env reachable reachable) warned).1.2
         = batch_with_warning)
  /\ ((run unreachable blocked).2 = []
      /\ cache_nodes (run unreachable blocked).1.2
         = map (mark_unreachable text) batch_with_error)
  /\ ((run (killed_at 0) blocked).2 = []
      /\ cache_nodes (run (killed_at 0) blocked).1.2
         = map mark_killed batch_with_error).
Proof.
  intros blocked warned run text.
  assert (Hblocked : exists n, n ∈ cache_nodes blocked
            /\ ((ERRLEVEL_ERROR <= errlevel n /\ force blocked = false)
                \/ (ERRLEVEL_WARNING <= errlevel n
                    /\ ignore_warnings blocked = false))).
  { exists (audited 2 "CREATE TABLE t (id INT)" SQLCOM_CREATE_TABLE 2).
    split; [right; left|left].
    split; [vm_compute; discriminate|reflexivity]. }
  assert (Hwarned : exists n, n ∈ cache_nodes warned
            /\ ((ERRLEVEL_ERROR <= errlevel n /\ force warned = false)
                \/ (ERRLEVEL_WARNING <= errlevel n
                    /\ ignore_warnings warned = false))).
  { exists (audited 3 "DELETE FROM t1" SQLCOM_DELETE 1).
    split; [right; right; left|right].
    split; [vm_compute; discriminate|reflexivity]. }
  pose proof (pre_scan_blocks_batch quiet_sysvars
                (calm_env reachable reachable) idle_client blocked Hblocked)
    as (Hsent1 & _ & Hreached1 & _).
  pose proof (pre_scan_blocks_batch quiet_sysvars
                (calm_env reachable reachable) idle_client warned Hwarned)
    as (Hsent2 & _ & Hreached2 & _).
  pose proof (pre_scan_blocks_batch quiet_sysvars unreachable idle_client
                blocked Hblocked)
    as (Hsent3 & _ & _ & Hfailed & _).
  pose proof (pre_scan_blocks_batch quiet_sysvars (killed_at 0) idle_client
                blocked Hblocked)
    as (Hsent4 & _ & _ & _ & Hkilled).
  split; [|split; [|split]].
  - split; [exact Hsent1|].
    apply (Hreached1 (server "8.0.32")); reflexivity.
  - split; [exact Hsent2|].
    apply (Hreached2 (server "8.0.32")); reflexivity.
  - split; [exact Hsent3|].
    apply (Hfailed text); reflexivity.
  - split; [exact Hsent4|].
    apply Hkilled. right. reflexivity.
Defined.

(** *** Cancellation *)

Lemma killed_wait_if_throttled sv env slaves idx ctx :
  killed (wait_if_throttled sv env slaves idx ctx) = killed ctx.
Proof.
  unfold wait_if_throttled, wait_for_remote_ready.
  destruct (_ || _); [|reflexivity].
  destruct (wait_stats env idx) as [[r|] [d|]]; reflexivity.
Qed.

Lemma killed_pre_execute_checks sv env slaves idx node ctx :
  killed (pre_execute_checks sv env slaves idx node ctx).2 = killed ctx.
Proof.
  unfold pre_execute_checks.
  destruct (Sysvars.opt_exec_check_read_only sv);
    [destruct (read_only_query env idx) as [err|[|]]|]; simpl;
    try reflexivity; apply killed_wait_if_throttled.
Qed.

(** What a round does to the loop state, by the case it takes. *)
Lemma exec_round_cases sv env thd slaves st idx node :
  let st' := exec_round sv env thd slaves st idx node in
  killed (ls_ctx st') = kill_arrives env idx || killed (ls_ctx st)
  /\ (killed (ls_ctx st') = true ->
      ls_sent st' = ls_sent st
      /\ ls_done st' = ls_done st ++ [mark_killed node])
  /\ (ls_sent st' = ls_sent st
      \/ exists text, ls_sent st' = ls_sent st ++ [(idx, text)]
                      /\ killed (ls_ctx st') = false)
  /\ exists node', ls_done st' = ls_done st ++ [node'].
Proof.
  unfold exec_round. rewrite <- killed_load_killed.
  destruct (killed (load_killed env idx (ls_ctx st))) eqn:Hk; simpl.
  { rewrite Hk. repeat split; eauto. }
  destruct (ls_stop_exec st); simpl.
  { rewrite Hk. repeat split; try discriminate; eauto. }
  pose proof (killed_pre_execute_checks sv env slaves idx node
                (load_killed env idx (ls_ctx st))) as Hpre.
  destruct (pre_execute_checks sv env slaves idx node
              (load_killed env idx (ls_ctx st))) as [[blocked node1] ctx1].
  simpl in Hpre. rewrite Hk in Hpre.
  destruct blocked; simpl.
  { rewrite Hpre. repeat split; try discriminate; eauto. }
  destruct (execute_one env idx node1) as [[failed node2] [text|]]; simpl;
    rewrite Hpre; repeat split; try discriminate; eauto.
Qed.

Lemma exec_loop_sent sv env thd slaves nodes : forall st idx k text,
  (k, text) ∈ ls_sent (exec_loop sv env thd slaves st idx nodes) ->
  (k, text) ∈ ls_sent st
  \/ ((idx < k)%nat /\ killed (ls_ctx st) = false
      /\ forall j, (idx < j <= k)%nat -> kill_arrives env j = false).
Proof.
  induction nodes as [|node rest IH]; intros st idx k text Hin; simpl in Hin.
  - left. exact Hin.
  - destruct (exec_round_cases sv env thd slaves st (S idx) node)
      as (Hkill & _ & Hsent & _).
    apply IH in Hin as [Hin|(Hlt & Hk' & Hnone)].
    + destruct Hsent as [Heq|(t & Heq & Hk')]; rewrite Heq in Hin.
      * left. exact Hin.
      * apply elem_of_app in Hin as [Hin|Hin]; [left; exact Hin|].
        apply list_elem_of_singleton in Hin. injection Hin as -> ->.
        rewrite Hkill in Hk'. apply orb_false_elim in Hk' as [Ha Hb].
        right. split; [lia|]. split; [exact Hb|].
        intros j Hj. assert (j = S idx) as -> by lia. exact Ha.
    + rewrite Hkill in Hk'. apply orb_false_elim in Hk' as [Ha Hb].
      right. split; [lia|]. split; [exact Hb|].
      intros j Hj. destruct (decide (j = S idx)) as [->|Hne]; [exact Ha|].
      apply Hnone. lia.
Qed.

Lemma exec_loop_done sv env thd slaves nodes : forall st idx,
  exists processed,
    ls_done (exec_loop sv env thd slaves st idx nodes)
    = ls_done st ++ processed
    /\ List.length processed = List.length nodes
    /\ forall i node,
         nodes !! i = Some node ->
         (killed (ls_ctx st) = true
          \/ exists j, (idx < j <= idx + 1 + i)%nat
                       /\ kill_arrives env j = true) ->
         processed !! i = Some (mark_killed node).
Proof.
  induction nodes as [|node rest IH]; intros st idx; simpl.
  - exists []. rewrite app_nil_r. repeat split. intros i n Hi. inversion Hi.
  - destruct (exec_round_cases sv env thd slaves st (S idx) node)
      as (Hkill & Hmark & _ & (node' & Hdone)).
    destruct (IH (exec_round sv env thd slaves st (S idx) node) (S idx))
      as (processed & Heq & Hlen & Hall).
    exists (node' :: processed). split; [|split].
    + rewrite Heq, Hdone, <- app_assoc. reflexivity.
    + simpl. rewrite Hlen. reflexivity.
    + intros i n Hi Hk. destruct i as [|i]; simpl in *.
      * injection Hi as ->.
        assert (Hk' : killed (ls_ctx (exec_round sv env thd slaves st
                                        (S idx) n)) = true).
        { rewrite Hkill. destruct Hk as [Hk|(j & Hj & Hk)].
          - rewrite Hk. apply orb_true_r.
          - assert (j = S idx) as -> by lia. rewrite Hk. reflexivity. }
        destruct (Hmark Hk') as [_ Hd]. rewrite Hd in Hdone.
        apply app_inv_head in Hdone. injection Hdone as <-. reflexivity.
      * apply (Hall i n Hi). rewrite Hkill.
        destruct Hk as [Hk|(j & Hj & Hk)].
        -- left. rewrite Hk. apply orb_true_r.
        -- destruct (decide (j = S idx)) as [->|Hne].
           ++ left. rewrite Hk. reflexivity.
           ++ right. exists j. split; [lia|exact Hk].
Qed.

(** C2, as stated, fails: a statement whose round finds [killed] set is
    not run, yet it is the stage executed that it is given. *)
Lemma killed_statement_gets_stage_executed :
  let nodes := [audited 1 "INSERT INTO t VALUES (1)" SQLCOM_INSERT 0;
                audited 2 "INSERT INTO t VALUES (2)" SQLCOM_INSERT 0] in
  let r := execute_statements quiet_sysvars (killed_at 2)
             idle_client (execute_session nodes) in
  map stage nodes = [STAGE_CHECKED; STAGE_CHECKED]
  /\ r.2 = [(1%nat, "INSERT INTO t VALUES (1)")]
  /\ map stage (cache_nodes r.1.2) = [STAGE_EXECUTED; STAGE_EXECUTED]
  /\ map stage_status (cache_nodes r.1.2)
     = ["Execute completed"; "Killed by user"].
Proof. vm_compute. repeat split. Qed.

(** C2, amended.  Once [killed] is set, nothing more is sent to the
    target: a statement that was sent had its look, and every look before
    it, find the flag clear.  A statement whose look finds the flag set
    is not sent; its record is given the stage executed and the status
    "Killed by user".  When the flag is found set on entry this happens
    to every statement of the batch. *)
Theorem killed_stops_dispatch sv env thd ctx :
  let r := execute_statements sv env thd ctx in
  (forall k text,
     (k, text) ∈ r.2 ->
     killed ctx = false
     /\ forall j, (j <= k)%nat -> kill_arrives env j = false)
  /\ (forall i node,
        cache_nodes ctx !! i = Some node ->
        killed_by env ctx 0 ->
        cache_nodes r.1.2 !! i = Some (mark_killed node))
  /\ (forall m i node,
        exec_connect env = Connected m ->
        pre_scan (force ctx) (ignore_warnings ctx) (cache_nodes ctx) = false ->
        cache_nodes ctx !! i = Some node ->
        killed_by env ctx (S i) ->
        cache_nodes r.1.2 !! i = Some (mark_killed node)).
Proof.
  unfold execute_statements.
  destruct (bool_decide_reflect (cache_nodes ctx = [])) as [Hnil|Hne].
  { simpl. split; [intros k t Hin; inversion Hin|].
    split; intros; rewrite Hnil in *; discriminate. }
  pose proof (killed_load_killed env 0 ctx) as Hk0.
  destruct (killed (load_killed env 0 ctx)) eqn:Hk; simpl.
  { split; [intros k t Hin; inversion Hin|].
    assert (Hall : forall i node, cache_nodes ctx !! i = Some node ->
              map mark_killed (cache_nodes (load_killed env 0 ctx)) !! i
              = Some (mark_killed node)).
    { intros i node Hi. rewrite list_lookup_fmap.
      replace (cache_nodes (load_killed env 0 ctx)) with (cache_nodes ctx)
        by (unfold load_killed; destruct (kill_arrives env 0); reflexivity).
      rewrite Hi. reflexivity. }
    split; intros; apply Hall; assumption. }
  symmetry in Hk0. apply orb_false_elim in Hk0 as [Ha Hc].
  assert (Hload : load_killed env 0 ctx = ctx)
    by (unfold load_killed; rewrite Ha; reflexivity).
  rewrite Hload.
  assert (Hnot0 : ~ killed_by env ctx 0).
  { intros [H|(j & Hj & H)]; [congruence|].
    assert (j = 0)%nat as -> by lia. congruence. }
  destruct (connect_remote env ctx) as [mysql|err] eqn:Hconn; simpl.
  2:{ split; [intros k t Hin; inversion Hin|].
      split; [intros i node _ H; destruct (Hnot0 H)|].
      intros m i node Hm. unfold connect_remote in Hconn. rewrite Hm in Hconn.
      discriminate. }
  destruct (pre_scan (force ctx) (ignore_warnings ctx) (cache_nodes ctx))
    eqn:Hscan; simpl.
  { split; [intros k t Hin; inversion Hin|].
    split; [intros i node _ H; destruct (Hnot0 H)|]. discriminate. }
  set (slaves := if 0 <? Sysvars.opt_exec_max_replication_delay sv
                 then filter _ _ else []).
  set (st0 := Build_LoopState _ false false [] []).
  split; [|split].
  - intros k text Hin.
    apply exec_loop_sent in Hin as [Hin|(Hlt & _ & Hnone)];
      [inversion Hin|].
    split; [exact Hc|]. intros j Hj.
    destruct (decide (j = 0)%nat) as [->|Hj0]; [exact Ha|].
    apply Hnone. lia.
  - intros i node _ H. destruct (Hnot0 H).
  - intros m i node _ _ Hi Hkilled.
    destruct (exec_loop_done sv env thd slaves (cache_nodes ctx) st0 0)
      as (processed & Heq & _ & Hall).
    rewrite Heq. simpl. apply (Hall i node Hi).
    destruct Hkilled as [H|(j & Hj & H)]; [simpl; congruence|].
    right. exists j. split; [|exact H].
    destruct (decide (j = 0)%nat) as [->|Hj0]; [congruence|lia].
Qed.

Lemma killed_stops_dispatch_witness :
  let nodes := [audited 1 "INSERT INTO t VALUES (1)" SQLCOM_INSERT 0;
                audited 2 "INSERT INTO t VALUES (2)" SQLCOM_INSERT 0] in
  let ctx := execute_session nodes in
  let thd := idle_client in
  let r := execute_statements quiet_sysvars (killed_at 2) thd ctx in
  (killed ctx = false
   /\ forall j, (j <= 1)%nat -> kill_arrives (killed_at 2) j = false)
  /\ cache_nodes r.1.2 !! 1%nat
     = Some (mark_killed
               (audited 2 "INSERT INTO t VALUES (2)" SQLCOM_INSERT 0))
  /\ cache_nodes
       (execute_statements quiet_sysvars (killed_at 0) thd ctx).1.2 !! 0%nat
     = Some (mark_killed
               (audited 1 "INSERT INTO t VALUES (1)" SQLCOM_INSERT 0)).
Proof.
  intros nodes ctx thd.
  pose proof (killed_stops_dispatch quiet_sysvars (killed_at 2) thd ctx)
    as (Hsent & _ & Hround).
  pose proof (killed_stops_dispatch quiet_sysvars (killed_at 0) thd ctx)
    as (_ & Hentry & _).
  split; [|split].
  - apply (Hsent 1%nat "INSERT INTO t VALUES (1)"). vm_compute. left.
  - apply (Hround (server "8.0.32") 1%nat); try reflexivity.
    right. exists 2%nat. split; [lia|reflexivity].
  - apply Hentry; [reflexivity|].
    right. exists 0%nat. split; [lia|reflexivity].
Defined.

End Execution.

(** ** Session markers *)

Section Markers.
Import CStr Context Server Remote Parse Inception Examples Spec.

(** *** The tokenizer never runs out of rounds *)

Lemma skip_whitespace_upto_ge n q p : (p <= skip_whitespace_upto n q p)%nat.
Proof.
  revert p. induction n as [|n IH]; intros p; simpl; [lia|].
  destruct (is_blank (char_at q p)); [|lia].
  specialize (IH (S p)). lia.
Qed.

Lemma memchr_ge q c n : forall p i, memchr q p c n = Some i -> (p <= i)%nat.
Proof.
  induction n as [|n IH]; intros p i; simpl; [discriminate|].
  destruct (Ascii.eqb (char_at q p) c).
  - intros [= <-]. lia.
  - intros H. apply IH in H. lia.
Qed.

Lemma parse_tokens_fuel q comment_end : forall fuel1 fuel2 p ctx,
  (comment_end - p <= fuel1)%nat -> (comment_end - p <= fuel2)%nat ->
  parse_tokens fuel1 q p comment_end ctx
  = parse_tokens fuel2 q p comment_end ctx.
Proof.
  induction fuel1 as [|fuel1 IH]; intros fuel2 p ctx H1 H2.
  - destruct fuel2; simpl; [reflexivity|].
    destruct (Nat.ltb_spec p comment_end); [lia|reflexivity].
  - destruct fuel2 as [|fuel2]; simpl.
    { destruct (Nat.ltb_spec p comment_end); [lia|reflexivity]. }
    destruct (Nat.ltb_spec p comment_end) as [Hlt|]; [|reflexivity].
    pose proof (skip_whitespace_upto_ge (comment_end - p) q p) as Hp1.
    fold (skip_whitespace q p comment_end) in Hp1.
    set (p1 := skip_whitespace q p comment_end) in *.
    destruct (Nat.leb_spec comment_end p1); [reflexivity|].
    assert (Hsemi : (p1 <= match memchr q p1 ";" (comment_end - p1) with
                           | Some s => s
                           | None => comment_end
                           end)%nat).
    { destruct (memchr q p1 ";" (comment_end - p1)) as [s|] eqn:Hm;
        [apply memchr_ge in Hm|]; lia. }
    set (semi := match memchr q p1 ";" (comment_end - p1) with
                 | Some s => s
                 | None => comment_end
                 end) in *.
    assert (Hrec : forall c,
              parse_tokens fuel1 q (semi + 1) comment_end c
              = parse_tokens fuel2 q (semi + 1) comment_end c)
      by (intros c; apply IH; lia).
    repeat first
      [ apply Hrec
      | match goal with
        | |- context [if ?b then _ else _] => destruct b
        | |- context [match ?o with Some _ => _ | None => _ end] =>
            destruct o
        end ].
Qed.

(** Nor does the loop over the slave hosts. *)
Lemma parse_slave_hosts_fuel v : forall fuel1 fuel2 pos acc,
  (String.length v - pos <= fuel1)%nat ->
  (String.length v - pos <= fuel2)%nat ->
  parse_slave_hosts fuel1 v pos acc = parse_slave_hosts fuel2 v pos acc.
Proof.
  induction fuel1 as [|fuel1 IH]; intros fuel2 pos acc H1 H2.
  - destruct fuel2; simpl; [reflexivity|].
    destruct (Nat.ltb_spec pos (String.length v)); [lia|reflexivity].
  - destruct fuel2 as [|fuel2]; simpl.
    { destruct (Nat.ltb_spec pos (String.length v)); [lia|reflexivity]. }
    destruct (Nat.ltb_spec pos (String.length v)) as [Hlt|]; [|reflexivity].
    assert (Hc : (pos <= match find_char v "," pos with
                         | Some c => c
                         | None => String.length v
                         end)%nat).
    { unfold find_char.
      destruct (memchr v pos "," (String.length v - pos)) as [c|] eqn:Hm;
        [apply memchr_ge in Hm|]; lia. }
    apply IH; lia.
Qed.

(** *** What the option parser leaves alone *)

Lemma parse_option_kept q key key_len val val_len ctx :
  let ctx' := parse_option q key key_len val val_len ctx in
  (batch_state ctx', active ctx') = (batch_state ctx, active ctx).
Proof.
  unfold parse_option.
  repeat match goal with
         | |- context [if ?b then _ else _] => destruct b
         end; reflexivity.
Qed.

Lemma parse_tokens_kept q comment_end : forall fuel p ctx,
  let ctx' := parse_tokens fuel q p comment_end ctx in
  (batch_state ctx', active ctx') = (batch_state ctx, active ctx).
Proof.
  induction fuel as [|fuel IH]; intros p ctx; simpl; [reflexivity|].
  repeat first
    [ reflexivity
    | apply IH
    | match goal with
      | |- context [parse_option ?a ?b ?c ?d ?e ctx] =>
          rewrite (IH _ (parse_option a b c d e ctx));
          apply parse_option_kept
      | |- context [if ?b then _ else _] => destruct b
      | |- context [match ?o with Some _ => _ | None => _ end] =>
          destruct o
      end ].
Qed.

Lemma global_credentials_kept sv cr ctx :
  let ctx' := global_credentials sv cr ctx in
  (batch_state ctx', active ctx') = (batch_state ctx, active ctx)
  /\ port ctx' = port ctx /\ explicit_port ctx' = explicit_port ctx
  /\ host ctx' = host ctx.
Proof.
  unfold global_credentials.
  repeat match goal with
         | |- context [if ?b then _ else _] => destruct b
         | |- context [match ?o with Some _ => _ | None => _ end] =>
             destruct o
         end; repeat split; reflexivity.
Qed.

Lemma get_remote_conn_kept env ctx :
  let ctx' := (Audit.get_remote_conn env ctx).2 in
  (batch_state ctx', active ctx') = (batch_state ctx, active ctx).
Proof.
  unfold Audit.get_remote_conn.
  destruct (remote_conn ctx); [reflexivity|].
  destruct (remote_conn_failed ctx); [reflexivity|].
  destruct (audit_connect env); reflexivity.
Qed.

Lemma maybe_detect_kept env ctx :
  let ctx' := maybe_detect_remote_db_profile env ctx in
  (batch_state ctx', active ctx') = (batch_state ctx, active ctx).
Proof.
  unfold maybe_detect_remote_db_profile.
  pose proof (get_remote_conn_kept env ctx) as H.
  destruct (Audit.get_remote_conn env ctx) as [[m|] ctx1]; simpl in H;
    [|exact H].
  repeat match goal with
         | |- context [if ?b then _ else _] => destruct b
         | |- context [match ?o with Some _ => _ | None => _ end] =>
             destruct o
         | |- context [let '(_, _) := ?p in _] => destruct p
         end; exact H.
Qed.

(** The outcome of [parse_inception_start], whatever the context held
    before: a failure leaves the session closed, a success opens it, and
    either way the caches of the batch are those of a reset context. *)
Lemma parse_inception_start_outcome sv cr q ctx :
  let r := parse_inception_start sv cr q ctx in
  batch_state r.2 = batch_state (reset ctx)
  /\ active r.2 = negb r.1.
Proof.
  unfold parse_inception_start.
  destruct (_ || _); [split; reflexivity|].
  match goal with
  | |- context [global_credentials sv cr ?c] =>
      destruct (global_credentials_kept sv cr c) as (Hk & _);
      set (c1 := global_credentials sv cr c) in *;
      match c with
      | parse_tokens ?f ?q ?p ?e ?c0 =>
          pose proof (parse_tokens_kept q e f p c0) as Ht
      end
  end.
  simpl in Hk, Ht. rewrite Ht in Hk.
  pose proof (f_equal fst Hk) as Hb. pose proof (f_equal snd Hk) as Ha.
  simpl in Hb, Ha.
  destruct (explicit_port c1 && _); simpl; split;
    first [exact Hb | exact Ha | reflexivity].
Qed.

Lemma batch_state_cache_nodes c1 c2 :
  batch_state c1 = batch_state c2 -> cache_nodes c1 = cache_nodes c2.
Proof. intros H. exact (f_equal (fun t => t.1.1.1.1.1.1.1) H). Qed.

Lemma cstr_head q : forall p,
  match cstr q p with
  | String c _ => char_at q p = c
  | EmptyString => char_at q p = NUL
  end.
Proof.
  induction q as [|c q IH]; intros p.
  - destruct p; reflexivity.
  - destruct p as [|p]; simpl; [reflexivity|]. apply IH.
Qed.

Lemma strncasecmp_head n q p c2 rest :
  strncasecmp (S n) (cstr q p) (String c2 rest) = true ->
  tolower (char_at q p) = tolower c2.
Proof.
  pose proof (cstr_head q p) as Hh. simpl.
  destruct (cstr q p) as [|c r]; [discriminate|].
  rewrite Hh. destruct (Ascii.eqb_spec (tolower c) (tolower c2)); [auto|].
  discriminate.
Qed.

(** A query that opens with a comment is never an admin command. *)
Lemma marker_is_not_a_command thd marker :
  has_marker (thd_query thd) marker = true ->
  handle_inception_command thd = false.
Proof.
  unfold has_marker, handle_inception_command.
  set (q := thd_query thd).
  destruct (String.length q <? 24)%nat; [discriminate|].
  set (p := skip_whitespace q 0 (String.length q)).
  unfold first_comment_len.
  destruct (Ascii.eqb_spec (char_at q p) "/") as [Hc|Hc].
  2:{ rewrite orb_true_r. simpl. discriminate. }
  intros _.
  assert (Hno : forall n rest,
            strncasecmp (S n) (cstr q p) (String "i" rest) = false).
  { intros n rest.
    destruct (strncasecmp (S n) (cstr q p) (String "i" rest)) eqn:H;
      [|reflexivity].
    apply strncasecmp_head in H. rewrite Hc in H. vm_compute in H.
    discriminate. }
  rewrite !Hno. rewrite !andb_false_r. reflexivity.
Qed.

(** C9, as stated, fails: a second start marker in an open session is
    not an error; the statements cached so far are dropped and a new
    batch is open. *)
Lemma second_start_marker_is_accepted :
  let ctx := set_cache_nodes
               [audited 1 "CREATE TABLE t (id INT)" SQLCOM_CREATE_TABLE 0]
               (set_next_id 2 (set_active true fresh_context)) in
  let thd := client start_marker (plain_lex SQLCOM_SELECT) in
  let r := before_parse quiet_sysvars no_crypto
             (calm_env reachable reachable) thd ctx in
  active ctx = true
  /\ is_inception_start (thd_query thd) = true
  /\ r.1.1 = false
  /\ r.2 = []
  /\ active r.1.2 = true
  /\ cache_nodes r.1.2 = []
  /\ host r.1.2 = "h".
Proof. vm_compute. repeat split. Qed.

(** C9, amended.  A start marker is handled the same way whether or not
    the session is open: the context is reset, so the caches of a batch
    in progress are dropped, and then either the marker is rejected for
    what it says (the one error there is, which leaves the session
    closed) or a new batch is open.  Nothing looks at whether a batch was
    open before. *)
Theorem start_marker_resets_session sv cr env thd ctx :
  is_inception_commit (thd_query thd) = false ->
  is_inception_start (thd_query thd) = true ->
  let r := before_parse sv cr env thd ctx in
  batch_state r.1.2 = batch_state (reset ctx)
  /\ cache_nodes r.1.2 = []
  /\ ((r.1.1 = true
       /\ r.2 = [OutError "Failed to parse inception_magic_start comment"]
       /\ active r.1.2 = false)
      \/ (r.1.1 = false /\ r.2 = [] /\ active r.1.2 = true))
  /\ r = before_parse sv cr env thd (set_active (negb (active ctx)) ctx).
Proof.
  intros Hcommit Hstart. unfold before_parse.
  rewrite Hcommit, Hstart. unfold setup_inception_session.
  assert (Hreset : parse_inception_start sv cr (thd_query thd)
                     (set_active (negb (active ctx)) ctx)
                   = parse_inception_start sv cr (thd_query thd) ctx)
    by reflexivity.
  rewrite Hreset.
  destruct (parse_inception_start_outcome sv cr (thd_query thd) ctx)
    as [Hb Ha].
  destruct (parse_inception_start sv cr (thd_query thd) ctx)
    as [failed ctx1]. simpl in Hb, Ha.
  destruct failed; simpl.
  - split; [exact Hb|]. split; [exact (batch_state_cache_nodes _ _ Hb)|].
    split; [|reflexivity]. left. repeat split. exact Ha.
  - rewrite (marker_is_not_a_command thd _ Hstart). simpl.
    pose proof (maybe_detect_kept env ctx1) as Hd. simpl in Hd.
    pose proof (f_equal fst Hd) as Hd1. pose proof (f_equal snd Hd) as Hd2.
    simpl in Hd1, Hd2. rewrite Hb in Hd1.
    split; [exact Hd1|]. split; [exact (batch_state_cache_nodes _ _ Hd1)|].
    split; [|reflexivity]. right. repeat split. rewrite Hd2. exact Ha.
Qed.

Lemma start_marker_resets_session_witness :
  let ctx := set_cache_nodes
               [audited 1 "CREATE TABLE t (id INT)" SQLCOM_CREATE_TABLE 0]
               (set_next_id 2 (set_active true fresh_context)) in
  let thd := client start_marker (plain_lex SQLCOM_SELECT) in
  let r := before_parse quiet_sysvars no_crypto
             (calm_env reachable reachable) thd ctx in
  batch_state r.1.2 = batch_state (reset ctx)
  /\ cache_nodes r.1.2 = []
  /\ ((r.1.1 = true
       /\ r.2 = [OutError "Failed to parse inception_magic_start comment"]
       /\ active r.1.2 = false)
      \/ (r.1.1 = false /\ r.2 = [] /\ active r.1.2 = true))
  /\ r = before_parse quiet_sysvars no_crypto (calm_env reachable reachable)
           thd (set_active (negb (active ctx)) ctx).
Proof.
  intros ctx thd.
  apply (start_marker_resets_session quiet_sysvars no_crypto
           (calm_env reachable reachable) thd ctx); vm_compute; reflexivity.
Defined.

(** *** The round-trip example of the marker parser *)

(** C7, as stated, fails: the text of the example carries [magic_start],
    not the sentinel [inception_magic_start] the parser looks for, so it
    is not taken for a batch opener and the session stays closed. *)
Lemma spec_marker_is_not_recognised :
  let thd := client spec_marker (plain_lex SQLCOM_SELECT) in
  let r := before_parse quiet_sysvars no_crypto
             (calm_env reachable reachable) thd fresh_context in
  is_inception_start spec_marker = false
  /\ r = (false, fresh_context, [])
  /\ active r.1.2 = false
  /\ host r.1.2 = "".
Proof. vm_compute. repeat split. Qed.

Lemma start_marker_tokens ctx :
  parse_tokens 41 start_marker 2 43 ctx = with_host_h_port_42 ctx.
Proof. vm_compute. reflexivity. Qed.

(** C7, amended.  With the sentinel spelled [inception_magic_start] the
    example is a batch opener; parsing it succeeds and gives the reset
    context with exactly [host = h] and [port = 42] set from the marker
    (user and password come from the configured defaults, and are empty
    when none is configured), the session open, and [SELECT 1] is the
    statement text that stays. *)
Theorem start_marker_round_trip :
  is_inception_start start_marker = true
  /\ (forall sv cr ctx,
        parse_inception_start sv cr start_marker ctx
        = (false,
           set_active true
             (global_credentials sv cr (with_host_h_port_42 (reset ctx)))))
  /\ (forall cr ctx,
        parse_inception_start quiet_sysvars cr start_marker ctx
        = (false, set_active true (with_host_h_port_42 (reset ctx))))
  /\ (let ctx := (parse_inception_start quiet_sysvars no_crypto start_marker
                    fresh_context).2 in
      host ctx = "h" /\ port ctx = 42 /\ user ctx = "" /\ password ctx = ""
      /\ mode ctx = CHECK /\ force ctx = false /\ backup ctx = true
      /\ ignore_warnings ctx = false /\ sleep_ms ctx = 0
      /\ slave_hosts ctx = [] /\ active ctx = true)
  /\ Inception.strip_inception_comment start_marker = "SELECT 1"
  /\ Exec.strip_inception_comment start_marker = "SELECT 1".
Proof.
  assert (Hparse : forall sv cr ctx,
            parse_inception_start sv cr start_marker ctx
            = (false,
               set_active true
                 (global_credentials sv cr
                    (with_host_h_port_42 (reset ctx))))).
  { intros sv cr ctx. unfold parse_inception_start.
    change (String.length start_marker) with 54%nat.
    replace (skip_whitespace start_marker 0 54) with 0%nat
      by (vm_compute; reflexivity).
    replace (find_ci start_marker (0 + 2) (54 - (0 + 2)) "*/")
      with (Some 43%nat) by (vm_compute; reflexivity).
    cbn [Nat.add Nat.sub Nat.leb orb negb char_at].
    replace ((54 <=? 2)%nat || negb (Ascii.eqb (char_at start_marker 0) "/")
             || negb (Ascii.eqb (char_at start_marker 1) "*"))
      with false by (vm_compute; reflexivity).
    rewrite start_marker_tokens.
    destruct (global_credentials_kept sv cr
                (with_host_h_port_42 (reset ctx))) as (_ & Hp & He & _).
    rewrite Hp, He. reflexivity. }
  split; [vm_compute; reflexivity|].
  split; [exact Hparse|].
  split; [intros cr ctx; rewrite Hparse; reflexivity|].
  split; [rewrite Hparse; vm_compute; repeat split|].
  split; vm_compute; reflexivity.
Qed.

(** *** The range check on the port *)

(** C10: the code at the failing input.  The port is cut to 32 bits
    before it is range-checked, so [--port=4294967297] (2^32 + 1) passes
    as port 1 and opens the session, while 70000 and 0 are rejected and
    leave it closed. *)
Theorem port_is_cut_before_the_range_check :
  let parse q := parse_inception_start quiet_sysvars no_crypto q
                   fresh_context in
  let wide := "/*--port=4294967297;inception_magic_start;*/" in
  let thd := client wide (plain_lex SQLCOM_EMPTY_QUERY) in
  let r := before_parse quiet_sysvars no_crypto
             (calm_env reachable reachable) thd fresh_context in
  is_inception_start wide = true
  /\ digits_value "4294967297" 0 = 4294967297
  /\ 65535 < 4294967297
  /\ (parse wide).1 = false
  /\ active (parse wide).2 = true
  /\ explicit_port (parse wide).2 = true
  /\ port (parse wide).2 = 1
  /\ r.1.1 = false /\ r.2 = [] /\ active r.1.2 = true
  /\ (parse "/*--port=70000;inception_magic_start;*/").1 = true
  /\ active (parse "/*--port=70000;inception_magic_start;*/").2 = false
  /\ (parse "/*--port=0;inception_magic_start;*/").1 = true
  /\ active (parse "/*--port=0;inception_magic_start;*/").2 = false.
Proof. vm_compute. repeat split. Qed.

End Markers.

(** ** Remote profile detection *)

Section Profile.
Import CStr Context Server Remote Inception Examples Spec.

Lemma starts_with_spec a : forall s,
  starts_with a s = true <-> exists post, s = a +:+ post.
Proof.
  induction a as [|c a IH]; intros s; simpl.
  - split; [intros _; exists s; reflexivity|reflexivity].
  - destruct s as [|c' s].
    + split; [discriminate|]. intros (post & H). discriminate.
    + rewrite andb_true_iff, IH. split.
      * intros (Hc & post & ->). apply Ascii.eqb_eq in Hc as ->.
        exists post. reflexivity.
      * intros (post & H). injection H as -> ->. split.
        -- apply Ascii.eqb_refl.
        -- exists post. reflexivity.
Qed.

Lemma find_is_Some needle : forall s,
  is_Some (find s needle) <-> occurs_in needle s.
Proof.
  unfold occurs_in. induction s as [|c s IH].
  - simpl. destruct (starts_with needle "") eqn:Hs.
    + split; [|intros _; eexists; reflexivity]. intros _.
      apply starts_with_spec in Hs as (post & Hs). exists "", post. exact Hs.
    + split; [intros [x Hx]; discriminate|].
      intros (pre & post & H). exfalso.
      destruct pre; [|discriminate]. simpl in H.
      assert (starts_with needle "" = true)
        by (apply starts_with_spec; exists post; exact H).
      congruence.
  - cbn [find]. destruct (starts_with needle (String c s)) eqn:Hs.
    + split; [|intros _; eexists; reflexivity]. intros _.
      apply starts_with_spec in Hs as (post & Hs). exists "", post. exact Hs.
    + split.
      * intros [x Hx]. destruct (find s needle) as [i|] eqn:Hf;
          [|discriminate].
        destruct (proj1 IH (ex_intro _ i eq_refl)) as (pre & post & ->).
        exists (String c pre), post. reflexivity.
      * intros (pre & post & H). destruct pre as [|c' pre].
        -- simpl in H.
           assert (starts_with needle (String c s) = true)
             by (apply starts_with_spec; exists post; exact H).
           congruence.
        -- injection H as -> ->.
           destruct (proj2 IH (ex_intro _ pre (ex_intro _ post eq_refl)))
             as [i ->].
           eexists. reflexivity.
Qed.

(** *** The version scanner never runs out of rounds *)

Lemma skip_digits_ge n text : forall j, (j <= skip_digits n text j)%nat.
Proof.
  induction n as [|n IH]; intros j; simpl; [lia|].
  destruct (isdigit (char_at text j)); [|lia].
  specialize (IH (S j)). lia.
Qed.

Lemma skip_digits_gt n text j :
  isdigit (char_at text j) = true -> (j < skip_digits (S n) text j)%nat.
Proof.
  intros H. simpl. rewrite H.
  pose proof (skip_digits_ge n text (S j)). lia.
Qed.

Lemma parse_first_version_fuel text : forall fuel1 fuel2 i,
  (String.length text - i <= fuel1)%nat ->
  (String.length text - i <= fuel2)%nat ->
  parse_first_version_from fuel1 text i
  = parse_first_version_from fuel2 text i.
Proof.
  induction fuel1 as [|fuel1 IH]; intros fuel2 i H1 H2.
  - destruct fuel2; simpl; [reflexivity|].
    destruct (Nat.ltb_spec i (String.length text)); [lia|reflexivity].
  - destruct fuel2 as [|fuel2]; simpl.
    { destruct (Nat.ltb_spec i (String.length text)); [lia|reflexivity]. }
    destruct (Nat.ltb_spec i (String.length text)) as [Hlt|]; [|reflexivity].
    destruct (isdigit (char_at text i)) eqn:Hd; simpl.
    2:{ apply IH; lia. }
    assert (Hj : (i < skip_digits (String.length text - i) text i)%nat).
    { destruct (String.length text - i)%nat as [|n] eqn:Hn; [lia|].
      apply skip_digits_gt, Hd. }
    set (j := skip_digits (String.length text - i) text i) in *.
    destruct (_ || _); [apply IH; lia|].
    pose proof (skip_digits_ge (String.length text - (j + 1)) text (j + 1))
      as Hk.
    set (k := skip_digits (String.length text - (j + 1)) text (j + 1)) in *.
    destruct (k =? j + 1)%nat; [apply IH; lia|reflexivity].
Qed.

(** C8, as stated, fails: the two spellings [TiDB] and [tidb] are looked
    for byte by byte, so a version string that spells the marker [TIDB]
    contains it without regard to case and is still taken for MySQL. *)
Lemma uppercase_tidb_is_taken_for_mysql :
  let v := "5.7.25-TIDB-v6.5.3" in
  let ctx := maybe_detect_remote_db_profile (target v) fresh_context in
  occurs_in (string_tolower "TiDB") (string_tolower v)
  /\ Parse.find_ci v 0 (String.length v) "TiDB" = Some 7%nat
  /\ profile ctx = (MYSQL_DB, 5, 7).
Proof.
  split; [exists "5.7.25-", "-v6.5.3"; reflexivity|].
  vm_compute. split; reflexivity.
Qed.

(** C8, amended.  The remote is classified as TiDB exactly when its
    version string contains [TiDB] or [tidb] in one of these two
    spellings; the version is read after the first of the markers
    [TiDB-v], [tidb-v], [TiDB-], [tidb-] whose tail holds an [M.N], else
    from the first [M.N] of the whole string, and stays as it was when
    there is none.  ["5.7.25-TiDB-v6.5.3"] gives TiDB 6.5; a TiDB string
    without a marker falls back to its first [M.N]; a MySQL string gives
    its first [M.N]. *)
Theorem profile_detection :
  (forall env ctx m v,
     (Audit.get_remote_conn env ctx).1 = Some m ->
     server_version m = Some v ->
     let ctx' := maybe_detect_remote_db_profile env ctx in
     (db_type ctx' = TIDB <-> occurs_in "TiDB" v \/ occurs_in "tidb" v)
     /\ (db_version_major ctx', db_version_minor ctx')
        = default (db_version_major ctx, db_version_minor ctx)
            (detected_version (bool_decide (db_type ctx' = TIDB)) v))
  /\ profile (maybe_detect_remote_db_profile (target "5.7.25-TiDB-v6.5.3")
                fresh_context) = (TIDB, 6, 5)
  /\ profile (maybe_detect_remote_db_profile (target "5.7.25-TiDB")
                fresh_context) = (TIDB, 5, 7)
  /\ profile (maybe_detect_remote_db_profile (target "8.0.32-log")
                fresh_context) = (MYSQL_DB, 8, 0).
Proof.
  split; [|vm_compute; repeat split].
  intros env ctx m v Hconn Hv. unfold maybe_detect_remote_db_profile.
  assert (Hsame : db_version_major (Audit.get_remote_conn env ctx).2
                  = db_version_major ctx
                  /\ db_version_minor (Audit.get_remote_conn env ctx).2
                     = db_version_minor ctx).
  { unfold Audit.get_remote_conn. destruct (remote_conn ctx); [auto|].
    destruct (remote_conn_failed ctx); [auto|].
    destruct (audit_connect env); auto. }
  destruct (Audit.get_remote_conn env ctx) as [remote ctx1].
  simpl in Hconn, Hsame. subst remote. rewrite Hv. simpl default.
  destruct Hsame as [Hmaj Hmin].
  rewrite <- !find_is_Some.
  set (tidb := bool_decide (is_Some (find v "TiDB"))
               || bool_decide (is_Some (find v "tidb"))).
  assert (Htidb : tidb = true
                  <-> is_Some (find v "TiDB") \/ is_Some (find v "tidb")).
  { unfold tidb. rewrite orb_true_iff, !bool_decide_eq_true. reflexivity. }
  unfold detected_version.
  destruct tidb.
  - assert (Hor := proj1 Htidb eq_refl).
    destruct (parse_tidb_version v) as [[major minor]|];
      [|destruct (parse_first_version v) as [[major minor]|]]; simpl;
      (split; [tauto|]); rewrite ?Hmaj, ?Hmin; reflexivity.
  - assert (Hnot : ~ (is_Some (find v "TiDB") \/ is_Some (find v "tidb")))
      by (intros H; apply Htidb in H; discriminate).
    destruct (parse_first_version v) as [[major minor]|]; simpl;
      (split; [split; [discriminate|tauto]|]);
      rewrite ?Hmaj, ?Hmin; reflexivity.
Qed.

Lemma profile_detection_witness :
  let env := target "5.7.25-TiDB-v6.5.3" in
  let ctx' := maybe_detect_remote_db_profile env fresh_context in
  (db_type ctx' = TIDB
   <-> occurs_in "TiDB" "5.7.25-TiDB-v6.5.3"
       \/ occurs_in "tidb" "5.7.25-TiDB-v6.5.3")
  /\ (db_version_major ctx', db_version_minor ctx')
     = default (db_version_major fresh_context,
                db_version_minor fresh_context)
         (detected_version (bool_decide (db_type ctx' = TIDB))
            "5.7.25-TiDB-v6.5.3").
Proof.
  intros env.
  apply (proj1 profile_detection env fresh_context
           (server "5.7.25-TiDB-v6.5.3") "5.7.25-TiDB-v6.5.3");
    reflexivity.
Defined.

End Profile.

(** ** The split grouper *)

Section Split.
Import CStr Context Server Remote Inception Examples Spec.

Lemma last_snoc_inv {A} (l : list A) x :
  last l = Some x -> exists init, l = init ++ [x] /\ removelast l = init.
Proof.
  intros H. apply last_Some in H as (init & ->).
  exists init. split; [reflexivity|]. apply removelast_last.
Qed.

Lemma same_group_matches l thd :
  same_group l (split_target thd).1 (split_target thd).2
    (is_ddl_command (lex_sql_command (lex thd))) = true
  <-> matches l thd.
Proof.
  unfold same_group, matches.
  rewrite !andb_true_iff, !String.eqb_eq, Bool.eqb_true_iff. tauto.
Qed.

Lemma split_group_spec thd ctx :
  split_nodes (split_group thd ctx)
  = match last (split_nodes ctx) with
    | Some l =>
        if same_group l (split_target thd).1 (split_target thd).2
             (is_ddl_command (lex_sql_command (lex thd)))
        then removelast (split_nodes ctx) ++ [joined l thd]
        else split_nodes ctx ++ [opened (current_usedb ctx) thd]
    | None => split_nodes ctx ++ [opened (current_usedb ctx) thd]
    end.
Proof.
  unfold split_group, opened, joined, use_prefix.
  destruct (split_target thd) as [db tbl]. simpl.
  assert (Hne : forall x : string,
            negb (String.eqb x "") = if decide (x <> "") then true else false).
  { intros x. destruct (String.eqb_spec x ""); destruct (decide (x <> ""));
      simpl; try reflexivity; exfalso; tauto. }
  rewrite !Hne.
  destruct (last (split_nodes ctx)) as [l|].
  - destruct (same_group l db tbl _).
    + simpl. f_equal. f_equal.
      destruct (Z.eqb_spec (split_ddlflag (lex_sql_command (lex thd))) 0);
        destruct (decide (split_ddlflag (lex_sql_command (lex thd)) = 0));
        try contradiction; destruct l; reflexivity.
    + simpl. destruct (decide (current_usedb ctx <> ""));
        destruct (decide (db <> "")); reflexivity.
  - simpl. destruct (decide (current_usedb ctx <> ""));
      destruct (decide (db <> "")); reflexivity.
Qed.

(** C6, as stated, fails: a statement without a table, in a session that
    has seen no USE, starts a group with no prefix at all; and when only
    the statement's own database is known the prefix is [USE <db>;], not
    the bare [<db>;]. *)
Lemma new_group_without_prefix :
  let select := client "SELECT 1" (plain_lex SQLCOM_SELECT) in
  let insert := client "INSERT INTO shop.o VALUES (1)"
                  (on_qualified SQLCOM_INSERT "shop" "o") in
  let run thd := intercept_statement quiet_sysvars sample_flags
                   (calm_env reachable reachable) thd split_session in
  current_usedb split_session = ""
  /\ (split_target select).1 = ""
  /\ map sn_sql_text (split_nodes (run select).1.2) = ["SELECT 1;" +:+ LF]
  /\ starts_with "USE " ("SELECT 1;" +:+ LF) = false
  /\ starts_with (";" +:+ LF) ("SELECT 1;" +:+ LF) = false
  /\ (split_target insert).1 = "shop"
  /\ map sn_sql_text (split_nodes (run insert).1.2)
     = ["USE shop;" +:+ LF +:+ "INSERT INTO shop.o VALUES (1);" +:+ LF]
  /\ starts_with ("shop;" +:+ LF)
       ("USE shop;" +:+ LF +:+ "INSERT INTO shop.o VALUES (1);" +:+ LF)
     = false.
Proof. vm_compute. repeat split. Qed.

(** C6, amended.  In split mode a statement that is taken over, other
    than USE and SET, joins the last group exactly when there is one and
    its database, table and DDL-or-DML class are those of the statement:
    then its text, followed by [;\n], is appended to the group's text
    (and the group's ddlflag becomes 1 for ALTER TABLE and DROP TABLE).
    Otherwise it starts a new group whose text is the statement's text
    followed by [;\n], after [USE <current_db>;\n] when the session has a
    current database, else after [USE <db>;\n] when the statement's own
    database is known, else with no prefix.  Scenario S6 gives its two
    rows. *)
Theorem split_grouping sv fv env thd ctx :
  active ctx = true ->
  mode ctx = SPLIT ->
  passes_through thd = false ->
  lex_sql_command (lex thd) <> SQLCOM_CHANGE_DB ->
  lex_sql_command (lex thd) <> SQLCOM_SET_OPTION ->
  let r := intercept_statement sv fv env thd ctx in
  r.1.1.1 = true
  /\ (forall groups l,
        split_nodes ctx = groups ++ [l] -> matches l thd ->
        split_nodes r.1.2 = groups ++ [joined l thd])
  /\ ((split_nodes ctx = []
       \/ exists groups l,
            split_nodes ctx = groups ++ [l] /\ ~ matches l thd) ->
      split_nodes r.1.2
      = split_nodes ctx ++ [opened (current_usedb ctx) thd])
  /\ ((exists groups l, split_nodes ctx = groups ++ [l] /\ matches l thd)
      <-> List.length (split_nodes r.1.2) = List.length (split_nodes ctx))
  /\ map (fun g => (sn_sql_text g, ddlflag g))
       (split_nodes
          (run_batch sv fv env scenario_s6 idle_client
             split_session).2)
     = [("USE shop;" +:+ LF +:+ "INSERT INTO o VALUES (1);" +:+ LF
         +:+ "INSERT INTO o VALUES (2);" +:+ LF, 0);
        ("USE shop;" +:+ LF +:+ "ALTER TABLE o ADD COLUMN y INT;" +:+ LF, 1)].
Proof.
  intros Hact Hmode Hpass Huse Hset.
  assert (Hr : intercept_statement sv fv env thd ctx
               = (true, thd, split_group thd ctx, [OutOk])).
  { unfold intercept_statement. rewrite Hact, Hpass, Hmode. simpl.
    destruct (lex_sql_command (lex thd)); try reflexivity; congruence. }
  rewrite Hr. simpl. rewrite split_group_spec.
  split; [reflexivity|]. split; [|split; [|split]].
  - intros groups l Hgroups Hmatch. rewrite Hgroups, last_snoc.
    rewrite (proj2 (same_group_matches l thd) Hmatch).
    rewrite removelast_last. reflexivity.
  - intros [Hnil|(groups & l & Hgroups & Hno)].
    + rewrite Hnil. reflexivity.
    + rewrite Hgroups, last_snoc.
      destruct (same_group l _ _ _) eqn:Hs; [|reflexivity].
      apply same_group_matches in Hs. contradiction.
  - destruct (last (split_nodes ctx)) as [l|] eqn:Hlast.
    + destruct (last_snoc_inv _ _ Hlast) as (init & Heq & Hrm).
      destruct (same_group l _ _ _) eqn:Hs.
      * split; [intros _|intros _; exists init, l; split;
                             [exact Heq|apply same_group_matches, Hs]].
        rewrite Hrm, Heq, !length_app. reflexivity.
      * split.
        -- intros (groups & l' & Hgroups & Hmatch).
           rewrite Hgroups in Heq. apply app_inj_tail in Heq as [_ ->].
           apply same_group_matches in Hmatch. congruence.
        -- rewrite length_app. simpl. lia.
    + apply last_None in Hlast. rewrite Hlast. simpl. split; [|lia].
      intros (groups & l & Hgroups & _). destruct groups; discriminate.
  - vm_compute. reflexivity.
Qed.

Lemma split_grouping_witness :
  let thd := client "INSERT INTO o VALUES (2)" (on_table SQLCOM_INSERT "o") in
  let ctx := set_split_nodes
               [Build_SplitNode ("INSERT INTO o VALUES (1);" +:+ LF) "" "o"
                  0 false] split_session in
  let r := intercept_statement quiet_sysvars sample_flags
             (calm_env reachable reachable) thd ctx in
  r.1.1.1 = true
  /\ map sn_sql_text (split_nodes r.1.2)
     = ["INSERT INTO o VALUES (1);" +:+ LF +:+ "INSERT INTO o VALUES (2);"
        +:+ LF].
Proof.
  intros thd ctx.
  destruct (split_grouping quiet_sysvars sample_flags
              (calm_env reachable reachable) thd ctx)
    as (Hint & Hjoin & _); try reflexivity; try discriminate.
  split; [exact Hint|].
  rewrite (Hjoin [] (Build_SplitNode ("INSERT INTO o VALUES (1);" +:+ LF)
                       "" "o" 0 false) eq_refl).
  - reflexivity.
  - repeat split.
Defined.

End Split.

(** ** The batch schema *)

Section BatchSchema.
Import CStr Context Server Remote Audit Inception Examples Spec.

Lemma audit_create_table_dom env thd node ctx :
  let ctx' := (audit_create_table env thd node ctx).2 in
  active ctx' = active ctx /\ mode ctx' = mode ctx
  /\ dom (batch_tables ctx')
     = dom (batch_tables ctx)
       ∪ match create_target thd with
         | Some (db, tn) => {[batch_table_key db tn]}
         | None => ∅
         end.
Proof.
  unfold audit_create_table.
  destruct (create_target thd) as [[db tn]|]; simpl;
    [|repeat split; set_solver].
  destruct (in_batch_tables ctx (batch_table_key db tn)); simpl.
  { repeat split. rewrite dom_insert_L. set_solver. }
  destruct (get_remote_conn_keeps env ctx) as (Ha & Hm & _ & Hd).
  destruct (get_remote_conn env ctx) as [[m|] ctx1]; simpl in *;
    [destruct (remote_table_exists env db tn)|]; simpl;
    repeat split; try assumption; rewrite dom_insert_L, Hd; set_solver.
Qed.

Lemma audit_create_db_keeps env thd node ctx :
  keeps ctx (audit_create_db env thd node ctx).2.
Proof.
  unfold audit_create_db.
  destruct (lex_name (lex thd)) as [db|]; [|apply keeps_refl].
  pose proof (get_remote_conn_keeps env ctx) as Hk.
  destruct (get_remote_conn env ctx) as [remote ctx1].
  destruct (_ && _); exact Hk.
Qed.

Lemma audit_drop_db_keeps sv env thd node ctx :
  keeps ctx (audit_drop_db sv env thd node ctx).2.
Proof.
  unfold audit_drop_db.
  destruct (lex_name (lex thd)) as [db|]; [|apply keeps_refl].
  pose proof (get_remote_conn_keeps env ctx) as Hk.
  destruct (get_remote_conn env ctx) as [remote ctx1].
  eapply keeps_trans; [exact Hk|]. repeat split.
Qed.

Lemma keeps_nothing_created ctx ctx0 ctx' :
  keeps ctx ctx0 -> keeps ctx0 ctx' ->
  active ctx' = active ctx /\ mode ctx' = mode ctx
  /\ dom (batch_tables ctx') = dom (batch_tables ctx) ∪ ∅.
Proof.
  intros H0 H1. destruct (keeps_trans _ _ _ H0 H1) as (Ha & Hm & _ & Hd).
  repeat split; try assumption. rewrite Hd. set_solver.
Qed.

Lemma audit_statement_dom sv fv env thd node ctx :
  let ctx' := (audit_statement sv fv env thd node ctx).2 in
  active ctx' = active ctx /\ mode ctx' = mode ctx
  /\ dom (batch_tables ctx') = dom (batch_tables ctx) ∪ created_keys thd.
Proof.
  unfold audit_statement, created_keys, creates.
  set (ctx0 := if negb (bool_decide (is_Some (remote_conn ctx)))
                  && negb (remote_conn_failed ctx)
               then (get_remote_conn env ctx).2 else ctx).
  assert (H0 : keeps ctx ctx0).
  { unfold ctx0. destruct (_ && _);
      [apply get_remote_conn_keeps|apply keeps_refl]. }
  match goal with
  | |- context [audit_create_table env thd ?n ctx0] => set (node0 := n)
  end.
  destruct (lex_sql_command (lex thd));
    try (apply (keeps_nothing_created ctx ctx0); [exact H0|];
         first [ apply keeps_refl
               | apply audit_alter_table_keeps
               | apply audit_create_db_keeps
               | apply audit_drop_db_keeps ]).
  destruct (audit_create_table_dom env thd node0 ctx0) as (Ha' & Hm' & Hd').
  destruct H0 as (Ha & Hm & _ & Hd).
  rewrite Ha', Hm', Hd', Ha, Hm, Hd.
  destruct (create_target thd) as [[db tn]|]; repeat split.
Qed.

Lemma intercept_statement_dom sv fv env thd ctx :
  active ctx = true ->
  mode ctx = CHECK \/ mode ctx = EXECUTE ->
  let ctx' := (intercept_statement sv fv env thd ctx).1.2 in
  active ctx' = active ctx /\ mode ctx' = mode ctx
  /\ dom (batch_tables ctx')
     = dom (batch_tables ctx)
       ∪ (if passes_through thd then ∅ else created_keys thd).
Proof.
  intros Hact Hmode. unfold intercept_statement. rewrite Hact. simpl.
  destruct (passes_through thd); simpl; [repeat split; set_solver|].
  set (ctx1 := add_sql _ _ ctx).
  set (node := new_node _ _ _).
  pose proof (audit_statement_dom sv fv env thd node ctx1) as Haudit.
  destruct (audit_statement sv fv env thd node ctx1) as [node' ctx2].
  simpl in Haudit.
  destruct Haudit as (Ha & Hm' & Hd).
  destruct Hmode as [Hm|Hm]; rewrite Hm; simpl;
    (split; [|split]; [congruence|congruence|exact Hd]).
Qed.

(** C3, as stated, fails: DROP TABLE does not touch the batch schema, so
    the entry of a table created earlier in the batch is still there
    after the table was dropped. *)
Lemma dropped_table_stays_in_batch_schema :
  let r := run_batch quiet_sysvars sample_flags
             (calm_env reachable reachable) create_then_drop
             idle_client check_session in
  map (fun n => (sql_command n, stage n)) (cache_nodes r.2)
  = [(SQLCOM_CREATE_TABLE, STAGE_CHECKED); (SQLCOM_DROP_TABLE, STAGE_CHECKED)]
  /\ batch_tables r.2 !! "d.t" = Some {["id"]}.
Proof. vm_compute. repeat split. Qed.

(** C3, amended.  In check and execute mode the batch schema has an
    entry under the key [db.t] exactly when a CREATE TABLE naming [db.t]
    (directly or through the session's database) was audited earlier in
    the batch, whatever the audit found; no later statement removes an
    entry, and a DROP TABLE leaves the batch schema as it is. *)
Theorem batch_tables_track_creates sv fv env :
  (forall stmts thd ctx key,
     active ctx = true ->
     mode ctx = CHECK \/ mode ctx = EXECUTE ->
     key ∈ dom (batch_tables (run_batch sv fv env stmts thd ctx).2)
     <-> key ∈ dom (batch_tables ctx)
         \/ exists pre s post,
              stmts = pre ++ s :: post
              /\ creates (load_statement s
                            (run_batch sv fv env pre thd ctx).1) = Some key)
  /\ (forall thd ctx,
        lex_sql_command (lex thd) = SQLCOM_DROP_TABLE ->
        batch_tables (intercept_statement sv fv env thd ctx).1.2
        = batch_tables ctx).
Proof.
  split.
  - induction stmts as [|s rest IH]; intros thd ctx key Hact Hmode.
    + simpl. split; [auto|]. intros [H|(pre & s & post & H & _)]; [exact H|].
      destruct pre; discriminate.
    + cbn [run_batch].
      destruct (intercept_statement_dom sv fv env (load_statement s thd) ctx
                  Hact Hmode) as (Ha & Hm & Hd).
      set (r := intercept_statement sv fv env (load_statement s thd) ctx) in *.
      rewrite IH by (rewrite ?Ha, ?Hm; assumption).
      rewrite Hd, elem_of_union.
      assert (Hcreated :
                key ∈ (if passes_through (load_statement s thd) then ∅
                       else created_keys (load_statement s thd))
                <-> creates (load_statement s thd) = Some key).
      { unfold created_keys, creates, passes_through.
        destruct (lex_sql_command (lex (load_statement s thd)));
          try destruct (_ && _);
          try (split; [intros H; apply not_elem_of_empty in H; destruct H
                      |intros H; discriminate H]).
        destruct (create_target (load_statement s thd)) as [[db tn]|];
          [|split; [intros H; apply not_elem_of_empty in H; destruct H
                   |intros H; discriminate H]].
        rewrite elem_of_singleton. split; [intros ->; reflexivity|].
        intros [= ->]. reflexivity. }
      rewrite Hcreated. split.
      * intros [[H|H]|(pre & s' & post & -> & H)].
        -- left. exact H.
        -- right. exists [], s, rest. split; [reflexivity|exact H].
        -- right. exists (s :: pre), s', post. split; [reflexivity|exact H].
      * intros [H|(pre & s' & post & Heq & H)]; [left; left; exact H|].
        destruct pre as [|s0 pre]; simpl in Heq; injection Heq as -> ->.
        -- left. right. exact H.
        -- right. exists pre, s', post. split; [reflexivity|exact H].
  - intros thd ctx Hcmd. unfold intercept_statement.
    destruct (negb (active ctx)); [reflexivity|].
    unfold passes_through. rewrite Hcmd.
    assert (Haudit : forall node c,
              batch_tables (audit_statement sv fv env thd node c).2
              = batch_tables c).
    { intros node c. unfold audit_statement. rewrite Hcmd. simpl.
      destruct (_ && _); [apply get_remote_conn_batch_tables|reflexivity]. }
    destruct (mode ctx); simpl.
    + match goal with
      | |- context [audit_statement sv fv env thd ?n ?c] =>
          pose proof (Haudit n c) as H;
          destruct (audit_statement sv fv env thd n c) as [n' c']
      end. exact H.
    + match goal with
      | |- context [audit_statement sv fv env thd ?n ?c] =>
          pose proof (Haudit n c) as H;
          destruct (audit_statement sv fv env thd n c) as [n' c']
      end. exact H.
    + unfold split_group. destruct (split_target _).
      destruct (last _); [destruct (same_group _ _ _ _)|]; reflexivity.
    + destruct (tree_needs_remote env _); [|reflexivity].
      apply (get_remote_conn_batch_tables env (set_next_id _ ctx)).
Qed.

Lemma batch_tables_track_creates_witness :
  let thd := idle_client in
  let env := calm_env reachable reachable in
  "d.t" ∈ dom (batch_tables
                 (run_batch quiet_sysvars sample_flags env create_then_drop
                    thd check_session).2).
Proof.
  intros thd env.
  apply (proj1 (batch_tables_track_creates quiet_sysvars sample_flags env)
           create_then_drop thd check_session "d.t").
  - reflexivity.
  - left. reflexivity.
  - right. exists [], ("CREATE TABLE d.t (id INT)",
                       create_table_stmt "d" "t" ["id"]),
      [("DROP TABLE d.t", on_qualified SQLCOM_DROP_TABLE "d" "t")].
    split; reflexivity.
Defined.

End BatchSchema.

(** ** The execution engine keeps the statement records *)

Section ExecutionRecords.
Import Context Server Remote Exec Examples Spec Notions.

Lemma same_statement_refl n : same_statement n n.
Proof. unfold same_statement. repeat split; lia. Qed.

Lemma same_statement_trans a b c :
  same_statement a b -> same_statement b c -> same_statement a c.
Proof.
  unfold same_statement.
  intros (?&?&?&?&?&?&?&?) (?&?&?&?&?&?&?&?).
  repeat split; try congruence; lia.
Qed.

Lemma raise_errlevel_same lvl n : same_statement n (raise_errlevel lvl n).
Proof.
  unfold raise_errlevel. destruct (Z.ltb_spec (errlevel n) lvl).
  - unfold same_statement. simpl. repeat split; lia.
  - apply same_statement_refl.
Qed.

Lemma append_error_same text n : same_statement n (append_error text n).
Proof.
  unfold append_error. eapply same_statement_trans; [|apply raise_errlevel_same].
  unfold same_statement. simpl. repeat split; lia.
Qed.

Lemma append_warning_same text n : same_statement n (append_warning text n).
Proof.
  unfold append_warning.
  eapply same_statement_trans; [|apply raise_errlevel_same].
  unfold same_statement. simpl. repeat split; lia.
Qed.

Lemma mark_same st status n :
  same_statement n (set_stage_status status (set_stage st n)).
Proof. unfold same_statement. simpl. repeat split; lia. Qed.

Lemma collect_remote_warnings_same rows : forall n,
  same_statement n (collect_remote_warnings rows n).
Proof.
  unfold collect_remote_warnings.
  induction rows as [|[[level wcode] msg] rows IH]; intros n; simpl.
  - apply same_statement_refl.
  - eapply same_statement_trans; [|apply IH].
    destruct (CStr.strcasecmp level "Error");
      [apply append_error_same|apply append_warning_same].
Qed.

Lemma execute_one_same env idx n :
  same_statement n (execute_one env idx n).1.2.
Proof.
  unfold execute_one.
  destruct (String.eqb _ ""); simpl; [apply mark_same|].
  destruct (exec_query env idx) as [err|raw elapsed warnings]; simpl.
  - eapply same_statement_trans; [apply append_error_same|apply mark_same].
  - eapply same_statement_trans; [|apply collect_remote_warnings_same].
    unfold same_statement. simpl. repeat split; lia.
Qed.

Lemma pre_execute_checks_same sv env slaves idx n ctx :
  same_statement n (pre_execute_checks sv env slaves idx n ctx).1.2.
Proof.
  assert (H : forall text, same_statement n (pre_check_failed text n)).
  { intros text. unfold pre_check_failed.
    eapply same_statement_trans; [apply append_error_same|apply mark_same]. }
  unfold pre_execute_checks.
  destruct (Sysvars.opt_exec_check_read_only sv);
    [destruct (read_only_query env idx) as [err|[|]]|]; simpl;
    first [apply H | apply same_statement_refl].
Qed.

Lemma exec_round_same sv env thd slaves st idx n :
  exists n',
    ls_done (exec_round sv env thd slaves st idx n) = ls_done st ++ [n']
    /\ same_statement n n'.
Proof.
  unfold exec_round.
  destruct (killed (load_killed env idx (ls_ctx st))); simpl.
  { eexists. split; [reflexivity|apply mark_same]. }
  destruct (ls_stop_exec st); simpl.
  { eexists. split; [reflexivity|].
    eapply same_statement_trans; [apply mark_same|apply append_error_same]. }
  pose proof (pre_execute_checks_same sv env slaves idx n
                (load_killed env idx (ls_ctx st))) as Hpre.
  destruct (pre_execute_checks sv env slaves idx n
              (load_killed env idx (ls_ctx st))) as [[blocked n1] ctx1].
  simpl in Hpre. destruct blocked; simpl.
  { eexists. split; [reflexivity|exact Hpre]. }
  pose proof (execute_one_same env idx n1) as Hone.
  destruct (execute_one env idx n1) as [[failed n2] sent]. simpl in Hone.
  simpl. eexists. split; [reflexivity|].
  eapply same_statement_trans; [exact Hpre|].
  eapply same_statement_trans; [exact Hone|].
  destruct (stage n2 =? STAGE_EXECUTED); [|apply same_statement_refl].
  unfold same_statement. simpl. repeat split; lia.
Qed.

Lemma exec_loop_same sv env thd slaves nodes : forall st idx,
  exists processed,
    ls_done (exec_loop sv env thd slaves st idx nodes)
    = ls_done st ++ processed
    /\ Forall2 same_statement nodes processed.
Proof.
  induction nodes as [|n rest IH]; intros st idx; simpl.
  - exists []. rewrite app_nil_r. split; [reflexivity|constructor].
  - destruct (exec_round_same sv env thd slaves st (S idx) n)
      as (n' & Hdone & Hsame).
    destruct (IH (exec_round sv env thd slaves st (S idx) n) (S idx))
      as (processed & Heq & Hall).
    exists (n' :: processed). split.
    + rewrite Heq, Hdone, <- app_assoc. reflexivity.
    + constructor; assumption.
Qed.

Lemma execute_statements_same sv env thd ctx :
  Forall2 same_statement (cache_nodes ctx)
    (cache_nodes (execute_statements sv env thd ctx).1.2).
Proof.
  assert (Hrefl : forall l : list SqlCacheNode, Forall2 same_statement l l).
  { induction l; constructor; [apply same_statement_refl|assumption]. }
  assert (Hmap : forall (f : SqlCacheNode -> SqlCacheNode) l,
             (forall n, same_statement n (f n)) ->
             Forall2 same_statement l (map f l)).
  { intros f l Hf. induction l; simpl; constructor; auto. }
  assert (Hload : forall k, cache_nodes (load_killed env k ctx)
                            = cache_nodes ctx).
  { intros k. unfold load_killed. destruct (kill_arrives env k); reflexivity. }
  unfold execute_statements.
  destruct (bool_decide (cache_nodes ctx = [])); simpl; [apply Hrefl|].
  destruct (killed (load_killed env 0 ctx)); simpl.
  { rewrite Hload. apply Hmap. intros n. apply mark_same. }
  destruct (connect_remote env (load_killed env 0 ctx)) as [m|err]; simpl.
  2:{ rewrite Hload. apply Hmap. intros n.
      eapply same_statement_trans; [apply append_error_same|apply mark_same]. }
  rewrite Hload.
  destruct (pre_scan _ _ _); simpl; [rewrite Hload; apply Hrefl|].
  match goal with
  | |- context [exec_loop sv env thd ?sl ?st 0 (cache_nodes ctx)] =>
      destruct (exec_loop_same sv env thd sl (cache_nodes ctx) st 0)
        as (processed & Heq & Hall)
  end.
  rewrite Heq. simpl. exact Hall.
Qed.

Lemma same_statements_ids before after :
  Forall2 same_statement before after ->
  map id after = map id before /\ map sql_text after = map sql_text before
  /\ List.length after = List.length before.
Proof.
  induction 1 as [|b a bs as_ (Hi & Ht & _) _ (IHi & IHt & IHl)]; simpl.
  - repeat split.
  - rewrite Hi, Ht, IHi, IHt, IHl. repeat split.
Qed.

(** X1: the execution engine never adds, drops or reorders statement
    records: after the run the batch holds the same statements, with
    the same numbers and text, in the same order, and no record has a
    lower severity than before. *)
Theorem execution_keeps_the_statements sv env thd ctx :
  let after := cache_nodes (execute_statements sv env thd ctx).1.2 in
  Forall2 same_statement (cache_nodes ctx) after
  /\ List.length after = List.length (cache_nodes ctx)
  /\ map id after = map id (cache_nodes ctx)
  /\ map sql_text after = map sql_text (cache_nodes ctx)
  /\ forall i before n,
       cache_nodes ctx !! i = Some before -> after !! i = Some n ->
       errlevel before <= errlevel n.
Proof.
  pose proof (execute_statements_same sv env thd ctx) as H.
  destruct (same_statements_ids _ _ H) as (Hi & Ht & Hl).
  repeat split; try assumption.
  intros i before n Hb Hn.
  destruct (Forall2_lookup_lr _ _ _ _ _ _ H Hb Hn) as (_&_&_&_&_&_&_&He).
  exact He.
Qed.

End ExecutionRecords.

(** ** What the execution engine sends *)

Section Dispatch.
Import CStr Parse Audit Inception Hooks Json Registry Scenarios Context Server Remote Exec Examples Spec Notions.

Lemma load_killed_frame env k ctx :
  force (load_killed env k ctx) = force ctx
  /\ ignore_warnings (load_killed env k ctx) = ignore_warnings ctx
  /\ cache_nodes (load_killed env k ctx) = cache_nodes ctx
  /\ slave_hosts (load_killed env k ctx) = slave_hosts ctx.
Proof. unfold load_killed. destruct (kill_arrives env k); repeat split. Qed.

Lemma force_wait_if_throttled sv env slaves idx ctx :
  force (wait_if_throttled sv env slaves idx ctx) = force ctx.
Proof.
  unfold wait_if_throttled, wait_for_remote_ready.
  destruct (_ || _); [|reflexivity].
  destruct (wait_stats env idx) as [[r|] [d|]]; reflexivity.
Qed.

Lemma force_pre_execute_checks sv env slaves idx node ctx :
  force (pre_execute_checks sv env slaves idx node ctx).2 = force ctx.
Proof.
  unfold pre_execute_checks.
  destruct (Sysvars.opt_exec_check_read_only sv);
    [destruct (read_only_query env idx) as [err|[|]]|]; simpl;
    try reflexivity; apply force_wait_if_throttled.
Qed.

Lemma collect_remote_warnings_status rows : forall n,
  stage_status (collect_remote_warnings rows n) = stage_status n
  /\ stage (collect_remote_warnings rows n) = stage n.
Proof.
  unfold collect_remote_warnings.
  induction rows as [|[[level wcode] msg] rows IH]; intros n; simpl.
  - split; reflexivity.
  - destruct (IH (if CStr.strcasecmp level "Error"
                  then append_error ("Remote " +:+ level +:+ " (code "
                                      +:+ wcode +:+ "): " +:+ msg) n
                  else append_warning ("Remote " +:+ level +:+ " (code "
                                        +:+ wcode +:+ "): " +:+ msg) n))
      as [H1 H2].
    rewrite H1, H2.
    unfold append_error, append_warning, raise_errlevel.
    destruct (CStr.strcasecmp level "Error");
      match goal with |- context [if ?b then _ else _] => destruct b end;
      split; reflexivity.
Qed.

(** What a round of the loop does, by the branch it takes. *)
Lemma exec_round_branches sv env thd slaves st idx node :
  let st' := exec_round sv env thd slaves st idx node in
  exists node',
    ls_done st' = ls_done st ++ [node']
    /\ force (ls_ctx st') = force (ls_ctx st)
    /\ ((stage_status node' = "Killed by user"
         /\ ls_sent st' = ls_sent st
         /\ ls_stop_exec st' = ls_stop_exec st)
        \/ (stage_status node' = "Skipped due to prior error"
            /\ stage node' = STAGE_SKIPPED
            /\ ls_sent st' = ls_sent st /\ ls_stop_exec st' = true)
        \/ (stage_status node' = "Pre-check failed"
            /\ ls_stop_exec st = false
            /\ ls_sent st' = ls_sent st /\ ls_stop_exec st' = true
            /\ (Sysvars.opt_exec_check_read_only sv = true
                /\ read_only_query env idx <> ReadOnlyValue false))
        \/ (stage_status node' = "Execute completed"
            /\ ls_stop_exec st = false
            /\ Exec.strip_inception_comment (sql_text node) = ""
            /\ ls_sent st' = ls_sent st /\ ls_stop_exec st' = false)
        \/ (ls_stop_exec st = false
            /\ Exec.strip_inception_comment (sql_text node) <> ""
            /\ ls_sent st'
               = ls_sent st
                 ++ [(idx, Exec.strip_inception_comment (sql_text node))]
            /\ (Sysvars.opt_exec_check_read_only sv = true ->
                read_only_query env idx = ReadOnlyValue false)
            /\ ((stage_status node' = "Execute failed"
                 /\ ls_stop_exec st' = negb (force (ls_ctx st)))
                \/ (stage_status node' = "Execute completed"
                    /\ ls_stop_exec st' = false)))).
Proof.
  unfold exec_round.
  destruct (load_killed_frame env idx (ls_ctx st)) as (Hf & _).
  destruct (killed (load_killed env idx (ls_ctx st))); simpl.
  { eexists. split; [reflexivity|]. split; [exact Hf|]. left. repeat split. }
  destruct (ls_stop_exec st) eqn:Hstop; simpl.
  { eexists. split; [reflexivity|]. split; [exact Hf|].
    right. left. unfold append_error, raise_errlevel.
    match goal with |- context [if ?b then _ else _] => destruct b end;
      repeat split. }
  pose proof (force_pre_execute_checks sv env slaves idx node
                (load_killed env idx (ls_ctx st))) as Hpf.
  unfold pre_execute_checks in *.
  destruct (Sysvars.opt_exec_check_read_only sv) eqn:Hro;
    [destruct (read_only_query env idx) as [err|[|]] eqn:Hq|]; simpl in *.
  1,2: eexists; split; [reflexivity|]; split; [exact Hf|];
       right; right; left; unfold pre_check_failed, append_error,
         raise_errlevel;
       match goal with |- context [if ?b then _ else _] => destruct b end;
       repeat split; discriminate.
  all: unfold execute_one;
    destruct (String.eqb_spec (Exec.strip_inception_comment (sql_text node))
                "") as [He|He]; simpl.
  all: try (eexists; split; [reflexivity|]; split; [congruence|];
            right; right; right; left; repeat split; exact He).
  all: destruct (exec_query env idx) as [err|raw elapsed warnings]; simpl.
  all: eexists; (split; [reflexivity|]); (split; [congruence|]);
       right; right; right; right;
       (split; [reflexivity|]); (split; [exact He|]);
       (split; [reflexivity|]); (split; [try discriminate; auto|]).
  - left. split; [|rewrite Hpf, Hf; reflexivity].
    unfold append_error, raise_errlevel.
    match goal with |- context [if ?b then _ else _] => destruct b end;
      reflexivity.
  - right. split; [|reflexivity].
    match goal with
    | |- context [collect_remote_warnings ?r ?n] =>
        destruct (collect_remote_warnings_status r n) as [Hs Hg]
    end.
    rewrite Hg. simpl. rewrite Hs. reflexivity.
  - left. split; [|rewrite Hpf, Hf; reflexivity].
    unfold append_error, raise_errlevel.
    match goal with |- context [if ?b then _ else _] => destruct b end;
      reflexivity.
  - right. split; [|reflexivity].
    match goal with
    | |- context [collect_remote_warnings ?r ?n] =>
        destruct (collect_remote_warnings_status r n) as [Hs Hg]
    end.
    rewrite Hg. simpl. rewrite Hs. reflexivity.
Qed.

Lemma exec_loop_dispatch sv env thd slaves nodes : forall st idx,
  let st' := exec_loop sv env thd slaves st idx nodes in
  exists processed new,
    ls_done st' = ls_done st ++ processed
    /\ ls_sent st' = ls_sent st ++ new
    /\ force (ls_ctx st') = force (ls_ctx st)
    /\ Forall (fun kt => (idx < kt.1)%nat) new
    /\ StronglySorted lt (map fst new)
    /\ (ls_stop_exec st = true -> new = [])
    /\ forall k text,
         (k, text) ∈ new ->
         (exists n, nodes !! (k - S idx)%nat = Some n
                    /\ text = Exec.strip_inception_comment (sql_text n)
                    /\ text <> "")
         /\ (Sysvars.opt_exec_check_read_only sv = true ->
             read_only_query env k = ReadOnlyValue false)
         /\ forall i p, (i < k - S idx)%nat -> processed !! i = Some p ->
                        ~ stops_batch (force (ls_ctx st)) p.
Proof.
  induction nodes as [|node rest IH]; intros st idx; simpl.
  - exists [], []. rewrite !app_nil_r.
    split; [reflexivity|]. split; [reflexivity|]. split; [reflexivity|].
    split; [constructor|]. split; [constructor|]. split; [reflexivity|].
    intros k text Hin. inversion Hin.
  - destruct (exec_round_branches sv env thd slaves st (S idx) node)
      as (node' & Hdone & Hforce & Hcase).
    destruct (IH (exec_round sv env thd slaves st (S idx) node) (S idx))
      as (processed & new & Hd & Hs & Hf & Hgt & Hsorted & Hstop & Hnew).
    set (st1 := exec_round sv env thd slaves st (S idx) node) in *.
    assert (Hshift : forall k, (S idx < k)%nat ->
              (k - S idx = S (k - S (S idx)))%nat) by (intros; lia).
    assert (Hgt' : Forall (fun kt : nat * string => (idx < kt.1)%nat) new).
    { eapply Forall_impl; [exact Hgt|]. simpl. intros; lia. }
    (* the rounds that send nothing *)
    assert (Hquiet : ls_sent st1 = ls_sent st ->
              (ls_stop_exec st = true -> ls_stop_exec st1 = true) ->
              (ls_stop_exec st1 = false -> ~ stops_batch (force (ls_ctx st)) node') ->
              exists processed0 new0,
                ls_done (exec_loop sv env thd slaves st1 (S idx) rest)
                = ls_done st ++ processed0
                /\ ls_sent (exec_loop sv env thd slaves st1 (S idx) rest)
                   = ls_sent st ++ new0
                /\ force (ls_ctx (exec_loop sv env thd slaves st1 (S idx) rest))
                   = force (ls_ctx st)
                /\ Forall (fun kt => (idx < kt.1)%nat) new0
                /\ StronglySorted lt (map fst new0)
                /\ (ls_stop_exec st = true -> new0 = [])
                /\ forall k text,
                     (k, text) ∈ new0 ->
                     (exists n, (node :: rest) !! (k - S idx)%nat = Some n
                        /\ text = Exec.strip_inception_comment (sql_text n)
                        /\ text <> "")
                     /\ (Sysvars.opt_exec_check_read_only sv = true ->
                         read_only_query env k = ReadOnlyValue false)
                     /\ forall i p, (i < k - S idx)%nat ->
                          processed0 !! i = Some p ->
                          ~ stops_batch (force (ls_ctx st)) p).
    { intros Hsent Hkeep Hnode.
      exists (node' :: processed), new.
      split; [rewrite Hd, Hdone, <- app_assoc; reflexivity|].
      split; [rewrite Hs, Hsent; reflexivity|].
      split; [congruence|]. split; [exact Hgt'|]. split; [exact Hsorted|].
      split; [intros H; apply Hstop, Hkeep, H|].
      intros k text Hin.
      assert (Hk : (S idx < k)%nat).
      { rewrite Forall_forall in Hgt. apply (Hgt _ Hin). }
      destruct (Hnew k text Hin) as (Hn & Hro & Hbefore).
      rewrite (Hshift k Hk). simpl. split; [exact Hn|]. split; [exact Hro|].
      intros i p Hi Hp. destruct i as [|i]; simpl in Hp.
      - injection Hp as <-. apply Hnode.
        destruct (ls_stop_exec st1) eqn:E; [|reflexivity].
        rewrite (Hstop eq_refl) in Hin. inversion Hin.
      - rewrite <- Hforce. apply (Hbefore i p); [lia|exact Hp]. }
    destruct Hcase as [(Hst & Hsent & Hse)
                      |[(Hst & _ & Hsent & Hse)
                      |[(Hst & _ & Hsent & Hse & _)
                      |[(Hst & Hs0 & _ & Hsent & Hse)
                      |(Hs0 & Hne & Hsent & Hro & Hres)]]]].
    + apply Hquiet; [exact Hsent|congruence|].
      intros _ [H|[H _]]; rewrite Hst in H; discriminate.
    + apply Hquiet; [exact Hsent|congruence|]. congruence.
    + apply Hquiet; [exact Hsent|congruence|]. congruence.
    + apply Hquiet; [exact Hsent|congruence|].
      intros _ [H|[H _]]; rewrite Hst in H; discriminate.
    + exists (node' :: processed),
        ((S idx, Exec.strip_inception_comment (sql_text node)) :: new).
      split; [rewrite Hd, Hdone, <- app_assoc; reflexivity|].
      split; [rewrite Hs, Hsent, <- app_assoc; reflexivity|].
      split; [congruence|].
      split; [constructor; [simpl; lia|exact Hgt']|].
      split.
      { simpl. constructor; [exact Hsorted|].
        apply List.Forall_map. exact Hgt. }
      split; [congruence|].
      intros k text Hin. apply elem_of_cons in Hin as [Heq|Hin].
      * injection Heq as -> ->. rewrite Nat.sub_diag. simpl.
        split; [eexists; repeat split; auto|]. split; [exact Hro|].
        intros i p Hi. lia.
      * assert (Hk : (S idx < k)%nat).
        { rewrite Forall_forall in Hgt. apply (Hgt _ Hin). }
        destruct (Hnew k text Hin) as (Hn & Hro' & Hbefore).
        rewrite (Hshift k Hk). simpl. split; [exact Hn|].
        split; [exact Hro'|].
        intros i p Hi Hp. destruct i as [|i]; simpl in Hp.
        -- injection Hp as <-.
           destruct Hres as [(Hst & Hse)|(Hst & Hse)].
           ++ destruct (force (ls_ctx st)) eqn:Hfo.
              ** intros [H|[_ H]]; [rewrite Hst in H|]; discriminate.
              ** simpl in Hse. rewrite (Hstop Hse) in Hin. inversion Hin.
           ++ intros [H|[H _]]; rewrite Hst in H; discriminate.
        -- rewrite <- Hforce. apply (Hbefore i p); [lia|exact Hp].
Qed.

Lemma execute_statements_dispatch sv env thd ctx :
  let r := execute_statements sv env thd ctx in
  StronglySorted lt (map fst r.2)
  /\ forall k text,
       (k, text) ∈ r.2 ->
       (0 < k)%nat
       /\ (exists n, cache_nodes ctx !! (k - 1)%nat = Some n
                     /\ text = Exec.strip_inception_comment (sql_text n)
                     /\ text <> "")
       /\ (Sysvars.opt_exec_check_read_only sv = true ->
           read_only_query env k = ReadOnlyValue false)
       /\ (forall i p, (i < k - 1)%nat -> cache_nodes r.1.2 !! i = Some p ->
                       ~ stops_batch (force ctx) p)
       /\ pre_scan (force ctx) (ignore_warnings ctx) (cache_nodes ctx)
          = false.
Proof.
  assert (Hnone : forall P : nat -> string -> Prop,
             StronglySorted lt (map fst (@nil (nat * string)))
             /\ forall k text, (k, text) ∈ @nil (nat * string) -> P k text).
  { intros P. split; [constructor|]. intros k text H. inversion H. }
  unfold execute_statements.
  destruct (bool_decide (cache_nodes ctx = [])); simpl; [apply Hnone|].
  destruct (load_killed_frame env 0 ctx) as (Hf & Hi & Hc & _).
  destruct (killed (load_killed env 0 ctx)); simpl; [apply Hnone|].
  destruct (connect_remote env (load_killed env 0 ctx)) as [m|err]; simpl;
    [|apply Hnone].
  rewrite Hf, Hi, Hc.
  destruct (pre_scan (force ctx) (ignore_warnings ctx) (cache_nodes ctx))
    eqn:Hscan; simpl; [apply Hnone|].
  match goal with
  | |- context [exec_loop sv env thd ?sl ?st 0 (cache_nodes ctx)] =>
      destruct (exec_loop_dispatch sv env thd sl (cache_nodes ctx) st 0)
        as (processed & new & Hd & Hs & _ & Hgt & Hsorted & _ & Hnew)
  end.
  simpl in Hd, Hs, Hnew. rewrite Hd, Hs. simpl.
  split; [exact Hsorted|]. intros k text Hin.
  destruct (Hnew k text Hin) as (Hn & Hro & Hbefore).
  rewrite Forall_forall in Hgt. pose proof (Hgt _ Hin) as Hk. simpl in Hk.
  split; [exact Hk|]. split; [exact Hn|]. split; [exact Hro|].
  split; [|reflexivity]. rewrite <- Hf. exact Hbefore.
Qed.

Lemma pre_scan_stops_dispatch sv env thd ctx :
  pre_scan (force ctx) (ignore_warnings ctx) (cache_nodes ctx) = true ->
  (execute_statements sv env thd ctx).2 = [].
Proof.
  intros Hscan.
  destruct (execute_statements_dispatch sv env thd ctx) as [_ Hsent].
  destruct ((execute_statements sv env thd ctx).2) as [|[k text] rest];
    [reflexivity|].
  destruct (Hsent k text) as (_ & _ & _ & _ & H); [left|]. congruence.
Qed.

(** X2: what reaches the target is the batch, in order: the positions of
    the statements sent strictly increase, and the text sent at position
    [k] is the text of the [k]-th statement without its marker comment,
    which is not empty. *)
Theorem dispatch_follows_the_batch sv env thd ctx :
  let sent := (execute_statements sv env thd ctx).2 in
  StronglySorted lt (map fst sent)
  /\ forall k text,
       (k, text) ∈ sent ->
       (0 < k)%nat
       /\ exists n, cache_nodes ctx !! (k - 1)%nat = Some n
                    /\ text = Exec.strip_inception_comment (sql_text n)
                    /\ text <> "".
Proof.
  destruct (execute_statements_dispatch sv env thd ctx) as [Hsorted Hsent].
  split; [exact Hsorted|]. intros k text Hin.
  destruct (Hsent k text Hin) as (Hk & Hn & _). split; assumption.
Qed.

(** X3: with the read-only gate on, a statement is sent only after the
    target answered that it is not read-only, whatever [force] says. *)
Theorem read_only_target_is_not_written sv env thd ctx k text :
  Sysvars.opt_exec_check_read_only sv = true ->
  (k, text) ∈ (execute_statements sv env thd ctx).2 ->
  read_only_query env k = ReadOnlyValue false.
Proof.
  intros Hgate Hin.
  destruct (execute_statements_dispatch sv env thd ctx) as [_ Hsent].
  destruct (Hsent k text Hin) as (_ & _ & Hro & _). apply Hro, Hgate.
Qed.

Lemma read_only_target_is_not_written_witness :
  let ctx := execute_session clean_batch in
  let env := calm_env reachable reachable in
  (2%nat, "INSERT INTO t VALUES (2)")
    ∈ (execute_statements guarded_sysvars env idle_client ctx).2
  /\ read_only_query env 2 = ReadOnlyValue false.
Proof.
  intros ctx env.
  assert (Hsent : (2%nat, "INSERT INTO t VALUES (2)")
                    ∈ (execute_statements guarded_sysvars env idle_client
                         ctx).2)
    by (vm_compute; right; left).
  split; [exact Hsent|].
  exact (read_only_target_is_not_written guarded_sysvars env idle_client ctx
           2%nat "INSERT INTO t VALUES (2)" eq_refl Hsent).
Defined.

(** X4: once a statement's pre-check failed, or its execution failed
    while [force] is off, no later statement is sent. *)
Theorem nothing_is_sent_after_a_failure sv env thd ctx i p k text :
  let r := execute_statements sv env thd ctx in
  cache_nodes r.1.2 !! i = Some p ->
  stops_batch (force ctx) p ->
  (k, text) ∈ r.2 ->
  (k <= S i)%nat.
Proof.
  intros r Hp Hstop Hin.
  destruct (execute_statements_dispatch sv env thd ctx) as [_ Hsent].
  destruct (Hsent k text Hin) as (_ & _ & _ & Hbefore & _).
  destruct (Nat.le_gt_cases k (S i)) as [Hle|Hgt]; [exact Hle|].
  exfalso. apply (Hbefore i p); [lia|exact Hp|exact Hstop].
Qed.

Lemma nothing_is_sent_after_a_failure_witness :
  let ctx := execute_session clean_batch in
  let r := execute_statements quiet_sysvars (failing_at 1) idle_client ctx in
  (exists p, cache_nodes r.1.2 !! 0%nat = Some p
             /\ stops_batch (force ctx) p)
  /\ r.2 = [(1%nat, "INSERT INTO t VALUES (1)")]
  /\ (1 <= 1)%nat.
Proof.
  intros ctx r.
  assert (Hstop : stops_batch (force ctx)
                    (set_sequence "'1700000000_5_1'"
                       (set_stage_status "Execute failed"
                          (set_stage STAGE_EXECUTED
                             (append_error
                                "Execute failed: Table 't' doesn't exist"
                                (audited 1 "INSERT INTO t VALUES (1)"
                                   SQLCOM_INSERT 0))))))
    by (right; split; reflexivity).
  split; [eexists; split; [reflexivity|exact Hstop]|].
  split; [reflexivity|].
  apply (nothing_is_sent_after_a_failure quiet_sysvars (failing_at 1)
           idle_client ctx 0%nat _ 1%nat "INSERT INTO t VALUES (1)"
           eq_refl Hstop).
  vm_compute. left.
Defined.

(** *** The clean run *)




End Dispatch.

(** ** Numbering of the statements of a batch *)

Section Numbering.
Import Parse Exec Json Registry Scenarios CStr Context Server Remote Audit Inception Hooks Examples Spec Notions.













Lemma numbered_snoc ctx node ctx' :
  numbered ctx ->
  id node = next_id ctx ->
  cache_nodes ctx' = cache_nodes ctx ++ [node] ->
  next_id ctx' = next_id ctx + 1 ->
  numbered ctx'.
Proof.
  unfold numbered. intros [Hids Hnext] Hid Hnodes Hnext'.
  rewrite Hnodes, Hnext', length_app, map_app, Hids. simpl.
  rewrite Nat.add_1_r. rewrite seq_S, map_app. simpl.
  split; [|lia]. f_equal. f_equal. lia.
Qed.





Lemma numbered_reset ctx : numbered (reset ctx).
Proof. split; reflexivity. Qed.






End Numbering.

(** ** Statements that do not parse *)

Section ParseErrors.
Import Parse Audit Json Registry Scenarios CStr Context Server Remote Exec Inception Hooks Examples Spec Notions.

Lemma char_at_length s i : (String.length s <= i)%nat -> char_at s i = NUL.
Proof.
  unfold char_at. revert i. induction s as [|c s IH]; intros i Hi; simpl.
  - reflexivity.
  - destruct i as [|i]; simpl in *; [lia|]. apply IH. lia.
Qed.

Lemma char_at_substring s m i :
  char_at (String.substring 0 m s) i
  = if (i <? m)%nat then char_at s i else NUL.
Proof.
  unfold char_at. destruct (Nat.ltb_spec i m) as [Hlt|Hge].
  - rewrite substring_correct1 by exact Hlt. rewrite Nat.add_0_r.
    reflexivity.
  - rewrite substring_correct2 by exact Hge. reflexivity.
Qed.

Lemma memchr_first s c n : forall p,
  match memchr s p c n with
  | Some i => (p <= i < p + n)%nat /\ char_at s i = c
              /\ forall j, (p <= j < i)%nat -> char_at s j <> c
  | None => forall j, (p <= j < p + n)%nat -> char_at s j <> c
  end.
Proof.
  induction n as [|n IH]; intros p; simpl.
  - intros j Hj. lia.
  - destruct (Ascii.eqb_spec (char_at s p) c) as [He|Hne].
    + split; [lia|]. split; [exact He|]. intros j Hj. lia.
    + specialize (IH (S p)). destruct (memchr s (S p) c n) as [i|].
      * destruct IH as (Hi & Hc & Hbefore). split; [lia|].
        split; [exact Hc|]. intros j Hj.
        destruct (Nat.eq_dec j p) as [->|Hjp]; [exact Hne|].
        apply Hbefore. lia.
      * intros j Hj. destruct (Nat.eq_dec j p) as [->|Hjp]; [exact Hne|].
        apply IH. lia.
Qed.

Lemma failed_statement_text_no_semicolon q i :
  char_at (failed_statement_text q) i <> ";"%char.
Proof.
  unfold failed_statement_text, find_char.
  set (sql := Inception.strip_inception_comment q).
  pose proof (memchr_first sql ";"%char (String.length sql - 0) 0) as H.
  destruct (memchr sql 0 ";"%char (String.length sql - 0)) as [semi|].
  - destruct H as (_ & _ & Hbefore). rewrite char_at_substring.
    destruct (Nat.ltb_spec i semi); [apply Hbefore; lia|discriminate].
  - destruct (Nat.lt_ge_cases i (String.length sql)) as [Hlt|Hge].
    + apply H. lia.
    + rewrite char_at_length by exact Hge. discriminate.
Qed.

Lemma seek_semicolon_spec buf n : forall ptr,
  let p := seek_semicolon n buf ptr in
  (ptr <= p <= ptr + n)%nat
  /\ (forall j, (ptr <= j < p)%nat -> char_at buf j <> ";"%char)
  /\ ((p < ptr + n)%nat -> char_at buf p = ";"%char).
Proof.
  induction n as [|n IH]; intros ptr; simpl.
  - split; [lia|]. split; intros; lia.
  - destruct (Ascii.eqb_spec (char_at buf ptr) ";") as [He|Hne].
    + split; [lia|]. split; [intros; lia|]. intros _. exact He.
    + destruct (IH (S ptr)) as (Hr & Hbefore & Hat).
      split; [lia|]. split.
      * intros j Hj. destruct (Nat.eq_dec j ptr) as [->|Hjp]; [exact Hne|].
        apply Hbefore. lia.
      * intros Hlt. apply Hat. lia.
Qed.

(** X8: a statement that does not parse is recorded as an error of the
    batch. *)
Theorem parse_error_is_recorded sv env thd errmsg lip ctx thd1 :
  active ctx = true ->
  let r := handle_parse_error thd errmsg lip ctx in
  let ctx' := r.1.1.1.2 in
  r.1.1.1.1 = true
  /\ (exists node,
        cache_nodes ctx' = cache_nodes ctx ++ [node]
        /\ next_id ctx' = next_id ctx + 1
        /\ id node = next_id ctx
        /\ sql_command node = SQLCOM_END
        /\ stage node = STAGE_CHECKED
        /\ errlevel node = ERRLEVEL_ERROR
        /\ sql_text node = failed_statement_text (thd_query thd)
        /\ forall i, char_at (sql_text node) i <> ";"%char)
  /\ (numbered ctx -> numbered ctx')
  /\ (force ctx = false -> (execute_statements sv env thd1 ctx').2 = [])
  /\ (r.1.2 = true <->
      is_Some (found_semicolon lip)
      \/ exists j, (lip_ptr lip <= j < String.length (lip_buffer lip))%nat
                   /\ char_at (lip_buffer lip) j = ";"%char).
Proof.
  intros Hact. unfold handle_parse_error. rewrite Hact. simpl.
  rewrite removelast_last.
  set (sql := failed_statement_text (thd_query thd)).
  set (node := append_error _ _).
  assert (Hlevel : errlevel node = ERRLEVEL_ERROR) by reflexivity.
  split; [reflexivity|]. split; [|split; [|split]].
  - exists node. repeat split; try reflexivity.
    + simpl. lia.
    + intros i. apply failed_statement_text_no_semicolon.
  - intros Hnum. apply (numbered_snoc ctx node); try reflexivity.
    + exact Hnum.
    + simpl. lia.
  - intros Hforce. apply pre_scan_stops_dispatch. simpl.
    apply pre_scan_true_iff. exists node. split.
    + apply elem_of_app. right. left.
    + left. rewrite Hlevel. split; [reflexivity|exact Hforce].
  - unfold fix_found_semicolon.
    destruct (found_semicolon lip) as [f|] eqn:Hf; simpl.
    { rewrite Hf. split; [intros _; left; eexists; reflexivity|].
      intros _. apply bool_decide_eq_true. eexists. reflexivity. }
    set (end_ := String.length (lip_buffer lip)).
    destruct (seek_semicolon_spec (lip_buffer lip) (end_ - lip_ptr lip)
                (lip_ptr lip)) as (Hr & Hbefore & Hat).
    set (p := seek_semicolon _ _ _) in *.
    destruct (Nat.ltb_spec p end_) as [Hlt|Hge]; simpl.
    + split; [|intros _; reflexivity].
      intros _. right. exists p. split; [lia|]. apply Hat. lia.
    + rewrite Hf. split.
      * intros H. apply bool_decide_eq_true in H. destruct H as [x H].
        discriminate.
      * intros [[x H]|(j & Hj & Hc)]; [discriminate|].
        exfalso. apply (Hbefore j); [lia|exact Hc].
Qed.

Lemma parse_error_is_recorded_witness :
  let thd := client broken_query (plain_lex SQLCOM_END) in
  let r := handle_parse_error thd (Some "You have an error in your SQL syntax")
             broken_lexer check_session in
  active check_session = true
  /\ r.1.1.1.1 = true
  /\ (exists node,
        cache_nodes r.1.1.1.2 = [node]
        /\ errlevel node = ERRLEVEL_ERROR
        /\ sql_text node = "SELEC 1")
  /\ numbered r.1.1.1.2
  /\ r.1.2 = true.
Proof.
  intros thd r.
  destruct (parse_error_is_recorded quiet_sysvars
              (calm_env reachable reachable) thd
              (Some "You have an error in your SQL syntax") broken_lexer
              check_session idle_client eq_refl)
    as (Hdone & (node & Hnodes & _ & _ & _ & _ & Hlevel & Htext & _)
        & Hnum & _ & Hmore).
  split; [reflexivity|]. split; [exact Hdone|]. split; [|split].
  - exists node. split; [exact Hnodes|]. split; [exact Hlevel|].
    rewrite Htext. vm_compute. reflexivity.
  - apply Hnum. split; reflexivity.
  - apply Hmore. right. exists 7%nat. split; [vm_compute; lia|reflexivity].
Defined.

End ParseErrors.

(** ** The marker parser: search, slave hosts, port *)

Section MarkerParser.
Import CStr Context Server Remote Parse Examples Spec Notions.

Lemma string_tolower_length s :
  String.length (string_tolower s) = String.length s.
Proof. induction s as [|c s IH]; simpl; [reflexivity|]. rewrite IH. reflexivity. Qed.

Lemma string_tolower_app a b :
  string_tolower (a +:+ b) = string_tolower a +:+ string_tolower b.
Proof. induction a as [|c a IH]; simpl; [reflexivity|]. rewrite IH. reflexivity. Qed.

(** [strncasecmp] over the whole of [needle]. *)
Lemma strncasecmp_occurs needle : forall s,
  strncasecmp (String.length needle) s needle = true
  <-> exists pre post, s = pre +:+ post
                       /\ string_tolower pre = string_tolower needle.
Proof.
  induction needle as [|c needle IH]; intros s; simpl.
  - split; [|reflexivity]. intros _. exists "", s. split; reflexivity.
  - destruct s as [|c' s].
    + split; [discriminate|]. intros (pre & post & Hs & Hl).
      destruct pre; discriminate.
    + destruct (Ascii.eqb_spec (tolower c') (tolower c)) as [He|Hne].
      * rewrite IH. split.
        -- intros (pre & post & -> & Hl). exists (String c' pre), post.
           simpl. rewrite He, Hl. split; reflexivity.
        -- intros (pre & post & Hs & Hl). destruct pre as [|p pre];
             [discriminate|].
           simpl in Hs, Hl. injection Hs as -> ->. injection Hl as _ Hl.
           exists pre, post. split; [reflexivity|exact Hl].
      * split; [discriminate|]. intros (pre & post & Hs & Hl).
        destruct pre as [|p pre]; [discriminate|].
        simpl in Hs, Hl. injection Hs as -> ->. injection Hl as Hc _.
        contradiction.
Qed.

Lemma find_ci_upto_spec q needle k : forall i,
  match find_ci_upto k q i needle with
  | Some r =>
      (i <= r < i + k)%nat
      /\ strncasecmp (String.length needle) (cstr q r) needle = true
      /\ forall j, (i <= j < r)%nat ->
                   strncasecmp (String.length needle) (cstr q j) needle
                   = false
  | None =>
      forall j, (i <= j < i + k)%nat ->
                strncasecmp (String.length needle) (cstr q j) needle = false
  end.
Proof.
  induction k as [|k IH]; intros i; simpl.
  - intros j Hj. lia.
  - destruct (strncasecmp (String.length needle) (cstr q i) needle) eqn:Hm.
    + split; [lia|]. split; [exact Hm|]. intros j Hj. lia.
    + specialize (IH (S i)).
      destruct (find_ci_upto k q (S i) needle) as [r|].
      * destruct IH as (Hr & Hat & Hbefore). split; [lia|].
        split; [exact Hat|]. intros j Hj.
        destruct (Nat.eq_dec j i) as [->|Hji]; [exact Hm|].
        apply Hbefore. lia.
      * intros j Hj. destruct (Nat.eq_dec j i) as [->|Hji]; [exact Hm|].
        apply IH. lia.
Qed.

(** X9: [find_ci] returns the first offset of the haystack at which the
    needle occurs, letter case aside, and fails only when there is
    none. *)
Theorem find_ci_finds_the_first_occurrence q h len needle :
  match find_ci q h len needle with
  | Some i =>
      (h <= i)%nat /\ (i + String.length needle <= h + len)%nat
      /\ occurs_ci_at q i needle
      /\ forall j, (h <= j < i)%nat -> ~ occurs_ci_at q j needle
  | None =>
      forall j, (h <= j)%nat -> (j + String.length needle <= h + len)%nat ->
                ~ occurs_ci_at q j needle
  end.
Proof.
  unfold find_ci, occurs_ci_at.
  destruct (Nat.ltb_spec len (String.length needle)) as [Hshort|Hfits].
  - intros j Hj Hend. lia.
  - pose proof (find_ci_upto_spec q needle
                  (len - String.length needle + 1) h) as H.
    destruct (find_ci_upto _ q h needle) as [i|].
    + destruct H as (Hi & Hat & Hbefore). split; [lia|]. split; [lia|].
      split; [apply strncasecmp_occurs, Hat|].
      intros j Hj Hocc. apply strncasecmp_occurs in Hocc.
      rewrite (Hbefore j Hj) in Hocc. discriminate.
    + intros j Hj Hend Hocc. apply strncasecmp_occurs in Hocc.
      rewrite H in Hocc by lia. discriminate.
Qed.

(** *** Slave hosts *)

Lemma to_uint_range x : 0 <= to_uint x < 2 ^ 32.
Proof. unfold to_uint. apply Z.mod_pos_bound. lia. Qed.

Lemma parse_slave_hosts_addresses v : forall fuel pos acc,
  Forall slave_address acc ->
  Forall slave_address (parse_slave_hosts fuel v pos acc).
Proof.
  induction fuel as [|fuel IH]; intros pos acc Hacc; simpl; [exact Hacc|].
  destruct (pos <? String.length v)%nat; [|exact Hacc].
  apply IH.
  destruct (rfind_char _ ":"%char) as [colon|]; [|exact Hacc].
  match goal with
  | |- context [negb (String.eqb ?h "") && (0 <? ?p)] =>
      destruct (String.eqb_spec h "") as [He|Hne]; simpl; [exact Hacc|];
      destruct (Z.ltb_spec 0 p) as [Hp|Hp]; [|exact Hacc];
      apply Forall_app; split; [exact Hacc|];
      constructor; [|constructor];
      split; [exact Hne|]; simpl;
      pose proof (to_uint_range (strtoul (cstr (String.substring pos
                    (match find_char v "," pos with
                     | Some c => c
                     | None => String.length v
                     end - pos) v) (colon + 1)))); lia
  end.
Qed.

Lemma parse_option_slave_hosts q key key_len val val_len ctx :
  Forall slave_address (slave_hosts ctx) ->
  Forall slave_address
    (slave_hosts (parse_option q key key_len val val_len ctx)).
Proof.
  intros H. unfold parse_option.
  repeat match goal with
         | |- context [if ?b then _ else _] => destruct b
         end; simpl; try exact H.
  all: apply parse_slave_hosts_addresses; constructor.
Qed.

Lemma parse_tokens_slave_hosts q comment_end : forall fuel p ctx,
  Forall slave_address (slave_hosts ctx) ->
  Forall slave_address (slave_hosts (parse_tokens fuel q p comment_end ctx)).
Proof.
  induction fuel as [|fuel IH]; intros p ctx H; simpl; [exact H|].
  repeat first
    [ exact H
    | apply IH
    | apply parse_option_slave_hosts
    | match goal with
      | |- context [if ?b then _ else _] => destruct b
      | |- context [match ?o with Some _ => _ | None => _ end] =>
          destruct o
      end ].
Qed.

Lemma global_credentials_frame sv cr ctx :
  slave_hosts (global_credentials sv cr ctx) = slave_hosts ctx
  /\ port (global_credentials sv cr ctx) = port ctx
  /\ explicit_port (global_credentials sv cr ctx) = explicit_port ctx.
Proof.
  unfold global_credentials.
  repeat match goal with
         | |- context [if ?b then _ else _] => destruct b
         | |- context [match ?o with Some _ => _ | None => _ end] =>
             destruct o
         end; repeat split; reflexivity.
Qed.

(** X10: every slave address a session holds has a host name and a port
    that is not 0; the entries of a [slave-hosts] value that have none
    are dropped. *)
Theorem slave_hosts_are_usable sv cr q ctx :
  Forall slave_address (slave_hosts (parse_inception_start sv cr q ctx).2)
  /\ (let v := "h1:3306,nocolon,:9,h2:0,h3:3307" in
      parse_slave_hosts (String.length v) v 0 []
      = [("h1", 3306); ("h3", 3307)]).
Proof.
  split; [|vm_compute; reflexivity].
  unfold parse_inception_start.
  destruct (_ || _); simpl; [constructor|].
  match goal with
  | |- context [global_credentials sv cr ?c] =>
      destruct (global_credentials_frame sv cr c) as (Hs & _);
      assert (Hc : Forall slave_address (slave_hosts c))
        by (apply parse_tokens_slave_hosts; constructor)
  end.
  destruct (explicit_port _ && _); simpl; rewrite Hs; exact Hc.
Qed.

(** *** The port of an opened session *)

Lemma parse_option_port q key key_len val val_len ctx :
  port_invariant ctx ->
  port_invariant (parse_option q key key_len val val_len ctx).
Proof.
  intros H. unfold parse_option.
  repeat match goal with
         | |- context [if ?b then _ else _] => destruct b
         end; try exact H.
  split; [apply to_uint_range|left; reflexivity].
Qed.

Lemma parse_tokens_port q comment_end : forall fuel p ctx,
  port_invariant ctx ->
  port_invariant (parse_tokens fuel q p comment_end ctx).
Proof.
  induction fuel as [|fuel IH]; intros p ctx H; simpl; [exact H|].
  repeat first
    [ exact H
    | apply IH
    | apply parse_option_port
    | match goal with
      | |- context [if ?b then _ else _] => destruct b
      | |- context [match ?o with Some _ => _ | None => _ end] =>
          destruct o
      end ].
Qed.

(** X11: a start marker either is rejected, which leaves the session
    closed, or opens the session on a port between 1 and 65535. *)
Theorem opened_session_has_a_valid_port sv cr q ctx :
  let r := parse_inception_start sv cr q ctx in
  (r.1 = true /\ active r.2 = false)
  \/ (r.1 = false /\ active r.2 = true /\ 1 <= port r.2 <= 65535).
Proof.
  unfold parse_inception_start.
  destruct (_ || _); simpl; [left; split; reflexivity|].
  match goal with
  | |- context [parse_tokens ?f q ?p ?e (reset ctx)] =>
      assert (Hinv : port_invariant (parse_tokens f q p e (reset ctx)))
        by (apply parse_tokens_port; split; [simpl; lia|right; reflexivity]);
      pose proof (parse_tokens_kept q e f p (reset ctx)) as Hkept;
      set (c := parse_tokens f q p e (reset ctx)) in *
  end.
  destruct (global_credentials_frame sv cr c) as (_ & Hp & He).
  destruct (global_credentials_kept sv cr c) as (Hk & _).
  simpl in Hkept.
  assert (Ha : active (global_credentials sv cr c) = false).
  { pose proof (f_equal snd Hk) as H1. pose proof (f_equal snd Hkept) as H2.
    simpl in H1, H2. congruence. }
  destruct Hinv as [Hrange Hexp].
  destruct (explicit_port (global_credentials sv cr c)) eqn:Hex; simpl.
  - destruct (Z.eqb_spec (port (global_credentials sv cr c)) 0) as [H0|H0];
      simpl; [left; split; [reflexivity|exact Ha]|].
    destruct (Z.ltb_spec 65535 (port (global_credentials sv cr c)));
      simpl; [left; split; [reflexivity|exact Ha]|].
    right. repeat split; lia.
  - right. rewrite Hp. destruct Hexp as [H|H]; [congruence|].
    rewrite H. repeat split; lia.
Qed.

End MarkerParser.

(** ** The state the audit keeps *)

Section AuditState.
Import Parse Exec Inception Hooks Json Registry Scenarios CStr Context Server Remote Audit Examples Spec Notions.

(** X12: the audit connects at most once per session: whatever the first
    call to [get_remote_conn] answered, every later call answers the
    same and leaves the context alone, whatever the network would say
    by then. *)
Theorem remote_connection_is_tried_once env ctx env' :
  let r := get_remote_conn env ctx in
  get_remote_conn env' r.2 = (r.1, r.2).
Proof.
  unfold get_remote_conn.
  destruct (remote_conn ctx) as [m|] eqn:Hm; simpl; [rewrite Hm; reflexivity|].
  destruct (remote_conn_failed ctx) eqn:Hf; simpl;
    [rewrite Hm, Hf; reflexivity|].
  destruct (audit_connect env); simpl; rewrite ?Hm; reflexivity.
Qed.

(** X13: the columns of a table created in the batch are found whatever
    the letter case, and only they; creating the table again replaces
    the set; no other table of the batch schema changes. *)
Theorem created_columns_are_tracked env thd node ctx db tn :
  create_target thd = Some (db, tn) ->
  let ctx' := (audit_create_table env thd node ctx).2 in
  (forall col,
     batch_column_exists ctx' db tn col = true
     <-> exists f, f ∈ create_list (lex thd)
                   /\ string_tolower f = string_tolower col)
  /\ in_batch_tables ctx' (batch_table_key db tn) = true
  /\ forall key, key <> batch_table_key db tn ->
                 batch_tables ctx' !! key = batch_tables ctx !! key.
Proof.
  intros Ht. unfold audit_create_table. rewrite Ht.
  set (st := if in_batch_tables ctx (batch_table_key db tn) then _ else _).
  assert (Hst : batch_tables st.2 = batch_tables ctx).
  { subst st. destruct (in_batch_tables ctx _); [reflexivity|].
    pose proof (get_remote_conn_batch_tables env ctx) as H.
    destruct (get_remote_conn env ctx) as [[m|] c]; simpl in *;
      [destruct (remote_table_exists env db tn)|]; exact H. }
  destruct st as [node1 ctx1]. simpl in *.
  split; [|split].
  - intros col. unfold batch_column_exists. simpl.
    rewrite lookup_insert_eq. rewrite bool_decide_eq_true.
    rewrite elem_of_list_to_set. split.
    + intros H. apply list_elem_of_fmap in H as (f & Hf & Hin).
      exists f. split; [exact Hin|symmetry; exact Hf].
    + intros (f & Hin & Hf). apply list_elem_of_fmap.
      exists f. split; [symmetry; exact Hf|exact Hin].
  - unfold in_batch_tables. simpl. rewrite lookup_insert_eq.
    apply bool_decide_eq_true. eexists. reflexivity.
  - intros key Hne. rewrite lookup_insert_ne by congruence. rewrite Hst.
    reflexivity.
Qed.

Lemma created_columns_are_tracked_witness :
  let thd := client "CREATE TABLE d.t (Id INT, Name VARCHAR(10))"
               (create_table_stmt "d" "t" ["Id"; "Name"]) in
  let node := new_node 1 (thd_query thd) SQLCOM_CREATE_TABLE in
  let ctx' := (audit_create_table (calm_env reachable reachable) thd node
                 check_session).2 in
  create_target thd = Some ("d", "t")
  /\ batch_column_exists ctx' "d" "t" "NAME" = true
  /\ batch_column_exists ctx' "d" "t" "age" = false
  /\ in_batch_tables ctx' (batch_table_key "d" "t") = true.
Proof.
  intros thd node ctx'.
  destruct (created_columns_are_tracked (calm_env reachable reachable) thd
              node check_session "d" "t" eq_refl)
    as (Hcols & Htable & _).
  split; [reflexivity|]. split; [|split; [|exact Htable]].
  - apply Hcols. exists "Name". split; [right; left|reflexivity].
  - destruct (batch_column_exists _ "d" "t" "age") eqn:Hage; [|reflexivity].
    apply Hcols in Hage as (f & Hin & Hf). exfalso.
    apply elem_of_cons in Hin as [->|Hin]; [discriminate|].
    apply list_elem_of_singleton in Hin as ->. discriminate.
Defined.

(** *** The sub-type of an ALTER TABLE *)

Lemma flag_name_not_empty f : flag_name f <> "".
Proof. destruct f; discriminate. Qed.

Lemma append_not_empty a b : b <> "" -> a +:+ b <> "".
Proof. destruct a, b; simpl; intros H; try discriminate; contradiction. Qed.

Lemma string_app_assoc (a b c : string) : (a +:+ b) +:+ c = a +:+ b +:+ c.
Proof.
  induction a as [|x a IH]; [reflexivity|].
  change (String x ((a +:+ b) +:+ c) = String x (a +:+ b +:+ c)).
  f_equal. exact IH.
Qed.

Lemma sub_type_fold (present : AlterFlag -> bool) (fs : list AlterFlag) :
  forall acc,
    fold_left
      (fun (result : string) (f : AlterFlag) =>
         if present f then
           (if String.eqb result "" then "" else result +:+ ",")
           +:+ flag_name f
         else result) fs acc
    = match map flag_name (filter (fun f => present f = true) fs) with
      | [] => acc
      | names => (if String.eqb acc "" then "" else acc +:+ ",")
                 +:+ comma_join names
      end.
Proof.
  induction fs as [|f fs IH]; intros acc; simpl; [reflexivity|].
  rewrite IH. unfold filter at 2. simpl.
  destruct (decide (present f = true)) as [Hp|Hp].
  - rewrite Hp. simpl. fold (filter (fun f : AlterFlag => present f = true) fs).
    destruct (map flag_name (filter (fun f => present f = true) fs))
      as [|name names] eqn:E; [reflexivity|].
    assert (Hne : (if String.eqb acc "" then "" else acc +:+ ",")
                  +:+ flag_name f <> "")
      by (apply append_not_empty, flag_name_not_empty).
    destruct (String.eqb_spec
                ((if String.eqb acc "" then "" else acc +:+ ",")
                 +:+ flag_name f) "") as [He|_]; [contradiction|].
    destruct (String.eqb acc ""); simpl;
      rewrite ?string_app_assoc; reflexivity.
  - destruct (present f); [contradiction|].
    fold (filter (fun f : AlterFlag => present f = true) fs). reflexivity.
Qed.

Lemma comma_join_not_empty names :
  names <> [] -> Forall (fun n => n <> "") names -> comma_join names <> "".
Proof.
  destruct names as [|n [|n' rest]]; intros Hne Hall; [contradiction| |].
  - inversion Hall. assumption.
  - simpl. inversion Hall. destruct n; [contradiction|discriminate].
Qed.

(** X14: the sub-type of an ALTER TABLE is the list of the names of the
    operations its flags hold, in the order of the table and separated
    by commas, or OTHER when it holds none; it is never empty. *)
Theorem sub_type_lists_the_operations fv flags :
  let names :=
    map flag_name (filter (fun f => has_flag fv flags f = true) all_flags) in
  resolve_alter_sub_type fv flags
  = (if bool_decide (names = []) then "OTHER" else comma_join names)
  /\ resolve_alter_sub_type fv flags <> "".
Proof.
  intros names.
  assert (Heq : resolve_alter_sub_type fv flags
                = if bool_decide (names = []) then "OTHER"
                  else comma_join names).
  { unfold resolve_alter_sub_type. rewrite sub_type_fold. fold names.
    destruct names as [|n ns] eqn:E; [reflexivity|].
    rewrite bool_decide_eq_false_2 by discriminate.
    change (String.eqb "" "") with true. cbv iota.
    change ("" +:+ comma_join (n :: ns)) with (comma_join (n :: ns)).
    assert (Hne : comma_join (n :: ns) <> "").
    { apply comma_join_not_empty; [discriminate|].
      rewrite <- E. subst names. apply Forall_forall. intros x Hx.
      apply list_elem_of_fmap in Hx as (f & -> & _).
      apply flag_name_not_empty. }
    destruct (String.eqb_spec (comma_join (n :: ns)) ""); [contradiction|].
    reflexivity. }
  split; [exact Heq|]. rewrite Heq.
  destruct (bool_decide_reflect (names = [])) as [_|Hne]; [discriminate|].
  apply comma_join_not_empty; [exact Hne|].
  subst names. apply Forall_forall. intros x Hx.
  apply list_elem_of_fmap in Hx as (f & -> & _). apply flag_name_not_empty.
Qed.

End AuditState.

(** ** The registry of sessions *)

Section SessionRegistry.
Import Parse Audit Inception Hooks Json Scenarios CStr Context Server Remote Exec Registry Examples Spec Notions.

Variable thread_id_of : N -> Z.

Lemma targeted_test tid k c :
  (thread_id_of k =? tid) && active c = true <-> targeted thread_id_of tid (k, c).
Proof.
  unfold targeted. simpl. rewrite andb_true_iff, Z.eqb_eq. reflexivity.
Qed.

Lemma mark_session_killed_spec tid m :
  match mark_session_killed thread_id_of tid m with
  | (Some c, m') =>
      exists pre k post,
        m = pre ++ (k, c) :: post
        /\ Forall (fun e => ~ targeted thread_id_of tid e) pre
        /\ targeted thread_id_of tid (k, c)
        /\ m' = pre ++ (k, set_killed true c) :: post
  | (None, m') =>
      m' = m /\ Forall (fun e => ~ targeted thread_id_of tid e) m
  end.
Proof.
  induction m as [|[k c] rest IH]; simpl.
  - split; [reflexivity|constructor].
  - destruct ((thread_id_of k =? tid) && active c) eqn:Ht.
    + exists [], k, rest. repeat split; try constructor.
      * apply targeted_test in Ht. apply Ht.
      * apply targeted_test in Ht. apply Ht.
    + assert (Hno : ~ targeted thread_id_of tid (k, c)).
      { intros H. apply targeted_test in H. congruence. }
      destruct (mark_session_killed thread_id_of tid rest) as [[c'|] rest'].
      * destruct IH as (pre & k' & post & -> & Hpre & Hk & ->).
        exists ((k, c) :: pre), k', post. repeat split; try apply Hk.
        constructor; assumption.
      * destruct IH as [-> Hall]. split; [reflexivity|].
        constructor; assumption.
Qed.

(** X15: [inception kill] marks the first active session of the thread
    it names, and nothing else: the session is found exactly when the
    registry holds an active session of that thread; then only its
    [killed] flag changes, and otherwise the registry is left as it
    is.  Only a forced kill makes a request of the remote target, and
    it is made of the target the session itself names. *)
Theorem kill_marks_one_active_session tid force_ m :
  let r := kill_session thread_id_of tid force_ m in
  (r.1.1 = true <-> Exists (targeted thread_id_of tid) m)
  /\ (r.1.1 = false -> r.1.2 = m /\ r.2 = None)
  /\ (r.1.1 = true ->
      exists pre k c post,
        m = pre ++ (k, c) :: post
        /\ Forall (fun e => ~ targeted thread_id_of tid e) pre
        /\ targeted thread_id_of tid (k, c)
        /\ r.1.2 = pre ++ (k, set_killed true c) :: post
        /\ forall kr, r.2 = Some kr ->
             force_ = true /\ 0 < remote_exec_thread_id c
             /\ kr_host kr = host c /\ host c <> ""
             /\ kr_port kr = port c)
  /\ (force_ = false -> r.2 = None).
Proof.
  unfold kill_session.
  pose proof (mark_session_killed_spec tid m) as H.
  destruct (mark_session_killed thread_id_of tid m) as [[c|] m']; simpl.
  - destruct H as (pre & k & post & -> & Hpre & Hk & ->).
    split; [|split; [discriminate|split]].
    + split; [intros _|reflexivity].
      apply Exists_app. right. left. exact Hk.
    + intros _. exists pre, k, c, post. repeat split; try apply Hk; auto.
      all: destruct force_; simpl in *; try discriminate.
      all: destruct (Z.ltb_spec 0 (remote_exec_thread_id c)); simpl in *;
        try discriminate.
      all: destruct (String.eqb_spec (host c) ""); simpl in *;
        try discriminate.
      all: try (injection H as <-; simpl); auto.
    + intros ->. reflexivity.
  - destruct H as [-> Hall].
    split; [|split; [split; reflexivity|split; [discriminate|reflexivity]]].
    split; [discriminate|]. intros Hex. exfalso.
    apply Exists_exists in Hex as (e & Hin & He).
    rewrite Forall_forall in Hall. apply (Hall e Hin He).
Qed.

(** X16: [inception set sleep] changes the pause of the first active
    session of the thread it names, and nothing else. *)
Theorem set_sleep_changes_one_active_session tid ms m :
  let r := set_sleep_by_thread_id thread_id_of tid ms m in
  (r.1 = true <-> Exists (targeted thread_id_of tid) m)
  /\ (r.1 = false -> r.2 = m)
  /\ (r.1 = true ->
      exists pre k c post,
        m = pre ++ (k, c) :: post
        /\ Forall (fun e => ~ targeted thread_id_of tid e) pre
        /\ targeted thread_id_of tid (k, c)
        /\ r.2 = pre ++ (k, set_sleep_ms ms c) :: post).
Proof.
  induction m as [|[k c] rest IH]; simpl.
  - split; [|split; [reflexivity|discriminate]].
    split; [discriminate|]. intros H. inversion H.
  - destruct ((thread_id_of k =? tid) && active c) eqn:Ht; simpl.
    + apply targeted_test in Ht.
      split; [split; [intros _; left; exact Ht|reflexivity]|].
      split; [discriminate|]. intros _. exists [], k, c, rest.
      repeat split; try constructor; apply Ht.
    + assert (Hno : ~ targeted thread_id_of tid (k, c)).
      { intros H. apply targeted_test in H. congruence. }
      destruct (set_sleep_by_thread_id thread_id_of tid ms rest)
        as [found rest']. simpl in *.
      destruct IH as (Hfound & Hnot & Hyes).
      split; [|split].
      * rewrite Hfound. split; [intros H; right; exact H|].
        intros H. apply Exists_cons in H as [H|H]; [contradiction|exact H].
      * intros H. rewrite (Hnot H). reflexivity.
      * intros H. destruct (Hyes H) as (pre & k' & c' & post & -> & Hp & Hk & ->).
        exists ((k, c) :: pre), k', c', post. repeat split; try apply Hk.
        constructor; assumption.
Qed.

(** *** The map itself *)

Lemma registered_lt thd m :
  ordered m -> Forall (fun k => (thd < k)%N) (map fst m) ->
  registered thd m = None.
Proof.
  induction m as [|[k c] rest IH]; intros Ho Hall; simpl; [reflexivity|].
  inversion Hall as [|? ? Hk Hrest]; subst. inversion Ho; subst.
  destruct (N.eqb_spec thd k); [lia|]. apply IH; assumption.
Qed.

Lemma get_context_spec thd m :
  ordered m ->
  let r := get_context thd m in
  ordered r.2
  /\ r.1 = default fresh_context (registered thd m)
  /\ registered thd r.2 = Some r.1
  /\ (forall k, k <> thd -> registered k r.2 = registered k m)
  /\ (forall k, k ∈ map fst r.2 <-> k = thd \/ k ∈ map fst m).
Proof.
  unfold ordered. induction m as [|[k c] rest IH]; intros Ho; simpl.
  - rewrite N.eqb_refl. repeat split.
    + repeat constructor.
    + intros k Hk. destruct (N.eqb_spec k thd); [contradiction|reflexivity].
    + intros H. apply list_elem_of_singleton in H. left. exact H.
    + intros [->|H]; [left|inversion H].
  - inversion Ho as [|? ? Hrest Hk]; subst.
    destruct (N.ltb_spec thd k) as [Hlt|Hge]; simpl.
    + rewrite N.eqb_refl.
      destruct (N.eqb_spec thd k) as [->|Hne]; [lia|].
      repeat split.
      * constructor; [exact Ho|]. constructor; [exact Hlt|].
        eapply Forall_impl; [exact Hk|]. simpl. intros; lia.
      * rewrite (registered_lt thd rest Hrest); [reflexivity|].
        eapply Forall_impl; [exact Hk|]. simpl. intros; lia.
      * intros k0 Hk0. destruct (N.eqb_spec k0 thd); [contradiction|].
        reflexivity.
      * intros H. apply elem_of_cons in H as [->|H]; [left; reflexivity|].
        right. exact H.
      * intros [->|H]; [left|right; exact H].
    + destruct (N.eqb_spec thd k) as [->|Hne]; simpl.
      * rewrite N.eqb_refl. repeat split; try assumption.
        -- intros H. right. exact H.
        -- intros [->|H]; [left|exact H].
      * destruct (IH Hrest) as (Ho' & Hr & Hreg & Hother & Hkeys).
        destruct (get_context thd rest) as [r rest']. simpl in *.
        destruct (N.eqb_spec thd k) as [->|_]; [contradiction|].
        repeat split; try assumption.
        -- constructor; [exact Ho'|]. apply Forall_forall. intros x Hx.
           apply Hkeys in Hx as [->|Hx]; [lia|].
           rewrite Forall_forall in Hk. apply Hk, Hx.
        -- intros k0 Hk0. destruct (k0 =? k)%N; [reflexivity|].
           apply Hother, Hk0.
        -- intros H. apply elem_of_cons in H as [->|H];
             [right; left|].
           apply Hkeys in H as [->|H]; [left; reflexivity|right; right; exact H].
        -- intros [->|H].
           ++ right. apply Hkeys. left. reflexivity.
           ++ apply elem_of_cons in H as [->|H]; [left|].
              right. apply Hkeys. right. exact H.
Qed.

Lemma destroy_context_spec thd m :
  ordered m ->
  ordered (destroy_context thd m)
  /\ registered thd (destroy_context thd m) = None
  /\ (forall k, k <> thd ->
        registered k (destroy_context thd m) = registered k m)
  /\ (forall k, k ∈ map fst (destroy_context thd m) -> k ∈ map fst m).
Proof.
  unfold ordered. induction m as [|[k c] rest IH]; intros Ho; simpl.
  - repeat split; auto.
  - inversion Ho as [|? ? Hrest Hk]; subst.
    destruct (N.eqb_spec thd k) as [->|Hne]; simpl.
    + repeat split.
      * exact Hrest.
      * apply registered_lt; assumption.
      * intros k0 Hk0. destruct (N.eqb_spec k0 k); [contradiction|].
        reflexivity.
      * intros k0 H. right. exact H.
    + destruct (IH Hrest) as (Ho' & Hreg & Hother & Hkeys).
      destruct (N.eqb_spec thd k) as [->|_]; [contradiction|].
      repeat split; try assumption.
      * constructor; [exact Ho'|]. apply Forall_forall. intros x Hx.
        rewrite Forall_forall in Hk. apply Hk, Hkeys, Hx.
      * intros k0 Hk0. destruct (k0 =? k)%N; [reflexivity|].
        apply Hother, Hk0.
      * intros k0 H. apply elem_of_cons in H as [->|H]; [left|].
        right. apply Hkeys, H.
Qed.

Lemma get_context_stable thd m c :
  ordered m -> registered thd m = Some c -> get_context thd m = (c, m).
Proof.
  unfold ordered. induction m as [|[k c0] rest IH]; intros Ho Hc;
    simpl in *; [discriminate|].
  inversion Ho as [|? ? Hrest Hk]; subst.
  destruct (N.ltb_spec thd k) as [Hlt|Hge].
  - destruct (N.eqb_spec thd k) as [->|Hne]; [lia|].
    rewrite registered_lt in Hc; [discriminate|exact Hrest|].
    eapply Forall_impl; [exact Hk|]. simpl. intros; lia.
  - destruct (N.eqb_spec thd k) as [->|Hne]; [congruence|].
    rewrite (IH Hrest Hc). reflexivity.
Qed.

(** X17: the registry is a map: looking a THD up registers a fresh context
    for it when it has none, changes nothing when it has one, and never
    touches the context of another THD; destroying the context of a
    THD forgets it, so that the next lookup starts from a fresh one. *)
Theorem registry_is_a_map thd m :
  ordered m ->
  let r := get_context thd m in
  ordered r.2
  /\ r.1 = default fresh_context (registered thd m)
  /\ registered thd r.2 = Some r.1
  /\ (forall k, k <> thd -> registered k r.2 = registered k m)
  /\ get_context thd r.2 = r
  /\ ordered (destroy_context thd m)
  /\ registered thd (destroy_context thd m) = None
  /\ (forall k, k <> thd ->
        registered k (destroy_context thd m) = registered k m)
  /\ (get_context thd (destroy_context thd m)).1 = fresh_context.
Proof.
  intros Ho r.
  destruct (get_context_spec thd m Ho) as (Ho1 & Hr & Hreg & Hother & _).
  destruct (destroy_context_spec thd m Ho) as (Ho2 & Hreg2 & Hother2 & _).
  fold r in Ho1, Hr, Hreg, Hother.
  destruct (get_context_spec thd r.2 Ho1) as (_ & Hr' & _ & _ & _).
  destruct (get_context_spec thd (destroy_context thd m) Ho2)
    as (_ & Hr2 & _).
  repeat split; try assumption.
  - rewrite (get_context_stable thd r.2 r.1 Ho1 Hreg).
    destruct r; reflexivity.
  - rewrite Hr2, Hreg2. reflexivity.
Qed.

Lemma registry_is_a_map_witness :
  let r := get_context 2%N two_sessions in
  ordered two_sessions
  /\ ordered r.2
  /\ r.1 = fresh_context
  /\ registered 2%N r.2 = Some fresh_context
  /\ registered 3%N r.2 = registered 3%N two_sessions
  /\ registered 3%N (destroy_context 3%N two_sessions) = None.
Proof.
  intros r.
  assert (Ho : ordered two_sessions).
  { unfold ordered. simpl. repeat constructor. }
  destruct (registry_is_a_map 2%N two_sessions Ho)
    as (Ho' & Hr & Hreg & Hother & _).
  destruct (registry_is_a_map 3%N two_sessions Ho)
    as (_ & _ & _ & _ & _ & _ & Hgone & _).
  split; [exact Ho|]. split; [exact Ho'|]. split; [exact Hr|].
  split; [etransitivity; [exact Hreg|f_equal; exact Hr]|].
  split; [apply Hother; discriminate|exact Hgone].
Defined.

(** *** The listing of sessions *)

Lemma executed_at_most_total (nodes : list SqlCacheNode) :
  (List.length (filter (fun node => (STAGE_EXECUTED <= stage node)%Z) nodes)
   <= List.length nodes)%nat.
Proof. apply length_filter. Qed.

(** X18: [inception show sessions] lists the active sessions, each once
    and in the order of the registry, and no session that is not
    active; in every row the count of executed statements is at most the
    count of statements. *)
Theorem sessions_listing_shows_the_active_sessions m :
  let rows := get_active_sessions thread_id_of m in
  map si_thread_id rows
  = map (fun e => thread_id_of e.1) (filter (fun e => active e.2 = true) m)
  /\ rows = map (fun e => session_info thread_id_of e.1 e.2)
              (filter (fun e => active e.2 = true) m)
  /\ Forall (fun si => 0 <= si_executed_sql si <= si_total_sql si) rows.
Proof.
  assert (Hrows : get_active_sessions thread_id_of m
                  = map (fun e => session_info thread_id_of e.1 e.2)
                      (filter (fun e => active e.2 = true) m)).
  { unfold ctx_map in *.
    induction m as [|[k c] rest IH]; [reflexivity|].
    cbn [get_active_sessions]. destruct (active c) eqn:Ha.
    - rewrite filter_cons_True by exact Ha. cbn [map fst snd].
      rewrite IH. reflexivity.
    - rewrite filter_cons_False by (simpl; congruence). exact IH. }
  simpl. rewrite Hrows. split; [|split; [reflexivity|]].
  - rewrite map_map. reflexivity.
  - apply Forall_forall. intros si Hsi.
    apply list_elem_of_fmap in Hsi as ([k c] & -> & _). simpl.
    pose proof (executed_at_most_total (cache_nodes c)). lia.
Qed.

(** X19: a session that was killed runs nothing more: executing the batch
    of the session [inception kill] marked sends no statement, and gives
    every record of the batch the status "Killed by user". *)
Theorem killed_session_runs_nothing tid force_ m sv env thd :
  let r := kill_session thread_id_of tid force_ m in
  r.1.1 = true ->
  exists k c,
    (k, c) ∈ r.1.2 /\ targeted thread_id_of tid (k, c)
    /\ killed c = true
    /\ (execute_statements sv env thd c).2 = []
    /\ Forall (fun n => stage_status n = "Killed by user")
         (cache_nodes (execute_statements sv env thd c).1.2).
Proof.
  unfold kill_session.
  pose proof (mark_session_killed_spec tid m) as H.
  destruct (mark_session_killed thread_id_of tid m) as [[c|] m']; simpl;
    [|discriminate].
  intros _. destruct H as (pre & k & post & -> & _ & Hk & ->).
  exists k, (set_killed true c).
  split; [apply elem_of_app; right; left|].
  split; [exact Hk|]. split; [reflexivity|].
  unfold execute_statements.
  destruct (bool_decide_reflect (cache_nodes (set_killed true c) = []))
    as [Hnil|_]; simpl.
  { split; [reflexivity|]. simpl in Hnil. rewrite Hnil. constructor. }
  rewrite killed_load_killed. simpl. rewrite orb_true_r. simpl.
  split; [reflexivity|].
  replace (cache_nodes (load_killed env 0 (set_killed true c)))
    with (cache_nodes c)
    by (unfold load_killed; destruct (kill_arrives env 0); reflexivity).
  apply Forall_forall. intros n Hn.
  apply list_elem_of_fmap in Hn as (n0 & -> & _). reflexivity.
Qed.

End SessionRegistry.

Section KilledSession.
Import Parse Audit Inception Hooks Json Scenarios CStr Context Server Remote Exec Registry Examples Spec Notions.

Lemma killed_session_runs_nothing_witness :
  let r := kill_session Z.of_N 3 false two_sessions in
  r.1.1 = true
  /\ exists k c,
       (k, c) ∈ r.1.2 /\ targeted Z.of_N 3 (k, c)
       /\ killed c = true
       /\ (execute_statements quiet_sysvars (calm_env reachable reachable)
             idle_client c).2 = []
       /\ Forall (fun n => stage_status n = "Killed by user")
            (cache_nodes
               (execute_statements quiet_sysvars
                  (calm_env reachable reachable) idle_client c).1.2).
Proof.
  intros r. split; [reflexivity|].
  apply (killed_session_runs_nothing Z.of_N 3 false two_sessions
           quiet_sysvars (calm_env reachable reachable) idle_client).
  reflexivity.
Defined.

End KilledSession.

(** ** JSON text and the audit log *)

Section JsonText.
Import Server Remote Parse Audit Exec Inception Hooks Registry Scenarios CStr Context Json Examples Spec Notions.

Lemma every_char_app P a b :
  every_char P (a +:+ b) <-> every_char P a /\ every_char P b.
Proof.
  induction a as [|x a IH].
  - simpl. tauto.
  - change (every_char P (String x (a +:+ b))
            <-> every_char P (String x a) /\ every_char P b).
    simpl. rewrite IH. tauto.
Qed.

Lemma every_char_impl (P Q : ascii -> Prop) s :
  (forall c, P c -> Q c) -> every_char P s -> every_char Q s.
Proof.
  intros H. induction s as [|c s IH]; simpl; [auto|].
  intros [Hc Hs]. split; auto.
Qed.

Lemma every_char_c_str P s : every_char P s -> every_char P (c_str s).
Proof.
  induction s as [|c s IH]; simpl; [auto|].
  intros [Hc Hs]. destruct (Ascii.eqb c NUL); simpl; auto.
Qed.

Lemma json_unescape_escape_char c rest :
  json_unescape (escape_char c +:+ rest) = String c (json_unescape rest).
Proof.
  destruct c as [[] [] [] [] [] [] [] []]; reflexivity.
Qed.

Lemma escape_char_printable c : printable (escape_char c).
Proof.
  destruct c as [[] [] [] [] [] [] [] []]; vm_compute; intuition discriminate.
Qed.

Lemma json_unescape_escape s : json_unescape (Tree.json_escape s) = s.
Proof.
  induction s as [|c s IH]; [reflexivity|].
  simpl. rewrite json_unescape_escape_char, IH. reflexivity.
Qed.

Lemma json_escape_printable s : printable (Tree.json_escape s).
Proof.
  induction s as [|c s IH]; simpl; [exact I|].
  apply every_char_app. split; [apply escape_char_printable|exact IH].
Qed.

Lemma json_escape_one_line s : free_of "010" (Tree.json_escape s).
Proof.
  eapply every_char_impl; [|apply json_escape_printable].
  intros c Hc ->. vm_compute in Hc. apply Hc. reflexivity.
Qed.

(** X20: the escaped text determines the text: two strings with the same
    escaped form are the same string; and no byte of an escaped text is
    a control character, so it holds no line feed. *)
Theorem json_escape_is_faithful s1 s2 :
  (Tree.json_escape s1 = Tree.json_escape s2 <-> s1 = s2)
  /\ printable (Tree.json_escape s1)
  /\ free_of "010" (Tree.json_escape s1).
Proof.
  split; [|split].
  - split; [|intros ->; reflexivity].
    intros H. rewrite <- (json_unescape_escape s1), H.
    apply json_unescape_escape.
  - apply json_escape_printable.
  - apply json_escape_one_line.
Qed.

(** *** The escaper of the audit log *)

Lemma log_escape_from_spec max_len s : forall count,
  (0 < max_len)%nat -> (count <= max_len)%nat ->
  Log.json_escape_from max_len count s
  = if (String.length (c_str s) <=? max_len - count)%nat
    then Tree.json_escape (c_str s)
    else Tree.json_escape (String.substring 0 (max_len - count) (c_str s))
         +:+ "...".
Proof.
  intros count Hpos. revert count.
  induction s as [|c s IH]; intros count Hcount; simpl; [reflexivity|].
  destruct (Ascii.eqb c NUL); simpl; [reflexivity|].
  destruct (Nat.ltb_spec 0 max_len) as [_|]; [|lia]. simpl.
  destruct (Nat.ltb_spec max_len (S count)) as [Hfull|Hroom].
  - replace (max_len - count)%nat with 0%nat by lia. simpl. reflexivity.
  - rewrite IH by lia.
    replace (max_len - count)%nat with (S (max_len - S count)) by lia.
    simpl.
    destruct (String.length (c_str s) <=? max_len - S count)%nat;
      [reflexivity|].
    rewrite string_app_assoc. reflexivity.
Qed.

Lemma log_escape_all s : forall count,
  Log.json_escape_from 0 count s = Tree.json_escape (c_str s).
Proof.
  induction s as [|c s IH]; intros count; simpl; [reflexivity|].
  destruct (Ascii.eqb c NUL); simpl; [reflexivity|].
  rewrite IH. reflexivity.
Qed.

Lemma log_escape_cases s max_len :
  Log.json_escape s max_len
  = if (max_len =? 0)%nat || (String.length (c_str s) <=? max_len)%nat
    then Tree.json_escape (c_str s)
    else Tree.json_escape (String.substring 0 max_len (c_str s))
         +:+ "...".
Proof.
  unfold Log.json_escape. destruct max_len as [|n].
  - simpl. apply log_escape_all.
  - rewrite log_escape_from_spec by lia. rewrite Nat.sub_0_r. reflexivity.
Qed.

(** X21: the escaper of the audit log escapes the text of its C string the
    way the escaper of the query tree does, and all of it unless a limit
    is given: past the limit it takes that many bytes and marks the cut
    with three dots. *)
Theorem log_escape_cuts_at_the_limit s max_len :
  Log.json_escape s max_len
  = if (max_len =? 0)%nat || (String.length (c_str s) <=? max_len)%nat
    then Tree.json_escape (c_str s)
    else Tree.json_escape (String.substring 0 max_len (c_str s))
         +:+ "...".
Proof. apply log_escape_cases. Qed.

(** *** One record, one line *)

Lemma pretty_N_go_chars (P : ascii -> Prop) x : forall s,
  (forall d, P (pretty_N_char d)) ->
  every_char P s -> every_char P (pretty_N_go x s).
Proof.
  induction (N.lt_wf_0 x) as [x _ IH]; intros s Hd Hs.
  destruct (N.eq_dec x 0%N) as [->|Hx]; [rewrite pretty_N_go_0; exact Hs|].
  rewrite pretty_N_go_step by lia.
  apply IH; [apply N.div_lt; lia|exact Hd|]. simpl. split; [apply Hd|exact Hs].
Qed.

Lemma pretty_Z_chars (P : ascii -> Prop) (z : Z) :
  (forall d, P (pretty_N_char d)) -> P "-"%char ->
  every_char P (pretty z).
Proof.
  intros Hd Hm.
  assert (HN : forall n : N, every_char P (pretty n)).
  { intros n. unfold pretty, pretty_N.
    destruct (decide (n = 0%N)); [simpl; split; [apply (Hd 0%N)|exact I]|].
    apply pretty_N_go_chars; [exact Hd|exact I]. }
  destruct z as [|p|p]; unfold pretty, pretty_Z.
  - simpl. split; [apply (Hd 0%N)|exact I].
  - apply (HN (Npos p)).
  - change (every_char P (String "-" (pretty (Npos p)))).
    simpl. split; [exact Hm|apply (HN (Npos p))].
Qed.

Lemma pretty_Z_one_line (z : Z) : free_of "010" (pretty z).
Proof.
  apply pretty_Z_chars; [|discriminate].
  intros d. unfold pretty_N_char.
  repeat match goal with
         | |- context [match ?x with _ => _ end] => destruct x
         end; discriminate.
Qed.

Lemma log_escape_one_line s n : free_of "010" (Log.json_escape s n).
Proof.
  rewrite log_escape_cases.
  destruct (_ || _); [apply json_escape_one_line|].
  apply every_char_app. split; [apply json_escape_one_line|].
  simpl. repeat split; discriminate.
Qed.

Lemma text_field_one_line name value :
  free_of "010" name -> free_of "010" (c_str value) ->
  free_of "010" (Log.text_field name value).
Proof.
  intros Hn Hv. unfold Log.text_field, free_of in *.
  simpl. split; [discriminate|].
  apply every_char_app. split; [exact Hn|].
  simpl. split; [discriminate|]. split; [discriminate|].
  split; [discriminate|].
  apply every_char_app. split; [exact Hv|].
  simpl. split; [discriminate|exact I].
Qed.

Lemma escaped_field_one_line name s n :
  free_of "010" name ->
  free_of "010" (Log.text_field name (Log.json_escape s n)).
Proof.
  intros Hn. apply text_field_one_line; [exact Hn|].
  apply every_char_c_str, log_escape_one_line.
Qed.

Lemma number_field_one_line name value :
  free_of "010" name -> free_of "010" (Log.number_field name value).
Proof.
  intros Hn. unfold Log.number_field, free_of in *.
  simpl. split; [discriminate|].
  apply every_char_app. split; [exact Hn|].
  simpl. split; [discriminate|]. split; [discriminate|].
  apply pretty_Z_one_line.
Qed.

Lemma single_line_app a b :
  free_of "010" a -> single_line b -> single_line (a +:+ b).
Proof.
  intros Ha (body & -> & Hb). exists (a +:+ body). split.
  - symmetry. apply string_app_assoc.
  - apply every_char_app. split; assumption.
Qed.

Lemma single_line_end : single_line (String "010" "").
Proof. exists "". split; [reflexivity|exact I]. Qed.

(** A name or a separator of the format holds no line feed. *)
Ltac literal := simpl; repeat split; discriminate.

(** X22: every record of the audit log is one line: whatever the user
    names, the target and the statement hold, the text written for a
    session or for a statement has a single line feed, at its end. *)
Theorem audit_log_records_are_single_lines time user_ client_host ctx :
  free_of "010" (c_str time) ->
  (forall statements errors duration_ms,
     single_line
       (Log.audit_log_session_line time user_ client_host ctx statements
          errors duration_ms))
  /\ (forall node,
        free_of "010" (c_str (execute_time node)) ->
        single_line
          (Log.audit_log_statement_line time user_ client_host ctx node)).
Proof.
  intros Htime. split.
  - intros statements errors duration_ms.
    unfold Log.audit_log_session_line.
    apply single_line_app; [literal|].
    apply single_line_app; [apply text_field_one_line; [literal|exact Htime]|].
    apply single_line_app; [literal|].
    apply single_line_app; [apply text_field_one_line; literal|].
    apply single_line_app; [literal|].
    apply single_line_app; [apply escaped_field_one_line; literal|].
    apply single_line_app; [literal|].
    apply single_line_app; [apply escaped_field_one_line; literal|].
    apply single_line_app; [literal|].
    apply single_line_app; [apply escaped_field_one_line; literal|].
    apply single_line_app; [literal|].
    apply single_line_app; [apply escaped_field_one_line; literal|].
    apply single_line_app; [literal|].
    apply single_line_app;
      [apply text_field_one_line; [literal|destruct (mode ctx); literal]|].
    apply single_line_app; [literal|].
    apply single_line_app; [apply number_field_one_line; literal|].
    apply single_line_app; [literal|].
    apply single_line_app; [apply number_field_one_line; literal|].
    apply single_line_app; [literal|].
    apply single_line_app; [apply number_field_one_line; literal|].
    apply single_line_app; [literal|].
    apply single_line_end.
  - intros node Hexec. unfold Log.audit_log_statement_line.
    apply single_line_app; [literal|].
    apply single_line_app; [apply text_field_one_line; [literal|exact Htime]|].
    apply single_line_app; [literal|].
    apply single_line_app; [apply text_field_one_line; literal|].
    apply single_line_app; [literal|].
    apply single_line_app; [apply escaped_field_one_line; literal|].
    apply single_line_app; [literal|].
    apply single_line_app; [apply escaped_field_one_line; literal|].
    apply single_line_app; [literal|].
    apply single_line_app; [apply escaped_field_one_line; literal|].
    apply single_line_app; [literal|].
    apply single_line_app; [apply number_field_one_line; literal|].
    apply single_line_app; [literal|].
    apply single_line_app; [apply escaped_field_one_line; literal|].
    apply single_line_app; [literal|].
    apply single_line_app;
      [apply text_field_one_line;
         [literal|destruct (ERRLEVEL_ERROR <=? errlevel node); literal]|].
    apply single_line_app; [literal|].
    apply single_line_app; [apply number_field_one_line; literal|].
    apply single_line_app; [literal|].
    apply single_line_app; [apply text_field_one_line; [literal|exact Hexec]|].
    apply single_line_app; [literal|].
    apply single_line_end.
Qed.

Lemma audit_log_records_are_single_lines_witness :
  let node := set_execute_time "0.050"
                (audited 1 "CREATE TABLE t (id INT)" SQLCOM_CREATE_TABLE 0) in
  free_of "010" (c_str log_time)
  /\ single_line
       (Log.audit_log_session_line log_time (Some "dba") (Some "10.0.0.1")
          (execute_session [node]) 1 0 1234)
  /\ single_line
       (Log.audit_log_statement_line log_time (Some "dba") (Some "10.0.0.1")
          (execute_session [node]) node).
Proof.
  intros node.
  assert (Htime : free_of "010" (c_str log_time))
    by (vm_compute; repeat split; discriminate).
  destruct (audit_log_records_are_single_lines log_time (Some "dba")
              (Some "10.0.0.1") (execute_session [node]) Htime)
    as [Hsession Hstatement].
  split; [exact Htime|]. split; [apply Hsession|].
  apply Hstatement. vm_compute. repeat split; discriminate.
Defined.

End JsonText.
